(** * Sparky live session engine: a shallow embedding of [App.tsx]

    The repository ships two generations of the application component.
    Both are embedded here, each in its own module:

    - [VariantA]: the component with mute and deafen controls
      (App.tsx, lines 1-708);
    - [VariantB]: the component with face reporting and exponential
      back-off (App.tsx, lines 708-1472).

    Conventions of the embedding.

    - A handler ([onmessage], [onaudioprocess], [onclose], an [onended]
      callback, an effect body) is run as a single step: the browser event
      loop is single threaded, and the audio decoding awaited inside
      [onmessage] is taken to resolve inside the step that issued it.  The
      text-to-speech request of the greeting is a network round trip: what
      [speakText] does once it has resolved is a step of its own
      ([SpeechResolved] in variant A).
    - A React state variable and the ref that mirrors it are one field,
      except where a handler reads the ref after having queued an update of
      the state (variant B keeps [robotStateRef], [currentInputRef] and
      [currentOutputRef] apart; the commit that brings them up to date is
      an event of its own, [Commit]).
    - [startSession] and the callbacks it installs read some state
      variables from the closure of the render in which the button was
      clicked; the timers re-run the same closure.  Those values are an
      argument ([Closure]) of the functions that read them.
    - Times on the output audio clock ([AudioContext.currentTime],
      [AudioBuffer.duration]) are integers counting sample frames of the
      output device; the engine only adds and compares them.
    - What a handler does to the outside world (starting and stopping buffer
      sources, frames sent on the channel, requests, timers) is returned as
      a list of [Action]s in program order.
    - The helpers of [utils/audioUtils] (base64 and PCM coding) are not part
      of the sources at hand; payloads are kept symbolic.
    - The camera and the perception callbacks (face and gesture events),
      which only set the mood, add log lines and send frames, are left
      out. *)

From Stdlib Require Import ZArith QArith List String Ascii Bool Lia Lqa DecimalString.
Import ListNotations.
Close Scope Q_scope.
Local Open Scope string_scope.
Local Open Scope list_scope.
Local Open Scope Z_scope.


(** ** types.ts *)

Inductive RobotState : Type :=
  IDLE | CONNECTING | LISTENING | THINKING | SPEAKING | ERROR.

Inductive RobotMood : Type :=
  | neutral | happy | concerned | curious | excited | calm | sad
  | alert | waving | surprised | thumbs_up | facepalm | shrug | nervous.

Inductive EntryType : Type := user | robot | system.

(** [timestamp] is [Date.now()] at insertion; no property below reads it. *)
Record TranscriptionEntry : Type := { type : EntryType; text : string }.

Record FaceBox : Type :=
  { ymin : option Z; xmin : option Z; ymax : option Z; xmax : option Z;
    face_index : nat }.

Definition RobotState_eqb (a b : RobotState) : bool :=
  match a, b with
  | IDLE, IDLE | CONNECTING, CONNECTING | LISTENING, LISTENING
  | THINKING, THINKING | SPEAKING, SPEAKING | ERROR, ERROR => true
  | _, _ => false
  end.

(** ** Values shared by both components *)

(** Output-clock time, in sample frames. *)
Definition time : Type := Z.

(** The argument of [setVolume]: the literal [0], or
    [Math.sqrt(sum / length) * 2.5] for the sum of squares of one frame. *)
Inductive Volume : Type :=
  | VolumeZero
  | VolumeRms (sum : Q) (length : nat).

Inductive Severity : Type := critical | warning.

Record ErrorDetail : Type := { detail_message : string; detail_type : Severity }.

(** A thrown or rejected value, as far as the handlers inspect it. *)
Record JsError : Type := { name : string; message : string }.

(** A buffer source created by [createBufferSource()].  [node_id] stands for
    the identity of the object, [node_when] is the argument given to
    [start], [node_duration] is [audioBuffer.duration] and [node_clock] the
    value of [currentTime] the handler read for it. *)
Record AudioBufferSourceNode : Type :=
  { node_id : nat; node_when : time; node_duration : time; node_clock : time }.

Definition node_end (n : AudioBufferSourceNode) : time :=
  node_when n + node_duration n.

Inductive Media : Type :=
  | AudioPcm (samples : list Q)      (* mimeType 'audio/pcm;rate=16000' *)
  | ImageJpeg (data : string)        (* mimeType 'image/jpeg' *)
  | TextPlain (data : string).       (* mimeType 'text/plain' *)

Inductive UISound : Type :=
  UIConnect | UISpeech | UIError | UISuccess | UIToggle | UIAlert.

Inductive Action : Type :=
  | SourceStart (node : AudioBufferSourceNode)   (* source.start(when) *)
  | SourceStop (node : AudioBufferSourceNode)    (* source.stop() *)
  | SessionClose                                 (* sessionRef.current.close() *)
  | SendRealtimeInput (media : Media)            (* session.sendRealtimeInput *)
  | SendToolResponse (id fname result : string)  (* session.sendToolResponse *)
  | SendText (txt : string)                      (* session.send([{ text }]) *)
  | GenerateContent (txt : string)               (* ai.models.generateContent, speech *)
  | PlayUISound (sound : UISound)
  | SetTimeout (delay : Q) (retryCount : nat)    (* timer re-running startSession *)
  | GetChannelData                               (* e.inputBuffer.getChannelData(0) *)
  | SumSquares (sum : Q) (length : nat).         (* the loop sum += x * x *)

(** *** Inbound messages *)

(** A function call as the handlers use it, once every property they
    dereference has been read: [arg_faces] holds the [box_2d] of each
    reported face. *)
Record FunctionArgs : Type :=
  { arg_mood : RobotMood; arg_reason : string; arg_faces : list (list Z) }.

Record FunctionCall : Type :=
  { fc_id : string; fc_name : string; fc_args : FunctionArgs }.

(** A function call as the channel delivers it.  [args] is optional in the
    type of the SDK, and so are the properties inside it.  [mood] and
    [reason], which the handlers only pass on, are kept at their declared
    types; [args] itself, [faces] and the [box_2d] of a face, which the
    handlers dereference, may be absent. *)
Record RawArgs : Type :=
  { raw_mood : RobotMood; raw_reason : string;
    raw_faces : option (list (option (list Z))) }.

Record RawFunctionCall : Type :=
  { raw_id : string; raw_name : string; raw_args : option RawArgs }.

(** One part of a model turn.  For a part with [inlineData] the record of
    the event also carries what the handler observes while it processes the
    part: the output clock and the outcome of [decodeAudioData] ([None] when
    it rejects, otherwise the duration of the decoded buffer). *)
Inductive Part : Type :=
  | OtherPart
  | InlineData (now : time) (decoded : option time).

Record LiveServerMessage : Type :=
  { outputTranscription : option string;
    inputTranscription : option string;
    turnComplete : bool;
    toolCall : option (list FunctionCall);
    modelTurn : option (list Part);
    interrupted : bool }.

(** *** What one run of [startSession] meets *)

Record Attempt : Type :=
  { apiKey : bool;                      (* process.env.API_KEY is set *)
    permissions : option JsError;       (* getUserMedia in handleInitialization *)
    audioContexts : option JsError;     (* new AudioContext(...) *)
    connect : option JsError;           (* anything thrown inside the try block *)
    random : Q }.                       (* Math.random() *)

(** [f.box_2d] of every face of a report, [None] when a face has none. *)
Fixpoint boxes (faces : list (option (list Z))) : option (list (list Z)) :=
  match faces with
  | [] => Some []
  | None :: _ => None
  | Some box_2d :: rest =>
      match boxes rest with
      | Some bs => Some (box_2d :: bs)
      | None => None
      end
  end.

(** ** String helpers *)

(** [s.includes(sub)] *)
Fixpoint includes (s sub : string) : bool :=
  if String.prefix sub s then true
  else match s with
       | EmptyString => false
       | String _ s' => includes s' sub
       end.

(** Decimal rendering of a number inside a template literal. *)
Definition string_of_nat (n : nat) : string :=
  NilZero.string_of_uint (Nat.to_uint n).

(** The loop [for (i...) sum += inputData[i] * inputData[i]]. *)
Definition sumSquares (inputData : list Q) : Q :=
  fold_left (fun sum x => (sum + x * x)%Q) inputData 0%Q.

(** [sourcesRef.current.delete(source)] *)
Definition delete (id : nat) (s : list AudioBufferSourceNode) :
  list AudioBufferSourceNode :=
  filter (fun n => negb (Nat.eqb (node_id n) id)) s.

(** Reading the action log. *)
Definition started (acts : list Action) : list AudioBufferSourceNode :=
  flat_map (fun a => match a with SourceStart n => [n] | _ => [] end) acts.

Definition stopped (acts : list Action) : list AudioBufferSourceNode :=
  flat_map (fun a => match a with SourceStop n => [n] | _ => [] end) acts.

Definition sent (acts : list Action) : list Media :=
  flat_map (fun a => match a with SendRealtimeInput m => [m] | _ => [] end) acts.

Definition timers (acts : list Action) : list (Q * nat) :=
  flat_map (fun a => match a with SetTimeout d n => [(d, n)] | _ => [] end) acts.

Definition requested (acts : list Action) : list string :=
  flat_map (fun a => match a with GenerateContent txt => [txt] | _ => [] end) acts.

Definition toolResponses (id : string) (acts : list Action) : list Action :=
  filter (fun a => match a with
                   | SendToolResponse i _ _ => String.eqb i id
                   | _ => false
                   end) acts.

(** ** Variant A: the component with mute and deafen controls *)

Module VariantA.

(** The only declared tool ([updateMoodFunction.name]). *)
Definition update_spark_mood : string := "update_spark_mood".

Definition GREETING_TEXT : string :=
  "Hi, I am an AI companion, you can talk to me in any language and I will do my best to reply back in the same language. You can interact with me as you are speaking to a friend. Also you can open the camera by pressing the eye icon below, for more interactive features. However do remember that you agree to the terms and conditions in the link below before using the app".

(** [new Int16Array(16000).fill(0)], sent once when the channel opens. *)
Definition silence : list Q := repeat 0%Q (Z.to_nat 16000).

(** The engine state: the React state variables and the refs of the
    component.  [isMuted], [isDeafened], [isActive] and [robotState] stand
    for the state variable and its ref at once.  [sessionRef] records
    whether a session object is held; [nextNodeId] numbers the buffer
    sources created so far.  The camera, the gesture badge and the cosmetic
    sync counter are not part of the engine. *)
Record State : Type := mkState
  { robotState : RobotState;
    mood : RobotMood;
    isActive : bool;
    isMuted : bool;
    isDeafened : bool;
    history : list TranscriptionEntry;
    volume : Volume;
    isInitialized : bool;
    errorDetail : option ErrorDetail;
    liveInput : string;
    liveOutput : string;
    sessionRef : bool;
    nextStartTimeRef : time;
    sourcesRef : list AudioBufferSourceNode;
    nextNodeId : nat }.

Definition setRobotState (v : RobotState) (st : State) : State :=
  mkState v (mood st) (isActive st) (isMuted st) (isDeafened st) (history st)
    (volume st) (isInitialized st) (errorDetail st) (liveInput st)
    (liveOutput st) (sessionRef st) (nextStartTimeRef st) (sourcesRef st)
    (nextNodeId st).
Definition setMood (v : RobotMood) (st : State) : State :=
  mkState (robotState st) v (isActive st) (isMuted st) (isDeafened st)
    (history st) (volume st) (isInitialized st) (errorDetail st)
    (liveInput st) (liveOutput st) (sessionRef st) (nextStartTimeRef st)
    (sourcesRef st) (nextNodeId st).
Definition setIsActive (v : bool) (st : State) : State :=
  mkState (robotState st) (mood st) v (isMuted st) (isDeafened st)
    (history st) (volume st) (isInitialized st) (errorDetail st)
    (liveInput st) (liveOutput st) (sessionRef st) (nextStartTimeRef st)
    (sourcesRef st) (nextNodeId st).
Definition setIsMuted (v : bool) (st : State) : State :=
  mkState (robotState st) (mood st) (isActive st) v (isDeafened st)
    (history st) (volume st) (isInitialized st) (errorDetail st)
    (liveInput st) (liveOutput st) (sessionRef st) (nextStartTimeRef st)
    (sourcesRef st) (nextNodeId st).
Definition setIsDeafened (v : bool) (st : State) : State :=
  mkState (robotState st) (mood st) (isActive st) (isMuted st) v (history st)
    (volume st) (isInitialized st) (errorDetail st) (liveInput st)
    (liveOutput st) (sessionRef st) (nextStartTimeRef st) (sourcesRef st)
    (nextNodeId st).
Definition setHistory (v : list TranscriptionEntry) (st : State) : State :=
  mkState (robotState st) (mood st) (isActive st) (isMuted st)
    (isDeafened st) v (volume st) (isInitialized st) (errorDetail st)
    (liveInput st) (liveOutput st) (sessionRef st) (nextStartTimeRef st)
    (sourcesRef st) (nextNodeId st).
Definition setVolume (v : Volume) (st : State) : State :=
  mkState (robotState st) (mood st) (isActive st) (isMuted st)
    (isDeafened st) (history st) v (isInitialized st) (errorDetail st)
    (liveInput st) (liveOutput st) (sessionRef st) (nextStartTimeRef st)
    (sourcesRef st) (nextNodeId st).
Definition setIsInitialized (v : bool) (st : State) : State :=
  mkState (robotState st) (mood st) (isActive st) (isMuted st)
    (isDeafened st) (history st) (volume st) v (errorDetail st)
    (liveInput st) (liveOutput st) (sessionRef st) (nextStartTimeRef st)
    (sourcesRef st) (nextNodeId st).
Definition setErrorDetail (v : option ErrorDetail) (st : State) : State :=
  mkState (robotState st) (mood st) (isActive st) (isMuted st)
    (isDeafened st) (history st) (volume st) (isInitialized st) v
    (liveInput st) (liveOutput st) (sessionRef st) (nextStartTimeRef st)
    (sourcesRef st) (nextNodeId st).
Definition setLiveInput (v : string) (st : State) : State :=
  mkState (robotState st) (mood st) (isActive st) (isMuted st)
    (isDeafened st) (history st) (volume st) (isInitialized st)
    (errorDetail st) v (liveOutput st) (sessionRef st) (nextStartTimeRef st)
    (sourcesRef st) (nextNodeId st).
Definition setLiveOutput (v : string) (st : State) : State :=
  mkState (robotState st) (mood st) (isActive st) (isMuted st)
    (isDeafened st) (history st) (volume st) (isInitialized st)
    (errorDetail st) (liveInput st) v (sessionRef st) (nextStartTimeRef st)
    (sourcesRef st) (nextNodeId st).
Definition set_sessionRef (v : bool) (st : State) : State :=
  mkState (robotState st) (mood st) (isActive st) (isMuted st)
    (isDeafened st) (history st) (volume st) (isInitialized st)
    (errorDetail st) (liveInput st) (liveOutput st) v (nextStartTimeRef st)
    (sourcesRef st) (nextNodeId st).
Definition set_nextStartTimeRef (v : time) (st : State) : State :=
  mkState (robotState st) (mood st) (isActive st) (isMuted st)
    (isDeafened st) (history st) (volume st) (isInitialized st)
    (errorDetail st) (liveInput st) (liveOutput st) (sessionRef st) v
    (sourcesRef st) (nextNodeId st).
Definition set_sourcesRef (v : list AudioBufferSourceNode) (st : State) : State :=
  mkState (robotState st) (mood st) (isActive st) (isMuted st)
    (isDeafened st) (history st) (volume st) (isInitialized st)
    (errorDetail st) (liveInput st) (liveOutput st) (sessionRef st)
    (nextStartTimeRef st) v (nextNodeId st).
Definition set_nextNodeId (v : nat) (st : State) : State :=
  mkState (robotState st) (mood st) (isActive st) (isMuted st)
    (isDeafened st) (history st) (volume st) (isInitialized st)
    (errorDetail st) (liveInput st) (liveOutput st) (sessionRef st)
    (nextStartTimeRef st) (sourcesRef st) v.


(** The component as first rendered. *)
Definition initial : State :=
  mkState IDLE neutral false false false [] VolumeZero false None
          "" "" false 0 [] 0%nat.

(** [addLog] (lines 114-117) *)
Definition addLog (t : EntryType) (txt : string) (st : State) : State :=
  if String.eqb txt "" then st
  else setHistory (history st ++ [{| type := t; text := txt |}]) st.

(** [stopSession] (lines 337-362) *)
Definition stopSession (st : State) : State * list Action :=
  let acts := (if sessionRef st then [SessionClose] else [])
              ++ map SourceStop (sourcesRef st) in
  let st := set_sourcesRef [] st in
  let st := set_sessionRef false st in
  let st := set_nextStartTimeRef 0 st in
  let st := setIsActive false st in
  let st := setRobotState IDLE st in
  let st := setMood neutral st in
  let st := setVolume VolumeZero st in
  let st := setLiveInput "" st in
  let st := setLiveOutput "" st in
  (addLog system "NEURAL LINK DEACTIVATED." st, acts).

(** The classification at the head of [handleError] (lines 121-134). *)
Definition classify (error : JsError) : string * Severity :=
  let errMsg := message error in
  if includes errMsg "Operation is not implemented" || includes errMsg "not supported"
  then ("Certain neural features are limited. Restricted vision tools detected.", warning)
  else if String.eqb (name error) "NotAllowedError"
  then ("Hardware access denied.", critical)
  else if includes errMsg "API_KEY"
  then ("Configuration error: Invalid Key.", critical)
  else ("An unexpected error occurred.", warning).

(** [handleError] (lines 119-143) *)
Definition handleError (error : JsError) (st : State) : State * list Action :=
  let '(userMessage, ty) := classify error in
  let st := setErrorDetail (Some {| detail_message := userMessage; detail_type := ty |}) st in
  let st := addLog system ("ERROR: " ++ userMessage)%string st in
  match ty with
  | critical =>
      let '(st, acts) := stopSession st in
      (setRobotState ERROR st, PlayUISound UIError :: acts)
  | warning => (st, [PlayUISound UIError])
  end.

(** Scheduling one decoded buffer: lines 461-473 of [onmessage], and the
    same statements at lines 234-246 of [speakText]. *)
Definition playBuffer (now duration : time) (st : State) : State * list Action :=
  let st := setRobotState SPEAKING st in
  let startTime := Z.max (nextStartTimeRef st) now in
  let source := {| node_id := nextNodeId st; node_when := startTime;
                   node_duration := duration; node_clock := now |} in
  let st := set_nextStartTimeRef (startTime + duration) st in
  let st := set_sourcesRef (sourcesRef st ++ [source]) st in
  (set_nextNodeId (S (nextNodeId st)) st, [SourceStart source]).

(** [source.onended] (lines 465-468) *)
Definition onended (id : nat) (st : State) : State :=
  let st := set_sourcesRef (delete id (sourcesRef st)) st in
  match sourcesRef st with
  | [] => setVolume VolumeZero (setRobotState LISTENING st)
  | _ :: _ => st
  end.

(** [speakText] up to its first [await] (lines 219-230): the guard is
    read and the request issued.  The function is only called from
    [onopen], which [startSession] reaches with the API key present. *)
Definition speakText (txt : string) (st : State) : State * list Action :=
  if String.eqb txt "" || isDeafened st then (st, [])
  else (st, [GenerateContent txt]).

(** The rest of [speakText] (lines 231-247), run when the request has
    resolved with audio and the output context is still there: [now] is
    the clock it reads and [duration] that of the decoded speech.  The
    deafen flag is not read again.  A request that fails, or resolves
    without audio, does nothing. *)
Definition speakText_resolved (txt : string) (now duration : time) (st : State) :
  State * list Action :=
  let '(st, acts) := playBuffer now duration st in
  (addLog robot txt st, acts).

(** The effect on [isDeafened] (lines 96-106), run after the flag changed. *)
Definition useEffect_isDeafened (st : State) : State * list Action :=
  if isDeafened st
  then (setVolume VolumeZero (setRobotState LISTENING (set_sourcesRef [] st)),
        map SourceStop (sourcesRef st))
  else (st, []).

(** The deafen button (line 658) followed by the effect it triggers. *)
Definition toggleDeafened (st : State) : State * list Action :=
  let '(st, acts) := useEffect_isDeafened (setIsDeafened (negb (isDeafened st)) st) in
  (st, PlayUISound UIToggle :: acts).

(** The mute button (line 649). *)
Definition toggleMuted (st : State) : State * list Action :=
  (setIsMuted (negb (isMuted st)) st, [PlayUISound UIToggle]).

(** [scriptProcessor.onaudioprocess] (lines 422-436) *)
Definition onaudioprocess (inputData : list Q) (st : State) : State * list Action :=
  if RobotState_eqb (robotState st) IDLE then (st, [])
  else if negb (isMuted st)
  then
    let sum := sumSquares inputData in
    let st := if RobotState_eqb (robotState st) LISTENING
              then setVolume (VolumeRms sum (List.length inputData)) st
              else st in
    (st, [GetChannelData; SumSquares sum (List.length inputData);
          SendRealtimeInput (AudioPcm inputData)])
  else (setVolume VolumeZero st, [GetChannelData]).

(** The transcription statements of [onmessage] (lines 443-444). *)
Definition accumulate (msg : LiveServerMessage) (st : State) : State :=
  match outputTranscription msg with
  | Some t => setLiveOutput (liveOutput st ++ t)%string st
  | None =>
      match inputTranscription msg with
      | Some t => setLiveInput (liveInput st ++ t)%string st
      | None => st
      end
  end.

(** Lines 445-448: the two functional updates run in order. *)
Definition flushTurn (st : State) : State :=
  let st := setLiveInput "" (addLog user (liveInput st) st) in
  setLiveOutput "" (addLog robot (liveOutput st) st).

(** Lines 449-456 *)
Fixpoint handleToolCall (calls : list FunctionCall) (st : State) : State * list Action :=
  match calls with
  | [] => (st, [])
  | fc :: rest =>
      if String.eqb (fc_name fc) update_spark_mood
      then
        let '(st', acts) := handleToolCall rest (setMood (arg_mood (fc_args fc)) st) in
        (st', SendToolResponse (fc_id fc) (fc_name fc) "Mood synced." :: acts)
      else handleToolCall rest st
  end.

(** What lines 452-453 read from a call as delivered: [None] when
    [(fc.args as any).mood] throws because [args] is absent.  A call under
    another name is not read at all. *)
Definition noArgs : FunctionArgs :=
  {| arg_mood := neutral; arg_reason := ""; arg_faces := [] |}.

Definition readArgs (fc : RawFunctionCall) : option FunctionArgs :=
  if String.eqb (raw_name fc) update_spark_mood
  then match raw_args fc with
       | Some a => Some {| arg_mood := raw_mood a; arg_reason := raw_reason a;
                           arg_faces := [] |}
       | None => None
       end
  else Some noArgs.

(** Lines 449-456 on the calls as delivered.  The boolean is [false] when
    a read threw: the asynchronous handler stops at that call, the
    responses of the calls before it are sent. *)
Fixpoint handleRawToolCall (calls : list RawFunctionCall) (st : State) :
  State * list Action * bool :=
  match calls with
  | [] => (st, [], true)
  | fc :: rest =>
      match readArgs fc with
      | None => (st, [], false)
      | Some args =>
          let '(st1, a1) :=
            handleToolCall [{| fc_id := raw_id fc; fc_name := raw_name fc;
                               fc_args := args |}] st in
          let '(st2, a2, ok) := handleRawToolCall rest st1 in
          (st2, a1 ++ a2, ok)
      end
  end.

(** Lines 457-476.  The boolean is [false] when [decodeAudioData] rejected:
    the asynchronous handler then stops at that part. *)
Fixpoint playParts (parts : list Part) (st : State) : State * list Action * bool :=
  match parts with
  | [] => (st, [], true)
  | OtherPart :: rest => playParts rest st
  | InlineData _ None :: _ => (st, [], false)
  | InlineData now (Some duration) :: rest =>
      let '(st1, a1) := playBuffer now duration st in
      let '(st2, a2, ok) := playParts rest st1 in
      (st2, a1 ++ a2, ok)
  end.

(** Lines 477-484 *)
Definition interrupt (st : State) : State * list Action :=
  let acts := map SourceStop (sourcesRef st) in
  let st := set_sourcesRef [] st in
  let st := set_nextStartTimeRef 0 st in
  let st := setRobotState LISTENING st in
  let st := setVolume VolumeZero st in
  (setLiveOutput "" st, acts).

(** [onmessage] (lines 440-485) *)
Definition onmessage (msg : LiveServerMessage) (st : State) : State * list Action :=
  if isDeafened st then (st, [])
  else
    let st := accumulate msg st in
    let st := if turnComplete msg then flushTurn st else st in
    let '(st, a1) := match toolCall msg with
                     | Some calls => handleToolCall calls st
                     | None => (st, [])
                     end in
    let '(st, a2, ok) := match modelTurn msg with
                         | Some parts => playParts parts st
                         | None => (st, [], true)
                         end in
    if ok && interrupted msg
    then let '(st, a3) := interrupt st in (st, a1 ++ a2 ++ a3)
    else (st, a1 ++ a2).

(** [onmessage] on a message that carries only a tool call, with the calls
    as delivered (lines 441 and 449-456). *)
Definition onmessage_toolCall (calls : list RawFunctionCall) (st : State) :
  State * list Action :=
  if isDeafened st then (st, [])
  else let '(st, acts, _) := handleRawToolCall calls st in (st, acts).

(** [onclose] (lines 487-490) *)
Definition onclose (code : nat) (st : State) : State * list Action :=
  if negb (Nat.eqb code 1000) && isActive st
  then handleError {| name := "Error";
                      message := ("Link severed: " ++ string_of_nat code)%string |} st
  else (setIsActive false (setRobotState IDLE st), []).

(** [onopen] (lines 412-439): the request for the greeting, which is not
    awaited, the frame of silence, and the wiring of the script processor
    (whose callback is [onaudioprocess]). *)
Definition onopen (st : State) : State * list Action :=
  let st := setRobotState LISTENING st in
  let st := addLog system "NEURAL LINK ESTABLISHED." st in
  let '(st, acts) := speakText GREETING_TEXT st in
  (st, acts ++ [SendRealtimeInput (AudioPcm silence)]).

(** [handleInitialization] (lines 364-375) *)
Definition handleInitialization (env : Attempt) (st : State) :
  State * list Action * bool :=
  let st := setErrorDetail None (setRobotState CONNECTING st) in
  match permissions env with
  | None => (setIsInitialized true st, [PlayUISound UIConnect; PlayUISound UISuccess], true)
  | Some err =>
      let '(st, acts) := handleError err st in
      (st, PlayUISound UIConnect :: acts, false)
  end.

(** The retry decision in the [catch] of [startSession] (line 495). *)
Definition MAX_RETRIES : nat := 2.
Definition RETRY_DELAY : Q := 2000%Q.

(** What [startSession] reads from the closure it belongs to: the value
    [isInitialized] had in the render whose button was clicked.  The run a
    timer starts is a call of the same closure. *)
Record Closure : Type := { closure_isInitialized : bool }.

Definition render (st : State) : Closure :=
  {| closure_isInitialized := isInitialized st |}.

(** One run of [startSession(retryCount)] (lines 377-496).  The last
    component is the argument of the run it schedules, if any. *)
Definition startSession (env : Attempt) (retryCount : nat) (c : Closure) (st : State) :
  State * list Action * option nat :=
  if negb (apiKey env)
  then let '(st, acts) :=
         handleError {| name := "Error"; message := "API_KEY is missing." |} st in
       (st, acts, None)
  else
    let '(st, a0, ready) :=
      if closure_isInitialized c then (st, [], true)
      else handleInitialization env st in
    if negb ready then (st, a0, None)
    else
      match audioContexts env with
      | Some e => let '(st, acts) := handleError e st in (st, a0 ++ acts, None)
      | None =>
          let st := setRobotState CONNECTING st in
          let st := setErrorDetail None st in
          let st := setIsActive true st in
          let st := set_nextStartTimeRef 0 st in
          let a1 := if Nat.eqb retryCount 0 then [PlayUISound UIConnect] else [] in
          match connect env with
          | None =>
              let '(st, acts) := onopen st in
              (set_sessionRef true st, a0 ++ a1 ++ acts, None)
          | Some err =>
              if Nat.ltb retryCount MAX_RETRIES
              then (st, a0 ++ a1 ++ [SetTimeout RETRY_DELAY (S retryCount)],
                    Some (S retryCount))
              else let '(st, acts) := handleError err st in
                   (st, a0 ++ a1 ++ acts, None)
          end
      end.

(** The chain of runs linked by the timers: each run takes the next
    [Attempt]; the chain stops when a run schedules nothing, or is left
    pending when the attempts run out. *)
Fixpoint startSession_chain (envs : list Attempt) (retryCount : nat) (c : Closure)
         (st : State) : State * list Action * option nat :=
  match envs with
  | [] => (st, [], Some retryCount)
  | env :: rest =>
      let '(st1, a1, next) := startSession env retryCount c st in
      match next with
      | None => (st1, a1, None)
      | Some n =>
          let '(st2, a2, pending) := startSession_chain rest n c st1 in
          (st2, a1 ++ a2, pending)
      end
  end.

(** The power button (line 604): Shutdown while active, otherwise Wake Up,
    which calls [startSession] of the render on display. *)
Definition onClick_power (envs : list Attempt) (st : State) :
  State * list Action * option nat :=
  if isActive st
  then let '(st, acts) := stopSession st in (st, acts, None)
  else startSession_chain envs 0 (render st) st.

(** *** Events of a running session

    [SpeechResolved now duration] is the greeting request resolving with
    audio of that duration while the output clock shows [now]. *)

Inductive Event : Type :=
  | Open
  | SpeechResolved (now duration : time)
  | Message (msg : LiveServerMessage)
  | SourceEnded (id : nat)
  | AudioProcess (inputData : list Q)
  | ToggleMuted
  | ToggleDeafened.

Definition step (ev : Event) (st : State) : State * list Action :=
  match ev with
  | Open => onopen st
  | SpeechResolved now duration => speakText_resolved GREETING_TEXT now duration st
  | Message msg => onmessage msg st
  | SourceEnded id => (onended id st, [])
  | AudioProcess inputData => onaudioprocess inputData st
  | ToggleMuted => toggleMuted st
  | ToggleDeafened => toggleDeafened st
  end.

Fixpoint run (evs : list Event) (st : State) : State * list Action :=
  match evs with
  | [] => (st, [])
  | ev :: rest =>
      let '(st1, a1) := step ev st in
      let '(st2, a2) := run rest st1 in
      (st2, a1 ++ a2)
  end.

End VariantA.

(** ** Variant B: the component with face reporting and back-off *)

Module VariantB.

(** The declared tools ([updateMoodFunction.name], [reportFacesFunction.name]). *)
Definition update_sparky_mood : string := "update_sparky_mood".
Definition report_faces : string := "report_faces".

(** The engine state.  This component reads [robotStateRef],
    [currentInputRef] and [currentOutputRef] inside handlers that also queue
    updates of the mirrored state variables, so the refs are fields of their
    own, brought up to date by [useEffect_sync]. *)
Record State : Type := mkState
  { robotState : RobotState;
    mood : RobotMood;
    lastGesture : option string;
    detectedFaces : list FaceBox;
    isActive : bool;
    history : list TranscriptionEntry;
    currentInput : string;
    currentOutput : string;
    volume : Volume;
    isInitialized : bool;
    errorDetail : option ErrorDetail;
    sessionRef : bool;
    robotStateRef : RobotState;
    currentInputRef : string;
    currentOutputRef : string;
    nextStartTimeRef : time;
    sourcesRef : list AudioBufferSourceNode;
    nextNodeId : nat }.

Definition setRobotState (v : RobotState) (st : State) : State :=
  mkState v (mood st) (lastGesture st) (detectedFaces st) (isActive st)
    (history st) (currentInput st) (currentOutput st) (volume st)
    (isInitialized st) (errorDetail st) (sessionRef st) (robotStateRef st)
    (currentInputRef st) (currentOutputRef st) (nextStartTimeRef st)
    (sourcesRef st) (nextNodeId st).
Definition setMood (v : RobotMood) (st : State) : State :=
  mkState (robotState st) v (lastGesture st) (detectedFaces st) (isActive st)
    (history st) (currentInput st) (currentOutput st) (volume st)
    (isInitialized st) (errorDetail st) (sessionRef st) (robotStateRef st)
    (currentInputRef st) (currentOutputRef st) (nextStartTimeRef st)
    (sourcesRef st) (nextNodeId st).
Definition setLastGesture (v : option string) (st : State) : State :=
  mkState (robotState st) (mood st) v (detectedFaces st) (isActive st)
    (history st) (currentInput st) (currentOutput st) (volume st)
    (isInitialized st) (errorDetail st) (sessionRef st) (robotStateRef st)
    (currentInputRef st) (currentOutputRef st) (nextStartTimeRef st)
    (sourcesRef st) (nextNodeId st).
Definition setDetectedFaces (v : list FaceBox) (st : State) : State :=
  mkState (robotState st) (mood st) (lastGesture st) v (isActive st)
    (history st) (currentInput st) (currentOutput st) (volume st)
    (isInitialized st) (errorDetail st) (sessionRef st) (robotStateRef st)
    (currentInputRef st) (currentOutputRef st) (nextStartTimeRef st)
    (sourcesRef st) (nextNodeId st).
Definition setIsActive (v : bool) (st : State) : State :=
  mkState (robotState st) (mood st) (lastGesture st) (detectedFaces st) v
    (history st) (currentInput st) (currentOutput st) (volume st)
    (isInitialized st) (errorDetail st) (sessionRef st) (robotStateRef st)
    (currentInputRef st) (currentOutputRef st) (nextStartTimeRef st)
    (sourcesRef st) (nextNodeId st).
Definition setHistory (v : list TranscriptionEntry) (st : State) : State :=
  mkState (robotState st) (mood st) (lastGesture st) (detectedFaces st)
    (isActive st) v (currentInput st) (currentOutput st) (volume st)
    (isInitialized st) (errorDetail st) (sessionRef st) (robotStateRef st)
    (currentInputRef st) (currentOutputRef st) (nextStartTimeRef st)
    (sourcesRef st) (nextNodeId st).
Definition setCurrentInput (v : string) (st : State) : State :=
  mkState (robotState st) (mood st) (lastGesture st) (detectedFaces st)
    (isActive st) (history st) v (currentOutput st) (volume st)
    (isInitialized st) (errorDetail st) (sessionRef st) (robotStateRef st)
    (currentInputRef st) (currentOutputRef st) (nextStartTimeRef st)
    (sourcesRef st) (nextNodeId st).
Definition setCurrentOutput (v : string) (st : State) : State :=
  mkState (robotState st) (mood st) (lastGesture st) (detectedFaces st)
    (isActive st) (history st) (currentInput st) v (volume st)
    (isInitialized st) (errorDetail st) (sessionRef st) (robotStateRef st)
    (currentInputRef st) (currentOutputRef st) (nextStartTimeRef st)
    (sourcesRef st) (nextNodeId st).
Definition setVolume (v : Volume) (st : State) : State :=
  mkState (robotState st) (mood st) (lastGesture st) (detectedFaces st)
    (isActive st) (history st) (currentInput st) (currentOutput st) v
    (isInitialized st) (errorDetail st) (sessionRef st) (robotStateRef st)
    (currentInputRef st) (currentOutputRef st) (nextStartTimeRef st)
    (sourcesRef st) (nextNodeId st).
Definition setIsInitialized (v : bool) (st : State) : State :=
  mkState (robotState st) (mood st) (lastGesture st) (detectedFaces st)
    (isActive st) (history st) (currentInput st) (currentOutput st)
    (volume st) v (errorDetail st) (sessionRef st) (robotStateRef st)
    (currentInputRef st) (currentOutputRef st) (nextStartTimeRef st)
    (sourcesRef st) (nextNodeId st).
Definition setErrorDetail (v : option ErrorDetail) (st : State) : State :=
  mkState (robotState st) (mood st) (lastGesture st) (detectedFaces st)
    (isActive st) (history st) (currentInput st) (currentOutput st)
    (volume st) (isInitialized st) v (sessionRef st) (robotStateRef st)
    (currentInputRef st) (currentOutputRef st) (nextStartTimeRef st)
    (sourcesRef st) (nextNodeId st).
Definition set_sessionRef (v : bool) (st : State) : State :=
  mkState (robotState st) (mood st) (lastGesture st) (detectedFaces st)
    (isActive st) (history st) (currentInput st) (currentOutput st)
    (volume st) (isInitialized st) (errorDetail st) v (robotStateRef st)
    (currentInputRef st) (currentOutputRef st) (nextStartTimeRef st)
    (sourcesRef st) (nextNodeId st).
Definition set_robotStateRef (v : RobotState) (st : State) : State :=
  mkState (robotState st) (mood st) (lastGesture st) (detectedFaces st)
    (isActive st) (history st) (currentInput st) (currentOutput st)
    (volume st) (isInitialized st) (errorDetail st) (sessionRef st) v
    (currentInputRef st) (currentOutputRef st) (nextStartTimeRef st)
    (sourcesRef st) (nextNodeId st).
Definition set_currentInputRef (v : string) (st : State) : State :=
  mkState (robotState st) (mood st) (lastGesture st) (detectedFaces st)
    (isActive st) (history st) (currentInput st) (currentOutput st)
    (volume st) (isInitialized st) (errorDetail st) (sessionRef st)
    (robotStateRef st) v (currentOutputRef st) (nextStartTimeRef st)
    (sourcesRef st) (nextNodeId st).
Definition set_currentOutputRef (v : string) (st : State) : State :=
  mkState (robotState st) (mood st) (lastGesture st) (detectedFaces st)
    (isActive st) (history st) (currentInput st) (currentOutput st)
    (volume st) (isInitialized st) (errorDetail st) (sessionRef st)
    (robotStateRef st) (currentInputRef st) v (nextStartTimeRef st)
    (sourcesRef st) (nextNodeId st).
Definition set_nextStartTimeRef (v : time) (st : State) : State :=
  mkState (robotState st) (mood st) (lastGesture st) (detectedFaces st)
    (isActive st) (history st) (currentInput st) (currentOutput st)
    (volume st) (isInitialized st) (errorDetail st) (sessionRef st)
    (robotStateRef st) (currentInputRef st) (currentOutputRef st) v
    (sourcesRef st) (nextNodeId st).
Definition set_sourcesRef (v : list AudioBufferSourceNode) (st : State) : State :=
  mkState (robotState st) (mood st) (lastGesture st) (detectedFaces st)
    (isActive st) (history st) (currentInput st) (currentOutput st)
    (volume st) (isInitialized st) (errorDetail st) (sessionRef st)
    (robotStateRef st) (currentInputRef st) (currentOutputRef st)
    (nextStartTimeRef st) v (nextNodeId st).
Definition set_nextNodeId (v : nat) (st : State) : State :=
  mkState (robotState st) (mood st) (lastGesture st) (detectedFaces st)
    (isActive st) (history st) (currentInput st) (currentOutput st)
    (volume st) (isInitialized st) (errorDetail st) (sessionRef st)
    (robotStateRef st) (currentInputRef st) (currentOutputRef st)
    (nextStartTimeRef st) (sourcesRef st) v.


(** The component as first rendered. *)
Definition initial : State :=
  mkState IDLE neutral None [] false [] "" "" VolumeZero false None
          false IDLE "" "" 0 [] 0%nat.

(** The effects of lines 797-804, run when React commits. *)
Definition useEffect_sync (st : State) : State :=
  set_currentOutputRef (currentOutput st)
    (set_currentInputRef (currentInput st)
       (set_robotStateRef (robotState st) st)).

(** [a || b] on strings *)
Definition orElse (a b : string) : string :=
  if String.eqb a "" then b else a.

(** [stopSession] (lines 923-957) *)
Definition stopSession (st : State) : State * list Action :=
  let acts := (if sessionRef st then [SessionClose] else [])
              ++ map SourceStop (sourcesRef st) in
  let st := set_sourcesRef [] st in
  let st := set_sessionRef false st in
  let st := set_currentInputRef "" st in
  let st := set_currentOutputRef "" st in
  let st := set_nextStartTimeRef 0 st in
  let st := setIsActive false st in
  let st := setRobotState IDLE st in
  let st := setMood neutral st in
  let st := setLastGesture None st in
  let st := setDetectedFaces [] st in
  let st := setVolume VolumeZero st in
  let st := setCurrentInput "" st in
  (setCurrentOutput "" st, acts).

(** [handleInitialization] (lines 959-982) *)
Definition handleInitialization (env : Attempt) (st : State) : State * list Action :=
  let st := setErrorDetail None (setRobotState CONNECTING st) in
  match permissions env with
  | None =>
      (setRobotState IDLE (setIsInitialized true st),
       [PlayUISound UIConnect; PlayUISound UISuccess])
  | Some err =>
      let msg :=
        if String.eqb (name err) "NotAllowedError"
        then "Sensory access denied. Mic/Camera permissions are required."
        else if String.eqb (name err) "NotFoundError"
        then "No visual or auditory hardware detected."
        else ("System error: " ++ orElse (message err) "Unknown activation failure")%string in
      let st := setErrorDetail (Some {| detail_message := msg; detail_type := critical |}) st in
      (setRobotState ERROR st, [PlayUISound UIConnect; PlayUISound UIError])
  end.

(** [onopen] (lines 1050-1082): the state change; the script processor it
    wires up calls [onaudioprocess]. *)
Definition onopen (st : State) : State := setRobotState LISTENING st.

(** [scriptProcessor.onaudioprocess] (lines 1059-1079) *)
Definition onaudioprocess (inputData : list Q) (st : State) : State * list Action :=
  if RobotState_eqb (robotStateRef st) IDLE then (st, [])
  else
    let sum := sumSquares inputData in
    let st := if RobotState_eqb (robotStateRef st) LISTENING
              then setVolume (VolumeRms sum (List.length inputData)) st
              else st in
    (st, [GetChannelData; SumSquares sum (List.length inputData);
          SendRealtimeInput (AudioPcm inputData)]).

(** Lines 1098-1104 *)
Definition faceBox (idx : nat) (box_2d : list Z) : FaceBox :=
  {| ymin := nth_error box_2d 0; xmin := nth_error box_2d 1;
     ymax := nth_error box_2d 2; xmax := nth_error box_2d 3;
     face_index := idx |}.

Fixpoint faceBoxes (idx : nat) (faces : list (list Z)) : list FaceBox :=
  match faces with
  | [] => []
  | f :: rest => faceBox idx f :: faceBoxes (S idx) rest
  end.

(** One function call of a tool-call message (lines 1086-1117): the two
    [if]s are tried in turn. *)
Definition handleFunctionCall (fc : FunctionCall) (st : State) : State * list Action :=
  let '(st, a1) :=
    if String.eqb (fc_name fc) update_sparky_mood
    then (setLastGesture (Some (arg_reason (fc_args fc)))
            (setMood (arg_mood (fc_args fc)) st),
          [SendToolResponse (fc_id fc) (fc_name fc) "Mood updated"])
    else (st, []) in
  if String.eqb (fc_name fc) report_faces
  then
    let boxes := faceBoxes 0 (arg_faces (fc_args fc)) in
    let n := List.length boxes in
    let st := setDetectedFaces boxes st in
    let st := setMood curious st in
    let st := setHistory
                (history st ++
                 [{| type := system;
                     text := ("VISUAL LINK: DETECTED " ++ string_of_nat n ++
                              " HUMAN ENTIT" ++ (if Nat.ltb 1 n then "IES" else "Y") ++
                              " IN FRAME.")%string |}]) st in
    (st, a1 ++ [SendToolResponse (fc_id fc) (fc_name fc)
                  ("Tracking " ++ string_of_nat n ++ " faces.")%string])
  else (st, a1).

(** Lines 1084-1119 *)
Fixpoint handleToolCall (calls : list FunctionCall) (st : State) : State * list Action :=
  match calls with
  | [] => (st, [])
  | fc :: rest =>
      let '(st1, a1) := handleFunctionCall fc st in
      let '(st2, a2) := handleToolCall rest st1 in
      (st2, a1 ++ a2)
  end.

(** What lines 1087-1088 and 1098-1104 read from a call as delivered:
    [None] when a read throws, because [args] is absent or, for a face
    report, [faces] is or a face has no [box_2d].  A call under another
    name is not read at all. *)
Definition noArgs : FunctionArgs :=
  {| arg_mood := neutral; arg_reason := ""; arg_faces := [] |}.

Definition readArgs (fc : RawFunctionCall) : option FunctionArgs :=
  if String.eqb (raw_name fc) update_sparky_mood
  then match raw_args fc with
       | Some a => Some {| arg_mood := raw_mood a; arg_reason := raw_reason a;
                           arg_faces := [] |}
       | None => None
       end
  else if String.eqb (raw_name fc) report_faces
  then match raw_args fc with
       | Some a =>
           match raw_faces a with
           | Some faces =>
               match boxes faces with
               | Some bs => Some {| arg_mood := raw_mood a; arg_reason := raw_reason a;
                                    arg_faces := bs |}
               | None => None
               end
           | None => None
           end
       | None => None
       end
  else Some noArgs.

(** Lines 1084-1119 on the calls as delivered.  The boolean is [false]
    when a read threw: the asynchronous handler stops at that call, before
    it changes anything for it. *)
Fixpoint handleRawToolCall (calls : list RawFunctionCall) (st : State) :
  State * list Action * bool :=
  match calls with
  | [] => (st, [], true)
  | fc :: rest =>
      match readArgs fc with
      | None => (st, [], false)
      | Some args =>
          let '(st1, a1) :=
            handleFunctionCall {| fc_id := raw_id fc; fc_name := raw_name fc;
                                  fc_args := args |} st in
          let '(st2, a2, ok) := handleRawToolCall rest st1 in
          (st2, a1 ++ a2, ok)
      end
  end.

(** [onmessage] on a message that carries only a tool call, with the calls
    as delivered. *)
Definition onmessage_toolCall (calls : list RawFunctionCall) (st : State) :
  State * list Action :=
  let '(st, acts, _) := handleRawToolCall calls st in (st, acts).

(** Lines 1130-1136: the cursor is moved to the clock before the buffer is
    decoded. *)
Definition anchor (now : time) (st : State) : State :=
  match sourcesRef st with
  | [] => set_nextStartTimeRef now st
  | _ :: _ =>
      if nextStartTimeRef st <? now then set_nextStartTimeRef now st else st
  end.

(** Lines 1140-1158 *)
Definition playBuffer (now duration : time) (st : State) : State * list Action :=
  let source := {| node_id := nextNodeId st; node_when := nextStartTimeRef st;
                   node_duration := duration; node_clock := now |} in
  let st := setRobotState SPEAKING st in
  let st := set_nextStartTimeRef (nextStartTimeRef st + duration) st in
  let st := set_sourcesRef (sourcesRef st ++ [source]) st in
  (set_nextNodeId (S (nextNodeId st)) st, [SourceStart source]).

(** One part with inline data (lines 1123-1162); a rejected decode is
    caught and the part dropped. *)
Definition playPart (now : time) (decoded : option time) (st : State) :
  State * list Action :=
  let a0 := if RobotState_eqb (robotStateRef st) SPEAKING then []
            else [PlayUISound UISpeech] in
  let st := anchor now st in
  match decoded with
  | None => (st, a0)
  | Some duration =>
      let '(st, acts) := playBuffer now duration st in (st, a0 ++ acts)
  end.

(** Lines 1121-1164 *)
Fixpoint playParts (parts : list Part) (st : State) : State * list Action :=
  match parts with
  | [] => (st, [])
  | OtherPart :: rest => playParts rest st
  | InlineData now decoded :: rest =>
      let '(st1, a1) := playPart now decoded st in
      let '(st2, a2) := playParts rest st1 in
      (st2, a1 ++ a2)
  end.

(** [source.onended] (lines 1147-1153) *)
Definition onended (id : nat) (st : State) : State :=
  let st := set_sourcesRef (delete id (sourcesRef st)) st in
  match sourcesRef st with
  | [] => setVolume VolumeZero (setRobotState LISTENING st)
  | _ :: _ => st
  end.

(** Lines 1166-1172 *)
Definition interrupt (st : State) : State * list Action :=
  let acts := map SourceStop (sourcesRef st) in
  let st := set_sourcesRef [] st in
  let st := set_nextStartTimeRef 0 st in
  let st := setRobotState LISTENING st in
  (setVolume VolumeZero st, acts).

(** Lines 1174-1175 *)
Definition accumulate (msg : LiveServerMessage) (st : State) : State :=
  let st := match inputTranscription msg with
            | Some t => setCurrentInput (currentInput st ++ t)%string st
            | None => st
            end in
  match outputTranscription msg with
  | Some t => setCurrentOutput (currentOutput st ++ t)%string st
  | None => st
  end.

(** Lines 1176-1184: the texts are read from the refs. *)
Definition flushTurn (st : State) : State :=
  let uText := currentInputRef st in
  let rText := currentOutputRef st in
  let entries :=
    (if String.eqb uText "" then [] else [{| type := user; text := uText |}]) ++
    (if String.eqb rText "" then [] else [{| type := robot; text := rText |}]) in
  let st := if String.eqb uText "" && String.eqb rText "" then st
            else setHistory (history st ++ entries) st in
  setCurrentOutput "" (setCurrentInput "" st).

(** [onmessage] (lines 1083-1185) *)
Definition onmessage (msg : LiveServerMessage) (st : State) : State * list Action :=
  let '(st, a1) := match toolCall msg with
                   | Some calls => handleToolCall calls st
                   | None => (st, [])
                   end in
  let '(st, a2) := match modelTurn msg with
                   | Some parts => playParts parts st
                   | None => (st, [])
                   end in
  let '(st, a3) := if interrupted msg then interrupt st else (st, []) in
  let st := accumulate msg st in
  let st := if turnComplete msg then flushTurn st else st in
  (st, a1 ++ a2 ++ a3).

(** What [startSession] and the callbacks it installs read from the
    closure they belong to: the values [isInitialized] and [isActive] had
    in the render whose button was clicked.  The run a timer starts is a
    call of the same closure. *)
Record Closure : Type :=
  { closure_isInitialized : bool; closure_isActive : bool }.

Definition render (st : State) : Closure :=
  {| closure_isInitialized := isInitialized st; closure_isActive := isActive st |}.

(** [onclose] (lines 1194-1203) of a session started by the closure [c]. *)
Definition onclose (code : nat) (c : Closure) (st : State) : State * list Action :=
  if negb (Nat.eqb code 1000) && closure_isActive c
  then
    let st := setRobotState ERROR st in
    (setErrorDetail
       (Some {| detail_message :=
                  ("Activation aborted (Code: " ++ string_of_nat code ++
                   "). This often means the API key is missing or the project billing is inactive.")%string;
                detail_type := critical |}) st, [])
  else (setIsActive false (setRobotState IDLE st), []).

(** [handleSendMessage] (lines 1225-1237).  [thrown] tells whether
    [session.send] throws, which the handler catches. *)
Definition handleSendMessage (txt : string) (thrown : bool) (st : State) :
  State * list Action :=
  if sessionRef st
  then
    if thrown
    then (setErrorDetail
            (Some {| detail_message := "Signal transmission failed.";
                     detail_type := warning |}) st, [])
    else (setHistory (history st ++ [{| type := user; text := txt |}]) st,
          [SendText txt])
  else (st, []).

Definition MAX_RETRIES : nat := 3.

(** Line 1212: [Math.pow(2, retryCount) * 1000 + Math.random() * 500] *)
Definition retryDelay (retryCount : nat) (rnd : Q) : Q :=
  (inject_Z (2 ^ Z.of_nat retryCount) * 1000 + rnd * 500)%Q.

(** One run of [startSession(retryCount)] (lines 984-1223).  The last
    component is the argument of the run it schedules, if any.  The audio
    contexts are created outside any [try]: a failure there ends the run. *)
Definition startSession (env : Attempt) (retryCount : nat) (c : Closure) (st : State) :
  State * list Action * option nat :=
  if negb (apiKey env)
  then
    let st := setRobotState ERROR st in
    (setErrorDetail
       (Some {| detail_message :=
                  "Neural link failed: API_KEY is missing from environment. If deployed on Netlify, please add API_KEY to your site settings.";
                detail_type := critical |}) st,
     [PlayUISound UIError], None)
  else
    match audioContexts env with
    | Some _ => (st, [], None)
    | None =>
        if negb (closure_isInitialized c)
        then let '(st, acts) := handleInitialization env st in (st, acts, None)
        else
          let st := setRobotState CONNECTING st in
          let st := setErrorDetail None st in
          let st := setIsActive true st in
          let st := set_nextStartTimeRef 0 st in
          let a1 := if Nat.eqb retryCount 0 then [PlayUISound UIConnect] else [] in
          match connect env with
          | None => (set_sessionRef true (onopen st), a1, None)
          | Some err =>
              if Nat.ltb retryCount MAX_RETRIES
              then (st, a1 ++ [SetTimeout (retryDelay retryCount (random env)) (S retryCount)],
                    Some (S retryCount))
              else
                let st := setRobotState ERROR st in
                (setErrorDetail
                   (Some {| detail_message :=
                              ("Neural handshake failed: " ++
                               orElse (message err) "The service is unavailable" ++
                               ". Check environment variables for API_KEY.")%string;
                            detail_type := critical |}) st,
                 a1 ++ [PlayUISound UIError], None)
          end
    end.

(** The chain of runs linked by the timers, as in variant A. *)
Fixpoint startSession_chain (envs : list Attempt) (retryCount : nat) (c : Closure)
         (st : State) : State * list Action * option nat :=
  match envs with
  | [] => (st, [], Some retryCount)
  | env :: rest =>
      let '(st1, a1, next) := startSession env retryCount c st in
      match next with
      | None => (st1, a1, None)
      | Some n =>
          let '(st2, a2, pending) := startSession_chain rest n c st1 in
          (st2, a1 ++ a2, pending)
      end
  end.

(** The power button (line 1315): Shutdown while active, otherwise Wake
    Up, which calls [startSession] of the render on display. *)
Definition onClick_power (envs : list Attempt) (st : State) :
  State * list Action * option nat :=
  if isActive st
  then let '(st, acts) := stopSession st in (st, acts, None)
  else startSession_chain envs 0 (render st) st.

(** The Re-Sync button of the error banner (line 1348), offered while a
    critical error is on display. *)
Definition onClick_reSync (envs : list Attempt) (st : State) :
  State * list Action * option nat :=
  startSession_chain envs 0 (render st) st.

(** *** Events of a running session

    [SourceEnded now id] is the [onended] callback of source [id], run when
    the output clock shows [now].  [Commit] is React committing a render:
    the effects that copy the state into the refs run.  Nothing makes a
    commit happen between two handlers. *)

Inductive Event : Type :=
  | Message (msg : LiveServerMessage)
  | SourceEnded (now : time) (id : nat)
  | AudioProcess (inputData : list Q)
  | SendMessage (txt : string) (thrown : bool)
  | Commit.

Definition step (ev : Event) (st : State) : State * list Action :=
  match ev with
  | Message msg => onmessage msg st
  | SourceEnded _ id => (onended id st, [])
  | AudioProcess inputData => onaudioprocess inputData st
  | SendMessage txt thrown => handleSendMessage txt thrown st
  | Commit => (useEffect_sync st, [])
  end.

Fixpoint run (evs : list Event) (st : State) : State * list Action :=
  match evs with
  | [] => (st, [])
  | ev :: rest =>
      let '(st1, a1) := step ev st in
      let '(st2, a2) := run rest st1 in
      (st2, a1 ++ a2)
  end.

End VariantB.

(** ** Vocabulary of the properties *)

(** The schedule the playback scheduler is meant to produce, read off the
    list of started sources: the first one starts at the clock of its
    enqueue, every later one at the later of the end of its predecessor and
    the clock of its own enqueue. *)
Fixpoint spec_schedule (prev : option time) (nodes : list AudioBufferSourceNode) : Prop :=
  match nodes with
  | [] => True
  | n :: rest =>
      node_when n = match prev with
                    | None => node_clock n
                    | Some e => Z.max e (node_clock n)
                    end
      /\ spec_schedule (Some (node_end n)) rest
  end.

(** No gap: a source enqueued before its predecessor ended starts exactly
    where the predecessor ends. *)
Fixpoint spec_gapless (prev : option time) (nodes : list AudioBufferSourceNode) : Prop :=
  match nodes with
  | [] => True
  | n :: rest =>
      match prev with
      | None => True
      | Some e => node_clock n <= e -> node_when n = e
      end
      /\ spec_gapless (Some (node_end n)) rest
  end.

(** The schedule seen from a cursor value: each start is the later of the
    cursor and the clock, and the cursor moves to the end of the source. *)
Fixpoint chain (cursor : time) (nodes : list AudioBufferSourceNode) : Prop :=
  match nodes with
  | [] => True
  | n :: rest => node_when n = Z.max cursor (node_clock n) /\ chain (node_end n) rest
  end.

Fixpoint chain_end (cursor : time) (nodes : list AudioBufferSourceNode) : time :=
  match nodes with
  | [] => cursor
  | n :: rest => chain_end (node_end n) rest
  end.

(** The observations attached to the parts of a model turn: the clock never
    runs backwards from [clock] on, and decoded durations are not negative. *)
Fixpoint parts_physical (clock : time) (parts : list Part) : Prop :=
  match parts with
  | [] => True
  | OtherPart :: rest => parts_physical clock rest
  | InlineData now decoded :: rest =>
      clock <= now
      /\ match decoded with Some d => 0 <= d | None => True end
      /\ parts_physical now rest
  end.

Fixpoint parts_clock (clock : time) (parts : list Part) : time :=
  match parts with
  | [] => clock
  | OtherPart :: rest => parts_clock clock rest
  | InlineData now _ :: rest => parts_clock now rest
  end.

Definition message_parts (msg : LiveServerMessage) : list Part :=
  match modelTurn msg with Some parts => parts | None => [] end.

Definition message_calls (msg : LiveServerMessage) : list FunctionCall :=
  match toolCall msg with Some calls => calls | None => [] end.

(** Every audio part of the message decodes. *)
Definition allDecoded (msg : LiveServerMessage) : bool :=
  forallb (fun p => match p with InlineData _ None => false | _ => true end)
          (message_parts msg).

(** The events of the specification's taxonomy, as messages. *)
Inductive Role : Type := input | output.

Definition emptyMessage : LiveServerMessage :=
  {| outputTranscription := None; inputTranscription := None; turnComplete := false;
     toolCall := None; modelTurn := None; interrupted := false |}.

Definition PartialTranscript (r : Role) (t : string) : LiveServerMessage :=
  match r with
  | output =>
      {| outputTranscription := Some t; inputTranscription := None; turnComplete := false;
         toolCall := None; modelTurn := None; interrupted := false |}
  | input =>
      {| outputTranscription := None; inputTranscription := Some t; turnComplete := false;
         toolCall := None; modelTurn := None; interrupted := false |}
  end.

Definition TurnComplete : LiveServerMessage :=
  {| outputTranscription := None; inputTranscription := None; turnComplete := true;
     toolCall := None; modelTurn := None; interrupted := false |}.

Definition ToolCall (calls : list FunctionCall) : LiveServerMessage :=
  {| outputTranscription := None; inputTranscription := None; turnComplete := false;
     toolCall := Some calls; modelTurn := None; interrupted := false |}.

Definition AudioFragment (now duration : time) : LiveServerMessage :=
  {| outputTranscription := None; inputTranscription := None; turnComplete := false;
     toolCall := None; modelTurn := Some [InlineData now (Some duration)];
     interrupted := false |}.

Definition Interrupted : LiveServerMessage :=
  {| outputTranscription := None; inputTranscription := None; turnComplete := false;
     toolCall := None; modelTurn := None; interrupted := true |}.

(** The texts of one role in a list of partial transcripts, concatenated. *)
Fixpoint texts (r : Role) (ps : list (Role * string)) : string :=
  match ps with
  | [] => ""
  | (output, t) :: rest =>
      match r with output => (t ++ texts r rest)%string | input => texts r rest end
  | (input, t) :: rest =>
      match r with input => (t ++ texts r rest)%string | output => texts r rest end
  end.

(** The log entry of one side at the end of a turn. *)
Definition turnEntry (t : EntryType) (s : string) : list TranscriptionEntry :=
  if String.eqb s "" then [] else [{| type := t; text := s |}].

(** How many calls of a tool-call message carry the id [id] and a name
    accepted by [known]. *)
Definition callsWith (known : string -> bool) (id : string) (calls : list FunctionCall) : nat :=
  List.length (filter (fun fc => String.eqb (fc_id fc) id && known (fc_name fc)) calls).

(** The same count over the calls of a message as delivered. *)
Definition rawCallsWith (known : string -> bool) (id : string)
           (calls : list RawFunctionCall) : nat :=
  List.length (filter (fun fc => String.eqb (raw_id fc) id && known (raw_name fc)) calls).

(** The calls of a message the handler gets to: those before the first
    one whose arguments it fails to read. *)
Fixpoint reached (read : RawFunctionCall -> option FunctionArgs)
         (calls : list RawFunctionCall) : list RawFunctionCall :=
  match calls with
  | [] => []
  | fc :: rest =>
      match read fc with
      | Some _ => fc :: reached read rest
      | None => []
      end
  end.

(** A call delivered with every argument present. *)
Definition delivered (fc : FunctionCall) : RawFunctionCall :=
  {| raw_id := fc_id fc; raw_name := fc_name fc;
     raw_args := Some {| raw_mood := arg_mood (fc_args fc);
                         raw_reason := arg_reason (fc_args fc);
                         raw_faces := Some (map Some (arg_faces (fc_args fc))) |} |}.

(** The error met by a run of [startSession] that gets as far as the
    connection and fails there. *)
Definition connectFailure (env : Attempt) : option JsError :=
  if apiKey env
  then match audioContexts env with
       | None => connect env
       | Some _ => None
       end
  else None.

(** Characters of a decimal rendering. *)
Definition is_digit (c : ascii) : bool :=
  (Nat.leb 48 (nat_of_ascii c) && Nat.leb (nat_of_ascii c) 57)%bool.

Fixpoint all_digits (s : string) : bool :=
  match s with
  | EmptyString => true
  | String c s' => is_digit c && all_digits s'
  end.

Module TraceA.
Import VariantA.

(** The part of the state the playback scheduler works on. *)
Definition playback (st : State) : time * list AudioBufferSourceNode * bool :=
  (nextStartTimeRef st, sourcesRef st, isDeafened st).

(** Events of variant A under which the schedule is stated: a message is
    not an interruption, and the clock readings are not negative. *)
Definition quiet (ev : Event) : Prop :=
  match ev with
  | Message msg =>
      interrupted msg = false
      /\ Forall (fun p => match p with InlineData now _ => 0 <= now | _ => True end)
                (message_parts msg)
  | SpeechResolved now _ => 0 <= now
  | _ => True
  end.

(** Decoded durations are not negative. *)
Definition sane (ev : Event) : Prop :=
  match ev with
  | Message msg =>
      Forall (fun p => match p with InlineData _ (Some d) => 0 <= d | _ => True end)
             (message_parts msg)
  | SpeechResolved _ d => 0 <= d
  | _ => True
  end.

Definition isReset (ev : Event) : bool :=
  match ev with
  | Message msg => interrupted msg
  | _ => false
  end.

(** A run of partial transcripts, one message each. *)
Definition partials (ps : list (Role * string)) : list Event :=
  map (fun p => Message (PartialTranscript (fst p) (snd p))) ps.

(** The names in [functionDeclarations] (line 407). *)
Definition declared (fname : string) : bool := String.eqb fname update_spark_mood.

Definition keepsDeafened (ev : Event) : bool :=
  match ev with
  | ToggleDeafened => false
  | _ => true
  end.

(** The events that are neither a deafen toggle nor the resolution of a
    greeting request. *)
Definition inbound (ev : Event) : bool :=
  match ev with
  | ToggleDeafened | SpeechResolved _ _ => false
  | _ => true
  end.

(** The cursor before and after every step of a run. *)
Fixpoint cursor_log (evs : list Event) (st : State) : list (Event * time * time) :=
  match evs with
  | [] => []
  | ev :: rest =>
      (ev, nextStartTimeRef st, nextStartTimeRef (fst (step ev st)))
        :: cursor_log rest (fst (step ev st))
  end.

(** A run of [startSession] with closure [c] gets past the authorisation:
    the closure saw the component initialised, or access is granted. *)
Definition authorised (c : Closure) (env : Attempt) : bool :=
  closure_isInitialized c
  || match permissions env with None => true | Some _ => false end.

End TraceA.

Module TraceB.
Import VariantB.

Definition playback (st : State) : time * list AudioBufferSourceNode :=
  (nextStartTimeRef st, sourcesRef st).

(** The cursor of [st] is the end [e] of the schedule so far, or was moved
    past it to a clock reading not later than [clock]. *)
Definition tracks (e clock : time) (st : State) : Prop :=
  e <= nextStartTimeRef st
  /\ (nextStartTimeRef st = e \/ nextStartTimeRef st <= clock).

(** What the environment may present to variant B from clock value [clock]
    on: clock readings never decrease, durations are not negative, and the
    [onended] callback of a source in flight does not run before the end of
    that source. *)
Definition event_physical (clock : time) (st : State) (ev : Event) : Prop :=
  match ev with
  | Message msg => parts_physical clock (message_parts msg)
  | SourceEnded now id =>
      clock <= now
      /\ forall s, In s (sourcesRef st) -> node_id s = id -> node_end s <= now
  | _ => True
  end.

Definition clock_after (clock : time) (ev : Event) : time :=
  match ev with
  | Message msg => parts_clock clock (message_parts msg)
  | SourceEnded now _ => now
  | _ => clock
  end.

Fixpoint physical (clock : time) (st : State) (evs : list Event) : Prop :=
  match evs with
  | [] => True
  | ev :: rest =>
      event_physical clock st ev
      /\ physical (clock_after clock ev) (fst (step ev st)) rest
  end.

Definition isReset (ev : Event) : bool :=
  match ev with
  | Message msg => interrupted msg
  | _ => false
  end.

Definition quiet (evs : list Event) : Prop :=
  Forall (fun ev => isReset ev = false) evs.

(** A run of partial transcripts, one message each. *)
Definition partials (ps : list (Role * string)) : list Event :=
  map (fun p => Message (PartialTranscript (fst p) (snd p))) ps.

(** The names in [functionDeclarations] (line 1045). *)
Definition declared (fname : string) : bool :=
  String.eqb fname update_sparky_mood || String.eqb fname report_faces.

(** The cursor before and after every step of a run. *)
Fixpoint cursor_log (evs : list Event) (st : State) : list (Event * time * time) :=
  match evs with
  | [] => []
  | ev :: rest =>
      (ev, nextStartTimeRef st, nextStartTimeRef (fst (step ev st)))
        :: cursor_log rest (fst (step ev st))
  end.

(** The refs agree with the state they mirror. *)
Definition synced (st : State) : Prop :=
  robotStateRef st = robotState st
  /\ currentInputRef st = currentInput st
  /\ currentOutputRef st = currentOutput st.

(** The cursor is not ahead of the clock unless a source in flight ends
    exactly at the cursor. *)
Definition anchored (clock : time) (st : State) : Prop :=
  nextStartTimeRef st <= clock
  \/ exists s, In s (sourcesRef st) /\ node_end s = nextStartTimeRef st.

End TraceB.

(** ** Concrete sessions *)

Module Examples.

Definition available : Attempt :=
  {| apiKey := true; permissions := None; audioContexts := None; connect := None;
     random := 0%Q |}.

Definition unreachable (r : Q) : Attempt :=
  {| apiKey := true; permissions := None; audioContexts := None;
     connect := Some {| name := "Error"; message := "WebSocket closed" |};
     random := r |}.

Definition unknownCall : LiveServerMessage :=
  ToolCall [{| fc_id := "call-1"; fc_name := "set_alarm";
               fc_args := {| arg_mood := happy; arg_reason := ""; arg_faces := [] |} |}].

Definition busyMessage : LiveServerMessage :=
  {| outputTranscription := Some "Hi"; inputTranscription := None; turnComplete := true;
     toolCall := Some [{| fc_id := "call-2"; fc_name := "update_spark_mood";
                          fc_args := {| arg_mood := excited; arg_reason := "";
                                        arg_faces := [] |} |}];
     modelTurn := Some [InlineData 7 (Some 3)]; interrupted := true |}.

Definition frame : list Q := [(1 # 2)%Q; (-1 # 4)%Q; 0%Q].

(** A call as delivered, with or without its [args]. *)
Definition rawMoodCall (id fname : string) (present : bool) : RawFunctionCall :=
  {| raw_id := id; raw_name := fname;
     raw_args := if present
                 then Some {| raw_mood := happy; raw_reason := "a smile";
                              raw_faces := None |}
                 else None |}.

(** A face report whose second face has no [box_2d]. *)
Definition brokenFaceReport (id : string) : RawFunctionCall :=
  {| raw_id := id; raw_name := "report_faces";
     raw_args := Some {| raw_mood := neutral; raw_reason := "";
                         raw_faces := Some [Some [10; 20; 30; 40]; None] |} |}.

(** Access to the microphone is refused. *)
Definition refusedAccess : Attempt :=
  {| apiKey := true;
     permissions := Some {| name := "NotAllowedError"; message := "Permission denied" |};
     audioContexts := None;
     connect := Some {| name := "Error"; message := "WebSocket closed" |};
     random := 0%Q |}.

Module A.
Import VariantA.

(** After a successful wake-up. *)
Definition listening : State := fst (fst (onClick_power [available] initial)).

(** A fragment of five frames was scheduled, then the robot was silenced. *)
Definition deafened : State :=
  fst (run [Message (AudioFragment 0 5); ToggleDeafened] listening).

Definition muted : State := fst (run [ToggleMuted] listening).

(** A partial transcript arrived before the robot was silenced. *)
Definition heardHello : State :=
  fst (run [Message (PartialTranscript output "Hello"); ToggleDeafened] listening).

Definition playing : State :=
  fst (run [Message (AudioFragment 0 5); Message (AudioFragment 2 4)] listening).

Definition conversation : list Event :=
  [Message (AudioFragment 3 10); AudioProcess frame; Message (AudioFragment 5 10);
   SourceEnded 0; Message (AudioFragment 40 2)].

End A.

Module B.
Import VariantB.

(** After the first click, which only asks for the hardware. *)
Definition ready : State := fst (fst (onClick_power [available] initial)).

(** After the second click, a successful wake-up, and a commit. *)
Definition listening : State :=
  useEffect_sync (fst (fst (onClick_power [available] ready))).

Definition playing : State :=
  fst (run [Message (AudioFragment 0 5); Message (AudioFragment 2 4); Commit] listening).

Definition conversation : list Event :=
  [Message (AudioFragment 3 10); AudioProcess frame; Message (AudioFragment 5 10);
   SourceEnded 13 0; SourceEnded 30 1; Message (AudioFragment 40 2)].

(** Four attempts failed after a wake-up: ERROR with a critical message on
    display, the active flag still set. *)
Definition failed : State :=
  fst (fst (onClick_power (map unreachable [0; 0; 0; 0])%Q ready)).

End B.

End Examples.

(** ** Further vocabulary *)

(** One log grows into another by appending [suffix]. *)
Definition grows (h h' suffix : list TranscriptionEntry) : Prop := h' = h ++ suffix.

(** No entry with an empty text. *)
Definition spoken (h : list TranscriptionEntry) : Prop :=
  Forall (fun e => text e <> "") h.

(** An audio part whose data [decodeAudioData] rejects. *)
Definition fails (p : Part) : bool :=
  match p with InlineData _ None => true | _ => false end.

Definition decodes_or_skips (p : Part) : bool := negb (fails p).

(** Clock and duration of the audio parts that decode, in order. *)
Definition fragments (parts : list Part) : list (time * time) :=
  flat_map (fun p => match p with InlineData now (Some d) => [(now, d)] | _ => [] end) parts.

Definition scheduled (acts : list Action) : list (time * time) :=
  map (fun n => (node_clock n, node_duration n)) (started acts).

Definition audioTurn (parts : list Part) (stop : bool) : LiveServerMessage :=
  {| outputTranscription := None; inputTranscription := None; turnComplete := false;
     toolCall := None; modelTurn := Some parts; interrupted := stop |}.

(** A message that carries transcripts together with the end of the turn. *)
Definition closingMessage (heard said : option string) : LiveServerMessage :=
  {| outputTranscription := said; inputTranscription := heard; turnComplete := true;
     toolCall := None; modelTurn := None; interrupted := false |}.

(** What a message that carries both transcripts adds to each side in
    variant A: the input text is read only when there is no output text. *)
Definition keptInput (heard said : option string) : string :=
  match said, heard with
  | None, Some t => t
  | _, _ => ""
  end.

Definition keptOutput (said : option string) : string :=
  match said with Some t => t | None => "" end.

Definition moodCallOf (fname id : string) (m : RobotMood) : FunctionCall :=
  {| fc_id := id; fc_name := fname;
     fc_args := {| arg_mood := m; arg_reason := ""; arg_faces := [] |} |}.

Definition facesCallOf (id : string) (faces : list (list Z)) : FunctionCall :=
  {| fc_id := id; fc_name := VariantB.report_faces;
     fc_args := {| arg_mood := neutral; arg_reason := ""; arg_faces := faces |} |}.

(** The key is there, the audio contexts are created and the connection
    opens. *)
Definition reachable (env : Attempt) : bool :=
  apiKey env
  && match audioContexts env, connect env with
     | None, None => true
     | _, _ => false
     end.

Definition refused (env : Attempt) : bool :=
  match connectFailure env with Some _ => true | None => false end.

Module MoreA.
Import VariantA.

Definition microphone (frames : list (list Q)) : list Event := map AudioProcess frames.

(** The events that never run [onopen]. *)
Definition inSession (ev : Event) : bool :=
  match ev with Open => false | _ => true end.

(** The avatar speaks exactly while something is in flight. *)
Definition speakingWhilePlaying (st : State) : Prop :=
  robotState st = SPEAKING <-> sourcesRef st <> [].

(** The moods asked for by the calls of one tool-call message, in order. *)
Definition requestedMoods (calls : list FunctionCall) : list RobotMood :=
  flat_map (fun fc => if String.eqb (fc_name fc) update_spark_mood
                      then [arg_mood (fc_args fc)] else []) calls.

(** A run of [startSession] with closure [c] gets as far as the
    connection, which opens; or fails there. *)
Definition connects (c : Closure) (env : Attempt) : bool :=
  TraceA.authorised c env && reachable env.

Definition fails (c : Closure) (env : Attempt) : bool :=
  TraceA.authorised c env && refused env.

End MoreA.

Module MoreB.
Import VariantB.

Definition microphone (frames : list (list Q)) : list Event := map AudioProcess frames.

(** The same frames with a commit after each. *)
Definition microphone_committed (frames : list (list Q)) : list Event :=
  flat_map (fun f => [AudioProcess f; Commit]) frames.

Definition speakingWhilePlaying (st : State) : Prop :=
  robotState st = SPEAKING <-> sourcesRef st <> [].

(** The moods set by the calls of one tool-call message, in order: a face
    report sets the mood too. *)
Definition requestedMoods (calls : list FunctionCall) : list RobotMood :=
  flat_map (fun fc =>
              (if String.eqb (fc_name fc) update_sparky_mood
               then [arg_mood (fc_args fc)] else [])
              ++ (if String.eqb (fc_name fc) report_faces then [curious] else []))
           calls.

(** [onerror] of the live session (lines 1186-1193). *)
Definition onerror (err : JsError) (st : State) : State * list Action :=
  let st := setRobotState ERROR st in
  (setErrorDetail
     (Some {| detail_message :=
                ("Neural link unstable: " ++ orElse (message err) "Signal lost" ++
                 ". Ensure your API key is correctly configured.")%string;
              detail_type := warning |}) st, []).

(** A run of [startSession] with closure [c] gets as far as the
    connection, which opens: the closure saw the component initialised. *)
Definition connects (c : Closure) (env : Attempt) : bool :=
  closure_isInitialized c && reachable env.

Definition fails (c : Closure) (env : Attempt) : bool :=
  closure_isInitialized c && refused env.

(** The sentence logged by a face report that found [n] faces. *)
Definition faceSentence (n : nat) : string :=
  ("VISUAL LINK: DETECTED " ++ string_of_nat n ++
   (if Nat.ltb 1 n then " HUMAN ENTITIES IN FRAME." else " HUMAN ENTITY IN FRAME."))%string.

End MoreB.

(** ** Reading the action log *)

Opaque VariantA.silence.

Lemma RobotState_eqb_eq (a b : RobotState) : RobotState_eqb a b = true <-> a = b.
Proof. destruct a, b; simpl; split; congruence. Qed.

Lemma started_app (a b : list Action) : started (a ++ b) = started a ++ started b.
Proof. unfold started. apply flat_map_app. Qed.

Lemma stopped_app (a b : list Action) : stopped (a ++ b) = stopped a ++ stopped b.
Proof. unfold stopped. apply flat_map_app. Qed.

Lemma sent_app (a b : list Action) : sent (a ++ b) = sent a ++ sent b.
Proof. unfold sent. apply flat_map_app. Qed.

Lemma timers_app (a b : list Action) : timers (a ++ b) = timers a ++ timers b.
Proof. unfold timers. apply flat_map_app. Qed.

Lemma toolResponses_app (id : string) (a b : list Action) :
  toolResponses id (a ++ b) = toolResponses id a ++ toolResponses id b.
Proof. unfold toolResponses. apply filter_app. Qed.

Lemma started_stops (l : list AudioBufferSourceNode) : started (map SourceStop l) = [].
Proof. induction l; simpl; auto. Qed.

Lemma stopped_stops (l : list AudioBufferSourceNode) : stopped (map SourceStop l) = l.
Proof. induction l; simpl; congruence. Qed.

Lemma timers_stops (l : list AudioBufferSourceNode) : timers (map SourceStop l) = [].
Proof. induction l; simpl; auto. Qed.

Lemma toolResponses_stops (id : string) (l : list AudioBufferSourceNode) :
  toolResponses id (map SourceStop l) = [].
Proof. induction l; simpl; auto. Qed.

Ltac splits := repeat match goal with |- _ /\ _ => split end.

Ltac logs :=
  rewrite ?started_app, ?stopped_app, ?sent_app, ?timers_app, ?toolResponses_app,
    ?started_stops, ?stopped_stops, ?timers_stops, ?toolResponses_stops, ?app_nil_r.

(** ** The schedule predicates *)

Lemma chain_app (c : time) (l1 l2 : list AudioBufferSourceNode) :
  chain c (l1 ++ l2) <-> chain c l1 /\ chain (chain_end c l1) l2.
Proof.
  revert c. induction l1 as [|n l1 IH]; intros c; simpl.
  - tauto.
  - rewrite IH. tauto.
Qed.

Lemma chain_end_app (c : time) (l1 l2 : list AudioBufferSourceNode) :
  chain_end c (l1 ++ l2) = chain_end (chain_end c l1) l2.
Proof. revert c. induction l1 as [|n l1 IH]; intros c; simpl; auto. Qed.

Lemma chain_schedule (e : time) (nodes : list AudioBufferSourceNode) :
  chain e nodes -> spec_schedule (Some e) nodes.
Proof.
  revert e. induction nodes as [|n rest IH]; intros e; simpl; auto.
  intros [H1 H2]. split; auto.
Qed.

Lemma chain_schedule_first (c : time) (nodes : list AudioBufferSourceNode) :
  chain c nodes ->
  match nodes with [] => True | n :: _ => c <= node_clock n end ->
  spec_schedule None nodes.
Proof.
  destruct nodes as [|n rest]; simpl; auto.
  intros [H1 H2] Hc. split.
  - rewrite H1. lia.
  - apply chain_schedule. exact H2.
Qed.

Lemma schedule_gapless (prev : option time) (nodes : list AudioBufferSourceNode) :
  spec_schedule prev nodes -> spec_gapless prev nodes.
Proof.
  revert prev. induction nodes as [|n rest IH]; intros prev; simpl; auto.
  intros [H1 H2]. split; auto.
  destruct prev as [e|]; auto. intros Hle. rewrite H1. lia.
Qed.

(** ** Variant A: what each handler leaves alone *)

Module FactsA.
Import VariantA TraceA.

Ltac split_ifs :=
  repeat match goal with
         | |- context [if ?b then _ else _] => destruct b eqn:?
         | |- context [match ?x with Some _ => _ | None => _ end] => destruct x eqn:?
         end.

Lemma playback_eq st st' :
  playback st' = playback st ->
  nextStartTimeRef st' = nextStartTimeRef st
  /\ sourcesRef st' = sourcesRef st
  /\ isDeafened st' = isDeafened st.
Proof. unfold playback. intros H. inversion H. auto. Qed.

Lemma playback_addLog t txt st : playback (addLog t txt st) = playback st.
Proof. unfold addLog. split_ifs; reflexivity. Qed.

Lemma playback_accumulate msg st : playback (accumulate msg st) = playback st.
Proof. unfold accumulate. split_ifs; reflexivity. Qed.

Lemma playback_flushTurn st : playback (flushTurn st) = playback st.
Proof.
  unfold flushTurn, playback; simpl.
  pose proof (playback_addLog user (liveInput st) st) as H1.
  pose proof (playback_addLog robot
                (liveOutput (setLiveInput "" (addLog user (liveInput st) st)))
                (setLiveInput "" (addLog user (liveInput st) st))) as H2.
  unfold playback in H1, H2. simpl in H2. congruence.
Qed.

Lemma handleToolCall_frame calls st :
  playback (fst (handleToolCall calls st)) = playback st
  /\ started (snd (handleToolCall calls st)) = []
  /\ stopped (snd (handleToolCall calls st)) = []
  /\ timers (snd (handleToolCall calls st)) = [].
Proof.
  revert st. induction calls as [|fc rest IH]; intros st; simpl; auto.
  destruct (String.eqb (fc_name fc) update_spark_mood).
  - specialize (IH (setMood (arg_mood (fc_args fc)) st)).
    destruct (handleToolCall rest (setMood (arg_mood (fc_args fc)) st)) as [st' acts].
    simpl in *. exact IH.
  - apply IH.
Qed.

Lemma onaudioprocess_frame inputData st :
  playback (fst (onaudioprocess inputData st)) = playback st
  /\ started (snd (onaudioprocess inputData st)) = []
  /\ stopped (snd (onaudioprocess inputData st)) = [].
Proof. unfold onaudioprocess. split_ifs; simpl; auto. Qed.

Lemma onended_cursor id st :
  nextStartTimeRef (onended id st) = nextStartTimeRef st
  /\ isDeafened (onended id st) = isDeafened st
  /\ sourcesRef (onended id st) = delete id (sourcesRef st).
Proof.
  unfold onended; simpl. destruct (delete id (sourcesRef st)) eqn:E; simpl; auto.
Qed.

(** *** The scheduling statements *)

Lemma playBuffer_chain now d st :
  let '(st', acts) := playBuffer now d st in
  chain (nextStartTimeRef st) (started acts)
  /\ nextStartTimeRef st' = chain_end (nextStartTimeRef st) (started acts)
  /\ isDeafened st' = isDeafened st
  /\ stopped acts = []
  /\ Forall (fun n => node_clock n = now) (started acts).
Proof. unfold playBuffer; simpl. unfold node_end; simpl. auto 10. Qed.

Lemma playParts_chain parts st :
  Forall (fun p => match p with InlineData now _ => 0 <= now | _ => True end) parts ->
  let '(st', acts, ok) := playParts parts st in
  chain (nextStartTimeRef st) (started acts)
  /\ nextStartTimeRef st' = chain_end (nextStartTimeRef st) (started acts)
  /\ isDeafened st' = isDeafened st
  /\ stopped acts = []
  /\ Forall (fun n => 0 <= node_clock n) (started acts).
Proof.
  revert st. induction parts as [|p rest IH]; intros st Hp; cbn [playParts].
  { simpl. auto 10. }
  inversion Hp as [|? ? Hnow Hrest]; subst.
  destruct p as [|now [d|]].
  - apply IH; auto.
  - pose proof (playBuffer_chain now d st) as H1.
    destruct (playBuffer now d st) as [st1 a1].
    specialize (IH st1 Hrest).
    destruct (playParts rest st1) as [[st2 a2] ok].
    destruct H1 as (C1 & E1 & D1 & S1 & K1).
    destruct IH as (C2 & E2 & D2 & S2 & K2).
    logs. rewrite chain_app, chain_end_app, <- E1.
    splits; auto; try congruence.
    + rewrite S1. exact S2.
    + apply Forall_app. split; auto.
      eapply Forall_impl; [|exact K1]. simpl. intros n Hn. lia.
  - simpl. auto 10.
Qed.

Lemma speakText_frame txt st :
  fst (speakText txt st) = st
  /\ started (snd (speakText txt st)) = []
  /\ stopped (snd (speakText txt st)) = []
  /\ sent (snd (speakText txt st)) = []
  /\ timers (snd (speakText txt st)) = [].
Proof. unfold speakText. destruct (String.eqb txt "" || isDeafened st); cbn; auto. Qed.

Lemma speakText_resolved_chain txt now d st :
  0 <= now ->
  let '(st', acts) := speakText_resolved txt now d st in
  chain (nextStartTimeRef st) (started acts)
  /\ nextStartTimeRef st' = chain_end (nextStartTimeRef st) (started acts)
  /\ isDeafened st' = isDeafened st
  /\ stopped acts = []
  /\ Forall (fun n => 0 <= node_clock n) (started acts).
Proof.
  intros Hq. unfold speakText_resolved.
  pose proof (playBuffer_chain now d st) as H.
  destruct (playBuffer now d st) as [st1 a1].
  destruct H as (C1 & E1 & D1 & S1 & K1).
  pose proof (playback_addLog robot txt st1) as Hl. unfold playback in Hl.
  splits; auto; try congruence.
  eapply Forall_impl; [|exact K1]. simpl. intros n Hn. lia.
Qed.

Lemma onopen_chain st :
  let '(st', acts) := onopen st in
  chain (nextStartTimeRef st) (started acts)
  /\ nextStartTimeRef st' = chain_end (nextStartTimeRef st) (started acts)
  /\ isDeafened st' = isDeafened st
  /\ stopped acts = []
  /\ Forall (fun n => 0 <= node_clock n) (started acts).
Proof.
  unfold onopen.
  set (st0 := addLog system "NEURAL LINK ESTABLISHED." (setRobotState LISTENING st)).
  destruct (speakText_frame GREETING_TEXT st0) as (F1 & F2 & F3 & _).
  destruct (speakText GREETING_TEXT st0) as [st1 a1]. cbn [fst snd] in *. subst st1.
  assert (P0 : playback st0 = playback st).
  { unfold st0. rewrite playback_addLog. reflexivity. }
  apply playback_eq in P0. destruct P0 as (Pc & Ps & Pd).
  logs. rewrite F2, F3. cbn. splits; auto.
Qed.

Lemma onopen_started st : started (snd (onopen st)) = [].
Proof.
  unfold onopen.
  set (st0 := addLog system "NEURAL LINK ESTABLISHED." (setRobotState LISTENING st)).
  destruct (speakText_frame GREETING_TEXT st0) as (_ & F2 & _).
  destruct (speakText GREETING_TEXT st0) as [st1 a1]. cbn [snd] in *.
  logs. rewrite F2. reflexivity.
Qed.

Lemma onmessage_chain msg st :
  interrupted msg = false ->
  Forall (fun p => match p with InlineData now _ => 0 <= now | _ => True end)
         (message_parts msg) ->
  let '(st', acts) := onmessage msg st in
  chain (nextStartTimeRef st) (started acts)
  /\ nextStartTimeRef st' = chain_end (nextStartTimeRef st) (started acts)
  /\ isDeafened st' = isDeafened st
  /\ stopped acts = []
  /\ Forall (fun n => 0 <= node_clock n) (started acts).
Proof.
  intros Hi Hp. unfold onmessage.
  destruct (isDeafened st) eqn:Hd; [simpl; auto 10|].
  set (st1 := if turnComplete msg then flushTurn (accumulate msg st) else accumulate msg st).
  assert (P1 : playback st1 = playback st).
  { unfold st1. destruct (turnComplete msg);
      rewrite ?playback_flushTurn, playback_accumulate; reflexivity. }
  assert (H2 : exists st2 a2,
             match toolCall msg with
             | Some calls => handleToolCall calls st1
             | None => (st1, [])
             end = (st2, a2)
             /\ playback st2 = playback st /\ started a2 = [] /\ stopped a2 = []).
  { destruct (toolCall msg) as [calls|].
    - pose proof (handleToolCall_frame calls st1) as (F1 & F2 & F3 & _).
      destruct (handleToolCall calls st1) as [st2 a2]. simpl in *.
      exists st2, a2. splits; auto; congruence.
    - exists st1, []. auto. }
  destruct H2 as (st2 & a2 & -> & P2 & S2 & T2).
  apply playback_eq in P2. destruct P2 as (Pc & Ps & Pd).
  unfold message_parts in Hp.
  destruct (modelTurn msg) as [parts|].
  - pose proof (playParts_chain parts st2 Hp) as H3.
    destruct (playParts parts st2) as [[st3 a3] ok].
    rewrite Hi, andb_false_r. logs. rewrite S2, T2. simpl.
    rewrite Pc, Pd, Hd in H3. exact H3.
  - simpl. rewrite Hi. simpl. logs. rewrite S2, T2. simpl.
    splits; auto; congruence.
Qed.

Lemma toggleDeafened_frame st :
  nextStartTimeRef (fst (toggleDeafened st)) = nextStartTimeRef st
  /\ started (snd (toggleDeafened st)) = [].
Proof.
  unfold toggleDeafened, useEffect_isDeafened; simpl.
  destruct (negb (isDeafened st)); simpl; logs; auto.
Qed.

Lemma step_chain ev st :
  quiet ev ->
  let '(st', acts) := step ev st in
  chain (nextStartTimeRef st) (started acts)
  /\ nextStartTimeRef st' = chain_end (nextStartTimeRef st) (started acts)
  /\ Forall (fun n => 0 <= node_clock n) (started acts).
Proof.
  intros Hq. destruct ev as [|now d|msg|id|inputData| |]; cbn [step].
  - pose proof (onopen_chain st) as H.
    destruct (onopen st) as [st' acts]. destruct H as (H1 & H2 & _ & _ & H5); auto.
  - cbn [quiet] in Hq. pose proof (speakText_resolved_chain GREETING_TEXT now d st Hq) as H.
    destruct (speakText_resolved GREETING_TEXT now d st) as [st' acts].
    destruct H as (H1 & H2 & _ & _ & H5); auto.
  - destruct Hq as [Hi Hp]. pose proof (onmessage_chain msg st Hi Hp) as H.
    destruct (onmessage msg st) as [st' acts]. destruct H as (H1 & H2 & _ & _ & H5); auto.
  - destruct (onended_cursor id st) as (H1 & _). simpl. auto.
  - pose proof (onaudioprocess_frame inputData st) as (H1 & H2 & _).
    destruct (onaudioprocess inputData st) as [st' acts]. simpl in *.
    apply playback_eq in H1. destruct H1 as (Pc & _ & _). rewrite H2. simpl. auto.
  - simpl. auto.
  - pose proof (toggleDeafened_frame st) as (H1 & H2).
    destruct (toggleDeafened st) as [st' acts]. simpl in *. rewrite H2. simpl. auto.
Qed.

Lemma run_chain evs st :
  Forall quiet evs ->
  let '(st', acts) := run evs st in
  chain (nextStartTimeRef st) (started acts)
  /\ nextStartTimeRef st' = chain_end (nextStartTimeRef st) (started acts)
  /\ Forall (fun n => 0 <= node_clock n) (started acts).
Proof.
  revert st. induction evs as [|ev rest IH]; intros st Hq; cbn [run].
  { simpl. auto. }
  inversion Hq as [|? ? Hev Hrest]; subst.
  pose proof (step_chain ev st Hev) as H1.
  destruct (step ev st) as [st1 a1].
  specialize (IH st1 Hrest). destruct (run rest st1) as [st2 a2].
  destruct H1 as (C1 & E1 & K1). destruct IH as (C2 & E2 & K2).
  logs. rewrite chain_app, chain_end_app, <- E1. splits; auto.
  apply Forall_app; auto.
Qed.

End FactsA.

(** ** Variant B: the cursor and the output clock *)

Module FactsB.
Import VariantB TraceB.

Lemma playback_eqB st st' :
  playback st' = playback st ->
  nextStartTimeRef st' = nextStartTimeRef st /\ sourcesRef st' = sourcesRef st.
Proof. unfold playback. intros H. inversion H. auto. Qed.

Lemma tracks_frame e clock st st' :
  playback st' = playback st -> tracks e clock st -> tracks e clock st'.
Proof. intros H. apply playback_eqB in H as [Hc Hs]. unfold tracks. rewrite Hc. auto. Qed.

Lemma anchored_frame clock st st' :
  playback st' = playback st -> anchored clock st -> anchored clock st'.
Proof. intros H. apply playback_eqB in H as [Hc Hs]. unfold anchored. rewrite Hc, Hs. auto. Qed.

Lemma playback_sync st : playback (useEffect_sync st) = playback st.
Proof. reflexivity. Qed.

Lemma playback_accumulateB msg st : playback (accumulate msg st) = playback st.
Proof.
  unfold accumulate.
  destruct (inputTranscription msg), (outputTranscription msg); reflexivity.
Qed.

Lemma playback_flushTurnB st : playback (flushTurn st) = playback st.
Proof.
  unfold flushTurn.
  destruct (String.eqb (currentInputRef st) "" && String.eqb (currentOutputRef st) "");
    reflexivity.
Qed.

Lemma handleFunctionCall_frame fc st :
  playback (fst (handleFunctionCall fc st)) = playback st
  /\ started (snd (handleFunctionCall fc st)) = []
  /\ stopped (snd (handleFunctionCall fc st)) = []
  /\ timers (snd (handleFunctionCall fc st)) = [].
Proof.
  unfold handleFunctionCall.
  destruct (String.eqb (fc_name fc) update_sparky_mood);
    destruct (String.eqb (fc_name fc) report_faces); simpl; auto.
Qed.

Lemma handleToolCall_frameB calls st :
  playback (fst (handleToolCall calls st)) = playback st
  /\ started (snd (handleToolCall calls st)) = []
  /\ stopped (snd (handleToolCall calls st)) = []
  /\ timers (snd (handleToolCall calls st)) = [].
Proof.
  revert st. induction calls as [|fc rest IH]; intros st; cbn [handleToolCall].
  { simpl. auto. }
  pose proof (handleFunctionCall_frame fc st) as (F1 & F2 & F3 & F4).
  destruct (handleFunctionCall fc st) as [st1 a1].
  specialize (IH st1) as (G1 & G2 & G3 & G4).
  destruct (handleToolCall rest st1) as [st2 a2]. simpl in *.
  logs. rewrite F2, F3, F4, G2, G3, G4, G1, F1. auto.
Qed.

Lemma anchor_spec now st clock e :
  clock <= now -> tracks e clock st -> anchored clock st ->
  nextStartTimeRef (anchor now st) = Z.max e now
  /\ sourcesRef (anchor now st) = sourcesRef st
  /\ nextNodeId (anchor now st) = nextNodeId st
  /\ robotStateRef (anchor now st) = robotStateRef st
  /\ nextStartTimeRef st <= nextStartTimeRef (anchor now st)
  /\ anchored now (anchor now st).
Proof.
  intros Hc [Ht1 Ht2] Ha. unfold anchor, anchored in *.
  destruct (sourcesRef st) as [|s0 l] eqn:Es.
  - simpl. rewrite Es.
    assert (nextStartTimeRef st <= clock).
    { destruct Ha as [Ha|[s [[] _]]]. exact Ha. }
    splits; auto; try lia.
  - destruct (Z.ltb_spec (nextStartTimeRef st) now) as [Hlt|Hge]; simpl; rewrite Es.
    + splits; auto; try lia.
    + splits; auto; try lia.
      destruct (Z.eq_dec (nextStartTimeRef st) now) as [Heq|Hne]; [left; lia|].
      right. destruct Ha as [Ha|Ha]; [lia|exact Ha].
Qed.

Lemma playPart_inv now decoded st clock e :
  clock <= now ->
  match decoded with Some d => 0 <= d | None => True end ->
  tracks e clock st -> anchored clock st ->
  let '(st', acts) := playPart now decoded st in
  chain e (started acts)
  /\ tracks (chain_end e (started acts)) now st'
  /\ anchored now st'
  /\ nextStartTimeRef st <= nextStartTimeRef st'
  /\ stopped acts = []
  /\ Forall (fun n => clock <= node_clock n) (started acts).
Proof.
  intros Hc Hd Ht Ha. unfold playPart.
  pose proof (anchor_spec now st clock e Hc Ht Ha) as (A1 & A2 & A3 & A4 & A5 & A6).
  set (a0 := if RobotState_eqb (robotStateRef st) SPEAKING then []
             else [PlayUISound UISpeech]).
  assert (S0 : started a0 = [] /\ stopped a0 = []).
  { unfold a0. destruct (RobotState_eqb (robotStateRef st) SPEAKING); auto. }
  destruct S0 as [S0 S0'].
  destruct decoded as [d|].
  - unfold playBuffer. cbn [fst snd]. logs. rewrite S0, S0'. simpl.
    unfold node_end, tracks, anchored; simpl. rewrite A1.
    splits; auto; try lia.
    right. eexists. split; [apply in_or_app; right; left; reflexivity|].
    reflexivity.
  - rewrite S0, S0'. simpl. unfold tracks. rewrite A1.
    destruct Ht as [Ht1 Ht2]. splits; auto; try lia.
Qed.

Lemma playParts_inv parts st clock e :
  parts_physical clock parts ->
  tracks e clock st -> anchored clock st ->
  let '(st', acts) := playParts parts st in
  chain e (started acts)
  /\ tracks (chain_end e (started acts)) (parts_clock clock parts) st'
  /\ anchored (parts_clock clock parts) st'
  /\ nextStartTimeRef st <= nextStartTimeRef st'
  /\ clock <= parts_clock clock parts
  /\ stopped acts = []
  /\ Forall (fun n => clock <= node_clock n) (started acts).
Proof.
  revert st clock e. induction parts as [|p rest IH]; intros st clock e Hp Ht Ha;
    cbn [playParts parts_clock].
  { simpl. split; [exact I|]. split; [exact Ht|]. split; [exact Ha|].
    splits; auto; lia. }
  destruct p as [|now decoded]; simpl in Hp.
  - apply IH; auto.
  - destruct Hp as (Hnow & Hd & Hrest).
    pose proof (playPart_inv now decoded st clock e Hnow Hd Ht Ha) as H1.
    destruct (playPart now decoded st) as [st1 a1].
    destruct H1 as (C1 & T1 & A1 & M1 & S1 & K1).
    specialize (IH st1 now _ Hrest T1 A1).
    destruct (playParts rest st1) as [st2 a2].
    destruct IH as (C2 & T2 & A2 & M2 & L2 & S2 & K2).
    logs. rewrite chain_app, chain_end_app, S1, S2.
    splits; auto; try lia.
    apply Forall_app. split; auto.
    eapply Forall_impl; [|exact K2]. simpl. intros n Hn. lia.
Qed.

Lemma onended_inv now id st clock e :
  clock <= now ->
  (forall s, In s (sourcesRef st) -> node_id s = id -> node_end s <= now) ->
  tracks e clock st -> anchored clock st ->
  nextStartTimeRef (onended id st) = nextStartTimeRef st
  /\ tracks e now (onended id st)
  /\ anchored now (onended id st).
Proof.
  intros Hc Hend [Ht1 Ht2] Ha.
  assert (Hcur : nextStartTimeRef (onended id st) = nextStartTimeRef st
                 /\ sourcesRef (onended id st) = delete id (sourcesRef st)).
  { unfold onended; simpl. destruct (delete id (sourcesRef st)); simpl; auto. }
  destruct Hcur as [Hcur Hsrc]. unfold tracks, anchored. rewrite Hcur, Hsrc.
  splits; auto; try lia.
  destruct Ha as [Ha|[s [Hin Hs]]]; [left; lia|].
  destruct (Nat.eqb (node_id s) id) eqn:E.
  - apply Nat.eqb_eq in E. left. rewrite <- Hs. apply Hend; auto.
  - right. exists s. split; auto. unfold delete. apply filter_In. rewrite E. auto.
Qed.

Lemma onmessage_inv msg st clock e :
  0 <= clock ->
  parts_physical clock (message_parts msg) ->
  tracks e clock st -> anchored clock st ->
  let '(st', acts) := onmessage msg st in
  let clock' := parts_clock clock (message_parts msg) in
  clock <= clock'
  /\ anchored clock' st'
  /\ (nextStartTimeRef st <= nextStartTimeRef st'
      \/ (interrupted msg = true /\ nextStartTimeRef st' = 0))
  /\ (interrupted msg = false ->
      chain e (started acts)
      /\ tracks (chain_end e (started acts)) clock' st'
      /\ Forall (fun n => clock <= node_clock n) (started acts)).
Proof.
  intros H0 Hp Ht Ha. unfold onmessage.
  assert (H1 : exists st1 a1,
             match toolCall msg with
             | Some calls => handleToolCall calls st
             | None => (st, [])
             end = (st1, a1)
             /\ playback st1 = playback st /\ started a1 = []).
  { destruct (toolCall msg) as [calls|].
    - pose proof (handleToolCall_frameB calls st) as (F1 & F2 & _).
      destruct (handleToolCall calls st) as [st1 a1]. simpl in *.
      exists st1, a1. auto.
    - exists st, []. auto. }
  destruct H1 as (st1 & a1 & -> & P1 & S1).
  pose proof (tracks_frame e clock st st1 P1 Ht) as Ht1.
  pose proof (anchored_frame clock st st1 P1 Ha) as Ha1.
  apply playback_eqB in P1 as [Pc Ps].
  assert (H2 : exists st2 a2,
             match modelTurn msg with
             | Some parts => playParts parts st1
             | None => (st1, [])
             end = (st2, a2)
             /\ chain e (started a2)
             /\ tracks (chain_end e (started a2)) (parts_clock clock (message_parts msg)) st2
             /\ anchored (parts_clock clock (message_parts msg)) st2
             /\ nextStartTimeRef st1 <= nextStartTimeRef st2
             /\ clock <= parts_clock clock (message_parts msg)
             /\ Forall (fun n => clock <= node_clock n) (started a2)).
  { unfold message_parts in *. destruct (modelTurn msg) as [parts|].
    - pose proof (playParts_inv parts st1 clock e Hp Ht1 Ha1) as H.
      destruct (playParts parts st1) as [st2 a2]. exists st2, a2.
      destruct H as (C & T & A & M & L & _ & K). auto 10.
    - exists st1, []. simpl. splits; auto; lia. }
  destruct H2 as (st2 & a2 & -> & C2 & T2 & A2 & M2 & L2 & K2).
  set (clock' := parts_clock clock (message_parts msg)) in *.
  destruct (interrupted msg) eqn:Hi.
  - unfold interrupt. cbn [fst snd].
    set (st4 := accumulate msg _).
    set (st5 := if turnComplete msg then flushTurn st4 else st4).
    assert (P5 : playback st5 = (0, [])).
    { unfold st5. destruct (turnComplete msg);
        rewrite ?playback_flushTurnB; unfold st4; rewrite playback_accumulateB;
        reflexivity. }
    unfold playback in P5. inversion P5 as [[Hc5 Hs5]].
    cbv zeta. splits; auto.
    + unfold anchored. rewrite Hc5. left. lia.
    + intros Habs. discriminate Habs.
  - set (st4 := accumulate msg st2).
    set (st5 := if turnComplete msg then flushTurn st4 else st4).
    assert (P5 : playback st5 = playback st2).
    { unfold st5. destruct (turnComplete msg);
        rewrite ?playback_flushTurnB; unfold st4; rewrite playback_accumulateB;
        reflexivity. }
    pose proof (tracks_frame _ _ _ _ P5 T2) as T5.
    pose proof (anchored_frame _ _ _ P5 A2) as A5.
    apply playback_eqB in P5 as [Pc5 Ps5].
    cbv zeta. logs. rewrite S1. simpl. splits; auto.
    left. lia.
Qed.

Lemma step_inv ev st clock e :
  0 <= clock ->
  event_physical clock st ev ->
  tracks e clock st -> anchored clock st ->
  let '(st', acts) := step ev st in
  let clock' := clock_after clock ev in
  clock <= clock'
  /\ anchored clock' st'
  /\ (nextStartTimeRef st <= nextStartTimeRef st'
      \/ (isReset ev = true /\ nextStartTimeRef st' = 0))
  /\ (isReset ev = false ->
      chain e (started acts)
      /\ tracks (chain_end e (started acts)) clock' st'
      /\ Forall (fun n => clock <= node_clock n) (started acts)).
Proof.
  intros H0 Hp Ht Ha.
  destruct ev as [msg|now id|inputData|txt thrown|]; cbn [step clock_after isReset].
  - cbn [event_physical] in Hp.
    pose proof (onmessage_inv msg st clock e H0 Hp Ht Ha) as H.
    destruct (onmessage msg st) as [st' acts]. cbv zeta in *.
    destruct H as (L & A & M & C). splits; auto.
  - destruct Hp as [Hc Hend].
    pose proof (onended_inv now id st clock e Hc Hend Ht Ha) as (E1 & E2 & E3).
    cbv zeta. simpl. splits; auto. left. lia.
  - assert (P : playback (fst (onaudioprocess inputData st)) = playback st
                /\ started (snd (onaudioprocess inputData st)) = []).
    { unfold onaudioprocess.
      destruct (RobotState_eqb (robotStateRef st) IDLE); [auto|].
      destruct (RobotState_eqb (robotStateRef st) LISTENING); auto. }
    destruct (onaudioprocess inputData st) as [st' acts]. simpl in P.
    destruct P as [P S]. cbv zeta. rewrite S.
    pose proof (tracks_frame e clock st st' P Ht) as T'.
    pose proof (anchored_frame clock st st' P Ha) as A'.
    apply playback_eqB in P as [Pc Ps]. simpl. splits; auto; try lia.
  - assert (P : playback (fst (handleSendMessage txt thrown st)) = playback st
                /\ started (snd (handleSendMessage txt thrown st)) = []).
    { unfold handleSendMessage. destruct (sessionRef st); [destruct thrown|]; auto. }
    destruct (handleSendMessage txt thrown st) as [st' acts]. simpl in P.
    destruct P as [P S]. cbv zeta. rewrite S.
    pose proof (tracks_frame e clock st st' P Ht) as T'.
    pose proof (anchored_frame clock st st' P Ha) as A'.
    apply playback_eqB in P as [Pc Ps]. simpl. splits; auto; try lia.
  - pose proof (tracks_frame e clock st _ (playback_sync st) Ht) as T'.
    pose proof (anchored_frame clock st _ (playback_sync st) Ha) as A'.
    cbv zeta. cbn [started flat_map chain chain_end].
    change (nextStartTimeRef (useEffect_sync st)) with (nextStartTimeRef st).
    splits; auto; try lia.
Qed.

End FactsB.

(** ** Runs *)

Module RunsB.
Import VariantB TraceB FactsB.

Lemma tracks_refl clock st : tracks (nextStartTimeRef st) clock st.
Proof. unfold tracks. split; [lia | left; reflexivity]. Qed.

Lemma run_chainB evs st clock e :
  0 <= clock -> physical clock st evs -> quiet evs ->
  tracks e clock st -> anchored clock st ->
  chain e (started (snd (run evs st)))
  /\ Forall (fun n => clock <= node_clock n) (started (snd (run evs st))).
Proof.
  revert st clock e. induction evs as [|ev rest IH]; intros st clock e H0 Hp Hq Ht Ha;
    cbn [run].
  { simpl. auto. }
  destruct Hp as [Hev Hrest]. inversion Hq as [|? ? Qev Qrest]; subst.
  pose proof (step_inv ev st clock e H0 Hev Ht Ha) as H1.
  destruct (step ev st) as [st1 a1]. cbv zeta in H1. cbn [fst] in Hrest.
  destruct H1 as (L1 & A1 & _ & C1). destruct (C1 Qev) as (C1a & C1b & C1c).
  assert (H0' : 0 <= clock_after clock ev) by lia.
  specialize (IH st1 _ _ H0' Hrest Qrest C1b A1).
  destruct (run rest st1) as [st2 a2]. cbn [snd] in *.
  destruct IH as [C2 K2]. logs. rewrite chain_app. splits; auto.
  apply Forall_app. split; auto.
  eapply Forall_impl; [|exact K2]. simpl. intros n Hn. lia.
Qed.

Lemma run_monotoneB evs st clock :
  0 <= clock -> physical clock st evs -> anchored clock st ->
  Forall (fun '(ev, c, c') => c <= c' \/ (isReset ev = true /\ c' = 0))
         (cursor_log evs st).
Proof.
  revert st clock. induction evs as [|ev rest IH]; intros st clock H0 Hp Ha;
    cbn [cursor_log].
  { constructor. }
  destruct Hp as [Hev Hrest].
  pose proof (step_inv ev st clock _ H0 Hev (tracks_refl clock st) Ha) as H1.
  destruct (step ev st) as [st1 a1]. cbv zeta in H1. cbn [fst] in *.
  destruct H1 as (L1 & A1 & M1 & _).
  constructor; [exact M1|].
  apply (IH st1 (clock_after clock ev)); auto. lia.
Qed.

End RunsB.

Module RunsA.
Import VariantA TraceA FactsA.

Lemma playBuffer_mono now d st :
  0 <= d -> nextStartTimeRef st <= nextStartTimeRef (fst (playBuffer now d st)).
Proof. intros Hd. unfold playBuffer; simpl. lia. Qed.

Lemma playParts_mono parts st :
  Forall (fun p => match p with InlineData _ (Some d) => 0 <= d | _ => True end) parts ->
  nextStartTimeRef st <= nextStartTimeRef (fst (fst (playParts parts st))).
Proof.
  revert st. induction parts as [|p rest IH]; intros st Hs; cbn [playParts].
  { simpl. lia. }
  inversion Hs as [|? ? Hp Hrest]; subst.
  destruct p as [|now [d|]]; [apply IH; auto| |simpl; lia].
  pose proof (playBuffer_mono now d st Hp) as H1.
  destruct (playBuffer now d st) as [st1 a1]. cbn [fst] in H1.
  specialize (IH st1 Hrest). destruct (playParts rest st1) as [[st2 a2] ok].
  cbn [fst] in *. lia.
Qed.

Lemma onmessage_mono msg st :
  sane (Message msg) ->
  nextStartTimeRef st <= nextStartTimeRef (fst (onmessage msg st))
  \/ (interrupted msg = true /\ nextStartTimeRef (fst (onmessage msg st)) = 0).
Proof.
  intros Hs. unfold onmessage.
  destruct (isDeafened st) eqn:Hd; [left; simpl; lia|].
  set (st1 := if turnComplete msg then flushTurn (accumulate msg st) else accumulate msg st).
  assert (P1 : playback st1 = playback st).
  { unfold st1. destruct (turnComplete msg);
      rewrite ?playback_flushTurn, playback_accumulate; reflexivity. }
  assert (H2 : exists st2 a2,
             match toolCall msg with
             | Some calls => handleToolCall calls st1
             | None => (st1, [])
             end = (st2, a2) /\ playback st2 = playback st).
  { destruct (toolCall msg) as [calls|].
    - pose proof (handleToolCall_frame calls st1) as (F1 & _).
      destruct (handleToolCall calls st1) as [st2 a2]. simpl in *.
      exists st2, a2. split; auto. congruence.
    - exists st1, []. auto. }
  destruct H2 as (st2 & a2 & -> & P2).
  apply playback_eq in P2 as (Pc & _ & _).
  assert (H3 : exists st3 a3 ok,
             match modelTurn msg with
             | Some parts => playParts parts st2
             | None => (st2, [], true)
             end = (st3, a3, ok) /\ nextStartTimeRef st2 <= nextStartTimeRef st3).
  { cbn [sane] in Hs. unfold message_parts in Hs.
    destruct (modelTurn msg) as [parts|].
    - pose proof (playParts_mono parts st2 Hs) as H.
      destruct (playParts parts st2) as [[st3 a3] ok]. exists st3, a3, ok. auto.
    - exists st2, [], true. split; auto. lia. }
  destruct H3 as (st3 & a3 & ok & -> & M3).
  destruct (ok && interrupted msg) eqn:E.
  - apply andb_true_iff in E as [_ Hi]. right. split; auto.
  - left. cbn [fst]. lia.
Qed.

Lemma step_mono ev st :
  sane ev ->
  nextStartTimeRef st <= nextStartTimeRef (fst (step ev st))
  \/ (isReset ev = true /\ nextStartTimeRef (fst (step ev st)) = 0).
Proof.
  intros Hs. destruct ev as [|now d|msg|id|inputData| |]; cbn [step isReset].
  - left. pose proof (onopen_chain st) as H. pose proof (onopen_started st) as S.
    destruct (onopen st) as [st1 a1]. destruct H as (_ & H & _ & _).
    cbn [fst snd] in *. rewrite S in H. cbn in H. lia.
  - left. unfold speakText_resolved.
    cbn [sane] in Hs. pose proof (playBuffer_mono now d st Hs) as H.
    destruct (playBuffer now d st) as [st1 a1]. cbn [fst] in *.
    pose proof (playback_addLog robot GREETING_TEXT st1) as Hl.
    apply playback_eq in Hl as (Hl & _ & _). lia.
  - apply onmessage_mono. exact Hs.
  - left. destruct (onended_cursor id st) as (H & _). cbn [fst]. lia.
  - left. pose proof (onaudioprocess_frame inputData st) as (H & _).
    apply playback_eq in H as (H & _ & _). lia.
  - left. simpl. lia.
  - left. destruct (toggleDeafened_frame st) as (H & _). lia.
Qed.

Lemma run_monotone evs st :
  Forall sane evs ->
  Forall (fun '(ev, c, c') => c <= c' \/ (isReset ev = true /\ c' = 0))
         (cursor_log evs st).
Proof.
  revert st. induction evs as [|ev rest IH]; intros st Hs; cbn [cursor_log].
  { constructor. }
  inversion Hs as [|? ? Hev Hrest]; subst.
  constructor; [apply step_mono; exact Hev | apply IH; exact Hrest].
Qed.

(** While the flag is set no inbound event schedules anything, and no
    greeting is requested. *)
Lemma step_deafened ev st :
  isDeafened st = true -> sourcesRef st = [] -> inbound ev = true ->
  isDeafened (fst (step ev st)) = true
  /\ sourcesRef (fst (step ev st)) = []
  /\ started (snd (step ev st)) = []
  /\ requested (snd (step ev st)) = []
  /\ nextStartTimeRef (fst (step ev st)) = nextStartTimeRef st.
Proof.
  intros Hd Hs Hk. destruct ev as [|now d|msg|id|inputData| |]; cbn [step].
  - unfold onopen, speakText.
    set (st0 := addLog system "NEURAL LINK ESTABLISHED." (setRobotState LISTENING st)).
    assert (P0 : playback st0 = playback st).
    { unfold st0. rewrite playback_addLog. reflexivity. }
    apply playback_eq in P0 as (Pc & Ps & Pd).
    rewrite Pd, Hd, orb_true_r. cbn [fst snd]. rewrite Ps, Pd, Pc. auto.
  - discriminate Hk.
  - unfold onmessage. rewrite Hd. auto.
  - destruct (onended_cursor id st) as (H0 & H1 & H2). cbn [fst snd].
    rewrite H0, H1, H2, Hs. auto.
  - pose proof (onaudioprocess_frame inputData st) as (H1 & H2 & _).
    apply playback_eq in H1 as (Pc & Ps & Pd). rewrite Ps, Pd, Pc.
    splits; auto. unfold onaudioprocess. split_ifs; reflexivity.
  - simpl. auto.
  - discriminate Hk.
Qed.

Lemma requested_app (a b : list Action) :
  requested (a ++ b) = requested a ++ requested b.
Proof. unfold requested. apply flat_map_app. Qed.

Lemma run_deafened evs st :
  isDeafened st = true -> sourcesRef st = [] ->
  forallb inbound evs = true ->
  isDeafened (fst (run evs st)) = true
  /\ sourcesRef (fst (run evs st)) = []
  /\ started (snd (run evs st)) = []
  /\ requested (snd (run evs st)) = []
  /\ nextStartTimeRef (fst (run evs st)) = nextStartTimeRef st.
Proof.
  revert st. induction evs as [|ev rest IH]; intros st Hd Hs Hk; cbn [run].
  { simpl. auto. }
  cbn [forallb] in Hk. apply andb_true_iff in Hk as [Hk1 Hk2].
  pose proof (step_deafened ev st Hd Hs Hk1) as (D1 & S1 & T1 & R1 & C1).
  destruct (step ev st) as [st1 a1]. cbn [fst snd] in *.
  specialize (IH st1 D1 S1 Hk2) as (D2 & S2 & T2 & R2 & C2).
  destruct (run rest st1) as [st2 a2]. cbn [fst snd] in *.
  logs. rewrite requested_app, T1, T2, R1, R2, C2, C1. auto.
Qed.

End RunsA.

(** ** Error messages built from a close code *)

Lemma string_of_uint_digits (d : Decimal.uint) :
  all_digits (NilEmpty.string_of_uint d) = true.
Proof. induction d; simpl; auto. Qed.

Lemma string_of_nat_digits (n : nat) : all_digits (string_of_nat n) = true.
Proof.
  unfold string_of_nat, NilZero.string_of_uint.
  destruct (Nat.to_uint n) eqn:E; try reflexivity;
    rewrite <- E; apply string_of_uint_digits.
Qed.

Lemma includes_digits (c : ascii) (pat ds : string) :
  is_digit c = false -> all_digits ds = true -> includes ds (String c pat) = false.
Proof.
  intros Hc. induction ds as [|b ds IH]; intros Hd; simpl.
  - reflexivity.
  - simpl in Hd. apply andb_true_iff in Hd as [Hb Hds].
    destruct (ascii_dec c b) as [->|Hne]; [congruence|]. apply IH. exact Hds.
Qed.

Lemma classify_link_severed (code : nat) :
  VariantA.classify {| name := "Error";
                       message := ("Link severed: " ++ string_of_nat code)%string |}
  = ("An unexpected error occurred.", warning).
Proof.
  pose proof (string_of_nat_digits code) as Hd.
  unfold VariantA.classify. cbn [message name].
  assert (H1 : includes ("Link severed: " ++ string_of_nat code)
                        "Operation is not implemented" = false).
  { simpl. apply includes_digits; auto. }
  assert (H2 : includes ("Link severed: " ++ string_of_nat code) "not supported" = false).
  { simpl. apply includes_digits; auto. }
  assert (H3 : includes ("Link severed: " ++ string_of_nat code) "API_KEY" = false).
  { simpl. apply includes_digits; auto. }
  rewrite H1, H2, H3. reflexivity.
Qed.


(** ** Properties of the engine *)

Section Deafen.
Import VariantA TraceA.

(** C10.  While the deafened flag is set, [onmessage] of variant A returns
    at once: whatever the message carries (transcripts, a turn completion,
    tool calls, audio, an interruption), the state is the state before, so
    accumulators, log, mood, in-flight set and cursor are unchanged, and
    nothing is sent or started. *)
Theorem deafened_discards_message (msg : LiveServerMessage) (st : State) :
  isDeafened st = true -> onmessage msg st = (st, []).
Proof. intros Hd. unfold onmessage. rewrite Hd. reflexivity. Qed.

Lemma deafened_discards_message_witness :
  isDeafened Examples.A.deafened = true
  /\ onmessage Examples.busyMessage Examples.A.deafened = (Examples.A.deafened, []).
Proof.
  split; [reflexivity|].
  apply (deafened_discards_message Examples.busyMessage Examples.A.deafened).
  reflexivity.
Defined.

(** C9.  The claim holds for everything that arrives while the flag is
    set, and fails for a greeting that was requested before.  Switching the
    deafen flag on (variant A) stops every source in flight, empties the
    in-flight set, sets the state to LISTENING and the volume to zero; as
    long as the flag is not switched again, no inbound event (message,
    opening of the link, ended source, microphone frame, mute toggle)
    starts a source, puts one in flight, moves the cursor or requests a
    greeting.  But [speakText] reads the flag only before it awaits the
    speech request: when a request issued before the flag was set resolves
    while it is set, the greeting is scheduled, a source is in flight and
    the state is SPEAKING, with the flag still set. *)
Theorem pending_greeting_plays_while_deafened (now d : time) (st : State) :
  isDeafened st = false ->
  let '(st1, a1) := step ToggleDeafened st in
  let '(st2, a2) := step (SpeechResolved now d) st1 in
  requested (snd (onopen st)) = [GREETING_TEXT]
  /\ (isDeafened st1 = true
      /\ sourcesRef st1 = []
      /\ robotState st1 = LISTENING
      /\ volume st1 = VolumeZero
      /\ stopped a1 = sourcesRef st)
  /\ (forall evs,
        forallb inbound evs = true ->
        isDeafened (fst (run evs st1)) = true
        /\ sourcesRef (fst (run evs st1)) = []
        /\ started (snd (run evs st1)) = []
        /\ requested (snd (run evs st1)) = []
        /\ nextStartTimeRef (fst (run evs st1)) = nextStartTimeRef st1)
  /\ (isDeafened st2 = true
      /\ List.length (started a2) = 1%nat
      /\ sourcesRef st2 = started a2
      /\ robotState st2 = SPEAKING).
Proof.
  intros Hd. cbn [step].
  assert (R : requested (snd (onopen st)) = [GREETING_TEXT]).
  { unfold onopen, speakText.
    change (String.eqb GREETING_TEXT "") with false. cbn [orb].
    set (s := addLog system "NEURAL LINK ESTABLISHED." (setRobotState LISTENING st)).
    assert (Ds : isDeafened s = false).
    { destruct (FactsA.playback_eq st s) as (_ & _ & D).
      - unfold s. rewrite FactsA.playback_addLog. reflexivity.
      - rewrite D. exact Hd. }
    rewrite Ds. reflexivity. }
  unfold toggleDeafened, useEffect_isDeafened.
  cbn [isDeafened setIsDeafened]. rewrite Hd. cbn [negb].
  set (st1 := setVolume VolumeZero _).
  assert (D1 : isDeafened st1 = true) by reflexivity.
  assert (S1 : sourcesRef st1 = []) by reflexivity.
  unfold speakText_resolved, playBuffer.
  split. { exact R. }
  split. { splits; try reflexivity. cbn [stopped flat_map app]. apply stopped_stops. }
  split. { intros evs Hk. apply RunsA.run_deafened; auto. }
  unfold addLog. change (String.eqb GREETING_TEXT "") with false. cbv iota.
  splits; reflexivity.
Qed.

(** The failing run: Wake Up from the first render, which opens the link
    and requests the greeting; the deafen button; then the request resolves
    at clock 4 with six frames of speech. *)
Lemma pending_greeting_plays_while_deafened_witness :
  requested (snd (fst (onClick_power [Examples.available] initial))) = [GREETING_TEXT]
  /\ isDeafened Examples.A.listening = false
  /\ (let '(st1, a1) := step ToggleDeafened Examples.A.listening in
      let '(st2, a2) := step (SpeechResolved 4 6) st1 in
      isDeafened st2 = true
      /\ List.length (started a2) = 1%nat
      /\ sourcesRef st2 = started a2
      /\ robotState st2 = SPEAKING).
Proof.
  split; [reflexivity|]. split; [reflexivity|].
  pose proof (pending_greeting_plays_while_deafened 4 6 Examples.A.listening eq_refl) as H.
  destruct (step ToggleDeafened Examples.A.listening) as [st1 a1].
  destruct (step (SpeechResolved 4 6) st1) as [st2 a2].
  destruct H as (_ & _ & _ & H). exact H.
Defined.

End Deafen.

Section Sampler.
Import VariantA.

(** C4, as the code has it.  For a microphone frame handled while the
    session is not IDLE (variant A): when the muted flag is set the input
    buffer is read, the sum of squares is not computed, the volume is set to
    zero and nothing is sent; when it is clear the sum of squares is
    computed, exactly one audio chunk carrying the frame is sent, and the
    volume is set from the frame if the state is LISTENING and left alone
    otherwise. *)
Theorem muted_frame_not_sent (inputData : list Q) (st : State) :
  robotState st <> IDLE ->
  let '(st', acts) := onaudioprocess inputData st in
  (isMuted st = true ->
     In GetChannelData acts
     /\ (forall sum n, ~ In (SumSquares sum n) acts)
     /\ volume st' = VolumeZero
     /\ sent acts = [])
  /\ (isMuted st = false ->
        In GetChannelData acts
        /\ In (SumSquares (sumSquares inputData) (List.length inputData)) acts
        /\ sent acts = [AudioPcm inputData]
        /\ volume st' = if RobotState_eqb (robotState st) LISTENING
                        then VolumeRms (sumSquares inputData) (List.length inputData)
                        else volume st).
Proof.
  intros Hs. unfold onaudioprocess.
  destruct (RobotState_eqb (robotState st) IDLE) eqn:E.
  { apply RobotState_eqb_eq in E. contradiction. }
  destruct (isMuted st); cbn [negb]; split; intros Hm; try discriminate Hm.
  - simpl. splits; auto.
    intros sum n [H|[]]. discriminate H.
  - destruct (RobotState_eqb (robotState st) LISTENING); simpl; splits; auto.
Qed.

Lemma muted_frame_not_sent_witness :
  robotState Examples.A.muted <> IDLE
  /\ isMuted Examples.A.muted = true
  /\ sent (snd (onaudioprocess Examples.frame Examples.A.muted)) = []
  /\ sent (snd (onaudioprocess Examples.frame Examples.A.listening))
     = [AudioPcm Examples.frame].
Proof.
  assert (N1 : robotState Examples.A.muted <> IDLE) by (vm_compute; discriminate).
  assert (N2 : robotState Examples.A.listening <> IDLE) by (vm_compute; discriminate).
  pose proof (muted_frame_not_sent Examples.frame Examples.A.muted N1) as H1.
  pose proof (muted_frame_not_sent Examples.frame Examples.A.listening N2) as H2.
  destruct (onaudioprocess Examples.frame Examples.A.muted) as [s1 a1].
  destruct (onaudioprocess Examples.frame Examples.A.listening) as [s2 a2].
  destruct H1 as [H1 _]. destruct H2 as [_ H2].
  destruct (H1 eq_refl) as (_ & _ & _ & M). destruct (H2 eq_refl) as (_ & _ & U & _).
  splits; auto.
Defined.

(** C4 as stated fails: on a frame handled while muted, variant A never
    runs the sum-of-squares loop.  Here the session is LISTENING and muted;
    the frame is read, the volume is zeroed, and no RMS is computed. *)
Lemma muted_frame_skips_rms :
  isMuted Examples.A.muted = true
  /\ robotState Examples.A.muted = LISTENING
  /\ snd (onaudioprocess Examples.frame Examples.A.muted) = [GetChannelData]
  /\ ~ (exists sum n,
          In (SumSquares sum n) (snd (onaudioprocess Examples.frame Examples.A.muted))).
Proof.
  splits; try reflexivity.
  intros (sum & n & H). vm_compute in H. destruct H as [H|[]]. discriminate H.
Qed.

End Sampler.

Section ToolCalls.

Lemma handleToolCall_responsesA calls st id :
  List.length (toolResponses id (snd (VariantA.handleToolCall calls st)))
  = callsWith TraceA.declared id calls.
Proof.
  revert st. unfold callsWith, TraceA.declared.
  induction calls as [|fc rest IH]; intros st; cbn [VariantA.handleToolCall filter].
  { reflexivity. }
  destruct (String.eqb (fc_name fc) VariantA.update_spark_mood).
  - specialize (IH (VariantA.setMood (arg_mood (fc_args fc)) st)).
    destruct (VariantA.handleToolCall rest (VariantA.setMood (arg_mood (fc_args fc)) st))
      as [st' acts].
    cbn [snd toolResponses filter] in *. rewrite andb_true_r.
    destruct (String.eqb (fc_id fc) id); cbn [List.length]; rewrite <- IH; reflexivity.
  - rewrite andb_false_r. apply IH.
Qed.

Lemma playBuffer_actsA now d st :
  exists n, snd (VariantA.playBuffer now d st) = [SourceStart n]
            /\ VariantA.sourcesRef (fst (VariantA.playBuffer now d st))
               = VariantA.sourcesRef st ++ [n].
Proof. eexists. split; reflexivity. Qed.

Lemma playParts_actsA parts st id :
  toolResponses id (snd (fst (VariantA.playParts parts st))) = []
  /\ stopped (snd (fst (VariantA.playParts parts st))) = []
  /\ timers (snd (fst (VariantA.playParts parts st))) = []
  /\ (forallb (fun p => match p with InlineData _ None => false | _ => true end) parts = true ->
      snd (VariantA.playParts parts st) = true
      /\ VariantA.sourcesRef (fst (fst (VariantA.playParts parts st)))
         = VariantA.sourcesRef st ++ started (snd (fst (VariantA.playParts parts st)))).
Proof.
  revert st. induction parts as [|p rest IH]; intros st; cbn [VariantA.playParts forallb].
  { simpl. rewrite app_nil_r. auto. }
  destruct p as [|now [d|]].
  - apply IH.
  - destruct (playBuffer_actsA now d st) as (n & Hn & Hs).
    destruct (VariantA.playBuffer now d st) as [st1 a1]. cbn [fst snd] in Hn, Hs. subst a1.
    specialize (IH st1) as (I1 & I2 & I3 & I4).
    destruct (VariantA.playParts rest st1) as [[st2 a2] ok]. cbn [fst snd andb] in *.
    logs. simpl. rewrite I1, I2, I3. splits; auto.
    intros Hall. destruct (I4 Hall) as [-> ->]. rewrite Hs, <- app_assoc. auto.
  - simpl. splits; auto. intros H; discriminate H.
Qed.

Lemma handleFunctionCall_responsesB fc st id :
  List.length (toolResponses id (snd (VariantB.handleFunctionCall fc st)))
  = callsWith TraceB.declared id [fc].
Proof.
  unfold VariantB.handleFunctionCall, callsWith, TraceB.declared. cbn [filter].
  destruct (String.eqb (fc_name fc) VariantB.update_sparky_mood) eqn:E1.
  - apply String.eqb_eq in E1. rewrite E1. cbn [String.eqb orb snd].
    change (String.eqb VariantB.update_sparky_mood VariantB.report_faces) with false.
    cbn [snd toolResponses filter]. rewrite andb_true_r.
    destruct (String.eqb (fc_id fc) id); reflexivity.
  - cbn [orb]. destruct (String.eqb (fc_name fc) VariantB.report_faces).
    + cbn [snd app toolResponses filter]. rewrite andb_true_r.
      destruct (String.eqb (fc_id fc) id); reflexivity.
    + rewrite andb_false_r. reflexivity.
Qed.

Lemma handleToolCall_responsesB calls st id :
  List.length (toolResponses id (snd (VariantB.handleToolCall calls st)))
  = callsWith TraceB.declared id calls.
Proof.
  revert st. induction calls as [|fc rest IH]; intros st; cbn [VariantB.handleToolCall].
  { reflexivity. }
  pose proof (handleFunctionCall_responsesB fc st id) as H1.
  destruct (VariantB.handleFunctionCall fc st) as [st1 a1].
  specialize (IH st1). destruct (VariantB.handleToolCall rest st1) as [st2 a2].
  cbn [snd] in *. logs. rewrite length_app, H1, IH.
  unfold callsWith. cbn [filter].
  destruct (String.eqb (fc_id fc) id && TraceB.declared (fc_name fc)); reflexivity.
Qed.

Lemma playParts_actsB parts st id :
  toolResponses id (snd (VariantB.playParts parts st)) = []
  /\ stopped (snd (VariantB.playParts parts st)) = []
  /\ VariantB.sourcesRef (fst (VariantB.playParts parts st))
     = VariantB.sourcesRef st ++ started (snd (VariantB.playParts parts st)).
Proof.
  revert st. induction parts as [|p rest IH]; intros st; cbn [VariantB.playParts].
  { simpl. rewrite app_nil_r. auto. }
  destruct p as [|now decoded]; [apply IH|].
  assert (H1 : toolResponses id (snd (VariantB.playPart now decoded st)) = []
               /\ stopped (snd (VariantB.playPart now decoded st)) = []
               /\ VariantB.sourcesRef (fst (VariantB.playPart now decoded st))
                  = VariantB.sourcesRef st
                    ++ started (snd (VariantB.playPart now decoded st))).
  { unfold VariantB.playPart, VariantB.playBuffer, VariantB.anchor.
    destruct (RobotState_eqb (VariantB.robotStateRef st) SPEAKING);
      destruct decoded as [d|];
      destruct (VariantB.sourcesRef st) eqn:Es;
      try destruct (VariantB.nextStartTimeRef st <? now);
      simpl; rewrite ?Es; simpl; rewrite ?app_nil_r; auto. }
  destruct (VariantB.playPart now decoded st) as [st1 a1].
  specialize (IH st1) as (I1 & I2 & I3).
  destruct (VariantB.playParts rest st1) as [st2 a2]. cbn [fst snd] in *.
  destruct H1 as (H1 & H2 & H3). logs. rewrite H1, H2, I1, I2, I3, H3, <- app_assoc. auto.
Qed.

Lemma boxes_present (faces : list (list Z)) : boxes (map Some faces) = Some faces.
Proof. induction faces as [|f rest IH]; cbn [map boxes]; [|rewrite IH]; reflexivity. Qed.

Lemma handleRawToolCall_deliveredA calls st :
  VariantA.handleRawToolCall (map delivered calls) st
  = (VariantA.handleToolCall calls st, true).
Proof.
  revert st. induction calls as [|fc rest IH]; intros st;
    cbn [map VariantA.handleRawToolCall VariantA.handleToolCall]; [reflexivity|].
  unfold VariantA.readArgs. cbn [delivered raw_name raw_args raw_id raw_mood raw_reason].
  destruct (String.eqb (fc_name fc) VariantA.update_spark_mood) eqn:E;
    cbn [VariantA.handleToolCall fc_name fc_args arg_mood fc_id]; rewrite E.
  - rewrite IH. destruct (VariantA.handleToolCall rest _) as [s1 a1]. reflexivity.
  - rewrite IH. destruct (VariantA.handleToolCall rest st) as [s1 a1]. reflexivity.
Qed.

Lemma handleFunctionCall_deliveredB fc st :
  exists args,
    VariantB.readArgs (delivered fc) = Some args
    /\ VariantB.handleFunctionCall
         {| fc_id := fc_id fc; fc_name := fc_name fc; fc_args := args |} st
       = VariantB.handleFunctionCall fc st.
Proof.
  unfold VariantB.readArgs, VariantB.handleFunctionCall.
  cbn [delivered raw_name raw_args raw_id raw_mood raw_reason raw_faces
       fc_name fc_args fc_id arg_mood arg_reason arg_faces].
  rewrite boxes_present.
  destruct (String.eqb (fc_name fc) VariantB.update_sparky_mood) eqn:E1.
  - eexists. split; [reflexivity|]. cbn [arg_mood arg_reason arg_faces].
    apply String.eqb_eq in E1. rewrite E1.
    change (String.eqb VariantB.update_sparky_mood VariantB.report_faces) with false.
    reflexivity.
  - destruct (String.eqb (fc_name fc) VariantB.report_faces) eqn:E2;
      eexists; (split; [reflexivity|]); reflexivity.
Qed.

Lemma handleRawToolCall_deliveredB calls st :
  VariantB.handleRawToolCall (map delivered calls) st
  = (VariantB.handleToolCall calls st, true).
Proof.
  revert st. induction calls as [|fc rest IH]; intros st;
    cbn [map VariantB.handleRawToolCall VariantB.handleToolCall]; [reflexivity|].
  destruct (handleFunctionCall_deliveredB fc st) as (args & R & H).
  rewrite R. change (raw_id (delivered fc)) with (fc_id fc).
  change (raw_name (delivered fc)) with (fc_name fc). rewrite H.
  destruct (VariantB.handleFunctionCall fc st) as [s1 a1]. rewrite IH.
  destruct (VariantB.handleToolCall rest s1) as [s2 a2]. reflexivity.
Qed.

Lemma handleRawToolCall_responsesA calls st id :
  List.length (toolResponses id (snd (fst (VariantA.handleRawToolCall calls st))))
  = rawCallsWith TraceA.declared id (reached VariantA.readArgs calls).
Proof.
  revert st. unfold rawCallsWith.
  induction calls as [|fc rest IH]; intros st;
    cbn [VariantA.handleRawToolCall reached]; [reflexivity|].
  destruct (VariantA.readArgs fc) as [args|]; [|reflexivity].
  pose proof (handleToolCall_responsesA
                [{| fc_id := raw_id fc; fc_name := raw_name fc; fc_args := args |}]
                st id) as H1.
  destruct (VariantA.handleToolCall _ st) as [s1 a1]. specialize (IH s1).
  destruct (VariantA.handleRawToolCall rest s1) as [[s2 a2] ok].
  cbn [fst snd] in *. logs. rewrite length_app, H1, IH.
  unfold callsWith. cbn [filter fc_id fc_name].
  destruct (String.eqb (raw_id fc) id && TraceA.declared (raw_name fc)); reflexivity.
Qed.

Lemma handleRawToolCall_responsesB calls st id :
  List.length (toolResponses id (snd (fst (VariantB.handleRawToolCall calls st))))
  = rawCallsWith TraceB.declared id (reached VariantB.readArgs calls).
Proof.
  revert st. unfold rawCallsWith.
  induction calls as [|fc rest IH]; intros st;
    cbn [VariantB.handleRawToolCall reached]; [reflexivity|].
  destruct (VariantB.readArgs fc) as [args|]; [|reflexivity].
  pose proof (handleFunctionCall_responsesB
                {| fc_id := raw_id fc; fc_name := raw_name fc; fc_args := args |}
                st id) as H1.
  destruct (VariantB.handleFunctionCall _ st) as [s1 a1]. specialize (IH s1).
  destruct (VariantB.handleRawToolCall rest s1) as [[s2 a2] ok].
  cbn [fst snd] in *. logs. rewrite length_app, H1, IH.
  unfold callsWith. cbn [filter fc_id fc_name].
  destruct (String.eqb (raw_id fc) id && TraceB.declared (raw_name fc)); reflexivity.
Qed.

Lemma whole_message_responses (msg : LiveServerMessage) (id : string) :
  (forall st,
      VariantA.isDeafened st = false ->
      List.length (toolResponses id (snd (VariantA.onmessage msg st)))
      = callsWith TraceA.declared id (message_calls msg))
  /\ (forall st,
         List.length (toolResponses id (snd (VariantB.onmessage msg st)))
         = callsWith TraceB.declared id (message_calls msg)).
Proof.
  split; intros st.
  - intros Hd. unfold VariantA.onmessage, message_calls. rewrite Hd.
    set (st1 := if turnComplete msg then _ else _).
    assert (H1 : List.length (toolResponses id (snd
                   (match toolCall msg with
                    | Some calls => VariantA.handleToolCall calls st1
                    | None => (st1, [])
                    end)))
                 = callsWith TraceA.declared id
                     (match toolCall msg with Some calls => calls | None => [] end)).
    { destruct (toolCall msg) as [calls|];
        [apply handleToolCall_responsesA | reflexivity]. }
    destruct (match toolCall msg with
              | Some calls => VariantA.handleToolCall calls st1
              | None => (st1, [])
              end) as [st2 a2].
    assert (H2 : toolResponses id (snd (fst
                   (match modelTurn msg with
                    | Some parts => VariantA.playParts parts st2
                    | None => (st2, [], true)
                    end))) = []).
    { destruct (modelTurn msg) as [parts|];
        [apply playParts_actsA | reflexivity]. }
    destruct (match modelTurn msg with
              | Some parts => VariantA.playParts parts st2
              | None => (st2, [], true)
              end) as [[st3 a3] ok].
    cbn [fst snd] in *.
    destruct (ok && interrupted msg); unfold VariantA.interrupt; cbn [fst snd];
      logs; rewrite H2, ?app_nil_r; exact H1.
  - unfold VariantB.onmessage, message_calls.
    assert (H1 : List.length (toolResponses id (snd
                   (match toolCall msg with
                    | Some calls => VariantB.handleToolCall calls st
                    | None => (st, [])
                    end)))
                 = callsWith TraceB.declared id
                     (match toolCall msg with Some calls => calls | None => [] end)).
    { destruct (toolCall msg) as [calls|];
        [apply handleToolCall_responsesB | reflexivity]. }
    destruct (match toolCall msg with
              | Some calls => VariantB.handleToolCall calls st
              | None => (st, [])
              end) as [st2 a2].
    assert (H2 : toolResponses id (snd
                   (match modelTurn msg with
                    | Some parts => VariantB.playParts parts st2
                    | None => (st2, [])
                    end)) = []).
    { destruct (modelTurn msg) as [parts|];
        [apply playParts_actsB | reflexivity]. }
    destruct (match modelTurn msg with
              | Some parts => VariantB.playParts parts st2
              | None => (st2, [])
              end) as [st3 a3].
    cbn [fst snd] in *.
    destruct (interrupted msg); unfold VariantB.interrupt; cbn [fst snd];
      logs; rewrite H2, ?app_nil_r; exact H1.
Qed.

(** C2, as the code has it.  The calls of a tool-call message are handled
    in order, as delivered, and the handler throws at the first call with a
    declared name whose arguments it cannot read ([args] absent; for a face
    report also [faces], or the [box_2d] of a face).  The responses sent
    for an id are as many as the calls carrying this id and the name of a
    declared tool among the calls before that point: one response per call
    to [update_spark_mood] in variant A (when not deafened), one per call
    to [update_sparky_mood] or [report_faces] in variant B; a call under
    any other name is passed over without a response, and so are the call
    that throws and every call after it.  When every call is delivered with
    its arguments the handler gets to all of them, and the responses are
    those of [onmessage] over the typed calls, whatever else the message
    carries. *)
Theorem declared_tool_calls_answered (id : string) :
  (forall calls st,
      VariantA.isDeafened st = false ->
      List.length (toolResponses id (snd (VariantA.onmessage_toolCall calls st)))
      = rawCallsWith TraceA.declared id (reached VariantA.readArgs calls))
  /\ (forall calls st,
         List.length (toolResponses id (snd (VariantB.onmessage_toolCall calls st)))
         = rawCallsWith TraceB.declared id (reached VariantB.readArgs calls))
  /\ (forall calls,
         reached VariantA.readArgs (map delivered calls) = map delivered calls
         /\ reached VariantB.readArgs (map delivered calls) = map delivered calls)
  /\ (forall calls st,
         VariantA.onmessage_toolCall (map delivered calls) st
         = VariantA.onmessage (ToolCall calls) st)
  /\ (forall calls st,
         VariantB.onmessage_toolCall (map delivered calls) st
         = VariantB.onmessage (ToolCall calls) st)
  /\ (forall msg st,
         VariantA.isDeafened st = false ->
         List.length (toolResponses id (snd (VariantA.onmessage msg st)))
         = callsWith TraceA.declared id (message_calls msg))
  /\ (forall msg st,
         List.length (toolResponses id (snd (VariantB.onmessage msg st)))
         = callsWith TraceB.declared id (message_calls msg)).
Proof.
  splits.
  - intros calls st Hd. unfold VariantA.onmessage_toolCall. rewrite Hd.
    pose proof (handleRawToolCall_responsesA calls st id) as H.
    destruct (VariantA.handleRawToolCall calls st) as [[s1 a1] ok]. exact H.
  - intros calls st. unfold VariantB.onmessage_toolCall.
    pose proof (handleRawToolCall_responsesB calls st id) as H.
    destruct (VariantB.handleRawToolCall calls st) as [[s1 a1] ok]. exact H.
  - induction calls as [|fc rest [IHa IHb]]; [split; reflexivity|].
    cbn [map reached]. split.
    + unfold VariantA.readArgs at 1. cbn [delivered raw_name raw_args].
      destruct (String.eqb (fc_name fc) VariantA.update_spark_mood);
        rewrite IHa; reflexivity.
    + destruct (handleFunctionCall_deliveredB fc VariantB.initial) as (args & R & _).
      rewrite R, IHb. reflexivity.
  - intros calls st.
    unfold VariantA.onmessage_toolCall, VariantA.onmessage, ToolCall.
    destruct (VariantA.isDeafened st); [reflexivity|].
    rewrite handleRawToolCall_deliveredA.
    cbn [turnComplete toolCall modelTurn interrupted].
    unfold VariantA.accumulate. cbn [outputTranscription inputTranscription].
    destruct (VariantA.handleToolCall calls st) as [s1 a1].
    cbn [andb]. rewrite app_nil_r. reflexivity.
  - intros calls st.
    unfold VariantB.onmessage_toolCall, VariantB.onmessage, ToolCall.
    rewrite handleRawToolCall_deliveredB.
    cbn [turnComplete toolCall modelTurn interrupted].
    destruct (VariantB.handleToolCall calls st) as [s1 a1].
    unfold VariantB.accumulate. cbn [outputTranscription inputTranscription].
    rewrite !app_nil_r. reflexivity.
  - intros msg st. apply (proj1 (whole_message_responses msg id)).
  - intros msg st. apply (proj2 (whole_message_responses msg id)).
Qed.

(** Three calls to the mood tool, the second delivered without [args]:
    the first is answered, the second and the third are not. *)
Lemma declared_tool_calls_answered_witness :
  let calls := [Examples.rawMoodCall "a" "update_spark_mood" true;
                Examples.rawMoodCall "b" "update_spark_mood" false;
                Examples.rawMoodCall "c" "update_spark_mood" true] in
  VariantA.isDeafened Examples.A.listening = false
  /\ List.length (toolResponses "a"
        (snd (VariantA.onmessage_toolCall calls Examples.A.listening)))
     = rawCallsWith TraceA.declared "a" (reached VariantA.readArgs calls)
  /\ rawCallsWith TraceA.declared "a" (reached VariantA.readArgs calls) = 1%nat
  /\ rawCallsWith TraceA.declared "c" (reached VariantA.readArgs calls) = 0%nat.
Proof.
  intros calls. split; [reflexivity|]. split.
  - apply (proj1 (declared_tool_calls_answered "a") calls Examples.A.listening).
    reflexivity.
  - split; reflexivity.
Defined.

(** C2 as stated fails, in either variant: a call to a tool the engine
    does not know is never answered; and a call to a declared tool that is
    delivered without its arguments is not answered either, nor is a
    well-formed call that follows it in the same message. *)
Lemma tool_calls_left_unanswered :
  (message_calls Examples.unknownCall
   = [{| fc_id := "call-1"; fc_name := "set_alarm";
         fc_args := {| arg_mood := happy; arg_reason := ""; arg_faces := [] |} |}]
   /\ VariantA.isDeafened Examples.A.listening = false
   /\ snd (VariantA.onmessage Examples.unknownCall Examples.A.listening) = []
   /\ snd (VariantB.onmessage Examples.unknownCall Examples.B.listening) = [])
  /\ (snd (VariantA.onmessage_toolCall
             [Examples.rawMoodCall "b" "update_spark_mood" false;
              Examples.rawMoodCall "c" "update_spark_mood" true]
             Examples.A.listening) = []
      /\ snd (VariantB.onmessage_toolCall
                [Examples.rawMoodCall "b" "update_sparky_mood" false;
                 Examples.rawMoodCall "c" "update_sparky_mood" true]
                Examples.B.listening) = []
      /\ snd (VariantB.onmessage_toolCall
                [Examples.brokenFaceReport "f";
                 Examples.rawMoodCall "c" "update_sparky_mood" true]
                Examples.B.listening) = []).
Proof. splits; reflexivity. Qed.

End ToolCalls.

Section Interruption.

Lemma allDecoded_parts msg :
  allDecoded msg = true ->
  match modelTurn msg with
  | Some parts =>
      forallb (fun p => match p with InlineData _ None => false | _ => true end) parts = true
  | None => True
  end.
Proof. unfold allDecoded, message_parts. destruct (modelTurn msg); auto. Qed.

(** C3, as the code has it.  When a message flagged [interrupted] is
    handled -- in variant A provided the deafened flag is clear and every
    audio part of that message decoded -- then within that step every source
    that was in flight and every source the message itself started is
    stopped, the in-flight set is empty, the cursor is zero, the state is
    LISTENING and the volume zero. *)
Theorem interrupted_clears_playback (msg : LiveServerMessage) :
  interrupted msg = true ->
  (forall st,
      VariantA.isDeafened st = false -> allDecoded msg = true ->
      let '(st', acts) := VariantA.onmessage msg st in
      stopped acts = VariantA.sourcesRef st ++ started acts
      /\ VariantA.sourcesRef st' = []
      /\ VariantA.nextStartTimeRef st' = 0
      /\ VariantA.robotState st' = LISTENING
      /\ VariantA.volume st' = VolumeZero)
  /\ (forall st,
         let '(st', acts) := VariantB.step (VariantB.Message msg) st in
         stopped acts = VariantB.sourcesRef st ++ started acts
         /\ VariantB.sourcesRef st' = []
         /\ VariantB.nextStartTimeRef st' = 0
         /\ VariantB.robotState st' = LISTENING
         /\ VariantB.volume st' = VolumeZero).
Proof.
  intros Hi. split; intros st.
  - intros Hd Hall. apply allDecoded_parts in Hall.
    unfold VariantA.onmessage. rewrite Hd, Hi.
    set (st1 := if turnComplete msg then _ else _).
    assert (P1 : TraceA.playback st1 = TraceA.playback st).
    { unfold st1. destruct (turnComplete msg);
        rewrite ?FactsA.playback_flushTurn, FactsA.playback_accumulate; reflexivity. }
    apply FactsA.playback_eq in P1 as (_ & Ps1 & _).
    assert (H2 : exists st2 a2,
               match toolCall msg with
               | Some calls => VariantA.handleToolCall calls st1
               | None => (st1, [])
               end = (st2, a2)
               /\ VariantA.sourcesRef st2 = VariantA.sourcesRef st
               /\ started a2 = [] /\ stopped a2 = []).
    { destruct (toolCall msg) as [calls|].
      - pose proof (FactsA.handleToolCall_frame calls st1) as (F1 & F2 & F3 & _).
        destruct (VariantA.handleToolCall calls st1) as [st2 a2]. cbn [fst snd] in *.
        apply FactsA.playback_eq in F1 as (_ & Fs & _).
        exists st2, a2. splits; auto. congruence.
      - exists st1, []. auto. }
    destruct H2 as (st2 & a2 & -> & S2 & T2 & U2).
    assert (H3 : exists st3 a3,
               match modelTurn msg with
               | Some parts => VariantA.playParts parts st2
               | None => (st2, [], true)
               end = (st3, a3, true)
               /\ VariantA.sourcesRef st3 = VariantA.sourcesRef st ++ started a3
               /\ stopped a3 = []).
    { destruct (modelTurn msg) as [parts|].
      - pose proof (playParts_actsA parts st2 "") as (_ & K2 & _ & K4).
        destruct (K4 Hall) as [K5 K6].
        destruct (VariantA.playParts parts st2) as [[st3 a3] ok]. cbn [fst snd] in *.
        subst ok. exists st3, a3. splits; auto. congruence.
      - exists st2, []. rewrite app_nil_r. auto. }
    destruct H3 as (st3 & a3 & -> & S3 & U3).
    cbn [andb]. unfold VariantA.interrupt. cbn [fst snd].
    logs. rewrite T2, U2, U3. simpl. rewrite S3. auto.
  - cbn [VariantB.step]. unfold VariantB.onmessage. rewrite Hi.
    assert (H2 : exists st2 a2,
               match toolCall msg with
               | Some calls => VariantB.handleToolCall calls st
               | None => (st, [])
               end = (st2, a2)
               /\ VariantB.sourcesRef st2 = VariantB.sourcesRef st
               /\ started a2 = [] /\ stopped a2 = []).
    { destruct (toolCall msg) as [calls|].
      - pose proof (FactsB.handleToolCall_frameB calls st) as (F1 & F2 & F3 & _).
        destruct (VariantB.handleToolCall calls st) as [st2 a2]. cbn [fst snd] in *.
        apply FactsB.playback_eqB in F1 as (_ & Fs).
        exists st2, a2. splits; auto.
      - exists st, []. auto. }
    destruct H2 as (st2 & a2 & -> & S2 & T2 & U2).
    assert (H3 : exists st3 a3,
               match modelTurn msg with
               | Some parts => VariantB.playParts parts st2
               | None => (st2, [])
               end = (st3, a3)
               /\ VariantB.sourcesRef st3 = VariantB.sourcesRef st ++ started a3
               /\ stopped a3 = []).
    { destruct (modelTurn msg) as [parts|].
      - pose proof (playParts_actsB parts st2 "") as (_ & K2 & K3).
        destruct (VariantB.playParts parts st2) as [st3 a3]. cbn [fst snd] in *.
        exists st3, a3. splits; auto. congruence.
      - exists st2, []. rewrite app_nil_r. auto. }
    destruct H3 as (st3 & a3 & -> & S3 & U3).
    unfold VariantB.interrupt. cbn [fst snd].
    logs. rewrite T2, U2, U3. cbn [app]. rewrite S3.
    split; [reflexivity|].
    unfold VariantB.accumulate, VariantB.flushTurn.
    destruct (inputTranscription msg), (outputTranscription msg), (turnComplete msg);
      cbn; try match goal with
               | |- context [if ?b then _ else _] => destruct b
               end; cbn; auto.
Qed.

Lemma interrupted_clears_playback_witness :
  interrupted Examples.busyMessage = true
  /\ VariantA.isDeafened Examples.A.playing = false
  /\ allDecoded Examples.busyMessage = true
  /\ VariantA.sourcesRef Examples.A.playing <> []
  /\ VariantA.sourcesRef (fst (VariantA.onmessage Examples.busyMessage Examples.A.playing)) = []
  /\ VariantA.nextStartTimeRef
       (fst (VariantA.onmessage Examples.busyMessage Examples.A.playing)) = 0
  /\ VariantB.sourcesRef
       (fst (VariantB.step (VariantB.Message Examples.busyMessage) Examples.B.playing)) = [].
Proof.
  destruct (interrupted_clears_playback Examples.busyMessage eq_refl) as [HA HB].
  specialize (HA Examples.A.playing eq_refl eq_refl). specialize (HB Examples.B.playing).
  destruct (VariantA.onmessage Examples.busyMessage Examples.A.playing) as [sa aa].
  destruct (VariantB.step (VariantB.Message Examples.busyMessage) Examples.B.playing)
    as [sb ab].
  destruct HA as (_ & A2 & A3 & _). destruct HB as (_ & B2 & _).
  splits; try reflexivity; auto. vm_compute. discriminate.
Defined.

(** C3 as stated fails in variant A: an interruption that arrives while the
    robot is silenced is discarded with the rest of the message, and the
    cursor keeps the value the last scheduled fragment gave it. *)
Lemma interrupted_while_deafened_keeps_cursor :
  VariantA.isDeafened Examples.A.deafened = true
  /\ interrupted Interrupted = true
  /\ VariantA.nextStartTimeRef Examples.A.deafened = 5
  /\ VariantA.nextStartTimeRef (fst (VariantA.onmessage Interrupted Examples.A.deafened)) = 5
  /\ VariantA.nextStartTimeRef (fst (VariantA.onmessage Interrupted Examples.A.deafened)) <> 0.
Proof. splits; try reflexivity. vm_compute. discriminate. Qed.

End Interruption.

Section Transcripts.

Lemma append_assoc (a b c : string) : ((a ++ b) ++ c = a ++ (b ++ c))%string.
Proof. induction a as [|x a IH]; simpl; congruence. Qed.

Lemma append_empty_r (a : string) : (a ++ "" = a)%string.
Proof. induction a as [|x a IH]; simpl; congruence. Qed.

Lemma partialsA ps st :
  VariantA.isDeafened st = false ->
  let st1 := fst (VariantA.run (TraceA.partials ps) st) in
  VariantA.liveInput st1 = (VariantA.liveInput st ++ texts input ps)%string
  /\ VariantA.liveOutput st1 = (VariantA.liveOutput st ++ texts output ps)%string
  /\ VariantA.history st1 = VariantA.history st
  /\ VariantA.isDeafened st1 = false.
Proof.
  revert st. induction ps as [|[r t] rest IH]; intros st Hd; cbv zeta.
  { simpl. rewrite !append_empty_r. auto. }
  unfold TraceA.partials. cbn [map VariantA.run VariantA.step fst snd].
  fold (TraceA.partials rest).
  assert (H1 : VariantA.onmessage (PartialTranscript r t) st
               = (VariantA.accumulate (PartialTranscript r t) st, [])).
  { unfold VariantA.onmessage. rewrite Hd. destruct r; reflexivity. }
  rewrite H1.
  set (st0 := VariantA.accumulate (PartialTranscript r t) st).
  assert (Hd0 : VariantA.isDeafened st0 = false) by (destruct r; exact Hd).
  specialize (IH st0 Hd0). cbv zeta in IH.
  destruct (VariantA.run (TraceA.partials rest) st0) as [st1 a1]. cbn [fst] in *.
  destruct IH as (I1 & I2 & I3 & I4). rewrite I1, I2, I3.
  destruct r; cbn; rewrite ?append_assoc; auto.
Qed.

Lemma partialsB ps st :
  let st1 := fst (VariantB.run (TraceB.partials ps) st) in
  VariantB.currentInput st1 = (VariantB.currentInput st ++ texts input ps)%string
  /\ VariantB.currentOutput st1 = (VariantB.currentOutput st ++ texts output ps)%string
  /\ VariantB.history st1 = VariantB.history st
  /\ VariantB.currentInputRef st1 = VariantB.currentInputRef st
  /\ VariantB.currentOutputRef st1 = VariantB.currentOutputRef st.
Proof.
  revert st. induction ps as [|[r t] rest IH]; intros st; cbv zeta.
  { simpl. rewrite !append_empty_r. auto. }
  unfold TraceB.partials. cbn [map VariantB.run fst snd].
  fold (TraceB.partials rest).
  assert (H1 : VariantB.step (VariantB.Message (PartialTranscript r t)) st
               = (VariantB.accumulate (PartialTranscript r t) st, [])).
  { destruct r; reflexivity. }
  rewrite H1.
  set (st0 := VariantB.accumulate (PartialTranscript r t) st).
  specialize (IH st0). cbv zeta in IH.
  destruct (VariantB.run (TraceB.partials rest) st0) as [st1 a1]. cbn [fst] in *.
  destruct IH as (I1 & I2 & I3 & I4 & I5). rewrite I1, I2, I3, I4, I5.
  destruct r; cbn; rewrite ?append_assoc; splits; auto.
Qed.

Lemma run_app_A evs1 evs2 st :
  fst (VariantA.run (evs1 ++ evs2) st)
  = fst (VariantA.run evs2 (fst (VariantA.run evs1 st))).
Proof.
  revert st. induction evs1 as [|e rest IH]; intros st; cbn [app VariantA.run fst].
  - reflexivity.
  - destruct (VariantA.step e st) as [s1 a1]. specialize (IH s1).
    destruct (VariantA.run (rest ++ evs2) s1) as [s2 a2].
    destruct (VariantA.run rest s1) as [s3 a3]. cbn [fst] in *. exact IH.
Qed.

Lemma run_app_B evs1 evs2 st :
  fst (VariantB.run (evs1 ++ evs2) st)
  = fst (VariantB.run evs2 (fst (VariantB.run evs1 st))).
Proof.
  revert st. induction evs1 as [|e rest IH]; intros st; cbn [app VariantB.run fst].
  - reflexivity.
  - destruct (VariantB.step e st) as [s1 a1]. specialize (IH s1).
    destruct (VariantB.run (rest ++ evs2) s1) as [s2 a2].
    destruct (VariantB.run rest s1) as [s3 a3]. cbn [fst] in *. exact IH.
Qed.

Lemma flushTurnA st :
  VariantA.history (VariantA.flushTurn st)
  = VariantA.history st ++ turnEntry user (VariantA.liveInput st)
      ++ turnEntry robot (VariantA.liveOutput st)
  /\ VariantA.liveInput (VariantA.flushTurn st) = ""
  /\ VariantA.liveOutput (VariantA.flushTurn st) = "".
Proof.
  unfold VariantA.flushTurn, VariantA.addLog, turnEntry.
  destruct (String.eqb (VariantA.liveInput st) ""); cbn;
    destruct (String.eqb (VariantA.liveOutput st) ""); cbn;
    rewrite ?app_nil_r, <- ?app_assoc; auto.
Qed.

Lemma flushTurnB st :
  VariantB.history (VariantB.flushTurn st)
  = VariantB.history st ++ turnEntry user (VariantB.currentInputRef st)
      ++ turnEntry robot (VariantB.currentOutputRef st)
  /\ VariantB.currentInput (VariantB.flushTurn st) = ""
  /\ VariantB.currentOutput (VariantB.flushTurn st) = "".
Proof.
  unfold VariantB.flushTurn, turnEntry.
  destruct (String.eqb (VariantB.currentInputRef st) ""); cbn;
    destruct (String.eqb (VariantB.currentOutputRef st) ""); cbn;
    rewrite ?app_nil_r; auto.
Qed.

(** C7, as the code has it.  Over any run of partial transcripts (variant
    A: received while the deafened flag is clear) each side's accumulator
    grows by the texts of its role, in order, and the log does not change.
    In variant A a turn completion that follows appends the accumulated
    input as one user entry and the accumulated output as one robot entry,
    leaving out a side that is empty, and resets both accumulators to the
    empty string; an interruption received in between empties the output
    accumulator, so that the robot entry holds the output received since.
    In variant B the turn completion does the same once React has committed
    the accumulated texts to the refs it reads. *)
Theorem turn_complete_flushes_transcripts (ps : list (Role * string)) :
  (forall st,
      VariantA.isDeafened st = false ->
      let st1 := fst (VariantA.run (TraceA.partials ps) st) in
      let st2 := fst (VariantA.step (VariantA.Message TurnComplete) st1) in
      VariantA.liveInput st1 = (VariantA.liveInput st ++ texts input ps)%string
      /\ VariantA.liveOutput st1 = (VariantA.liveOutput st ++ texts output ps)%string
      /\ VariantA.history st1 = VariantA.history st
      /\ VariantA.history st2
         = VariantA.history st1 ++ turnEntry user (VariantA.liveInput st1)
             ++ turnEntry robot (VariantA.liveOutput st1)
      /\ VariantA.liveInput st2 = "" /\ VariantA.liveOutput st2 = "")
  /\ (forall before st,
         VariantA.isDeafened st = false ->
         let st1 := fst (VariantA.run (TraceA.partials before
                                       ++ VariantA.Message Interrupted
                                       :: TraceA.partials ps) st) in
         let st2 := fst (VariantA.step (VariantA.Message TurnComplete) st1) in
         VariantA.liveInput st1
         = (VariantA.liveInput st ++ texts input before ++ texts input ps)%string
         /\ VariantA.liveOutput st1 = texts output ps
         /\ VariantA.history st1 = VariantA.history st
         /\ VariantA.history st2
            = VariantA.history st1 ++ turnEntry user (VariantA.liveInput st1)
                ++ turnEntry robot (texts output ps)
         /\ VariantA.liveInput st2 = "" /\ VariantA.liveOutput st2 = "")
  /\ (forall st,
         let st1 := fst (VariantB.run (TraceB.partials ps ++ [VariantB.Commit]) st) in
         let st2 := fst (VariantB.step (VariantB.Message TurnComplete) st1) in
         VariantB.currentInput st1 = (VariantB.currentInput st ++ texts input ps)%string
         /\ VariantB.currentOutput st1 = (VariantB.currentOutput st ++ texts output ps)%string
         /\ VariantB.history st1 = VariantB.history st
         /\ VariantB.history st2
            = VariantB.history st1 ++ turnEntry user (VariantB.currentInput st1)
                ++ turnEntry robot (VariantB.currentOutput st1)
         /\ VariantB.currentInput st2 = "" /\ VariantB.currentOutput st2 = "").
Proof.
  assert (TC : forall st1,
             VariantA.isDeafened st1 = false ->
             VariantA.onmessage TurnComplete st1 = (VariantA.flushTurn st1, [])).
  { intros st1 H4. unfold VariantA.onmessage. rewrite H4. reflexivity. }
  splits.
  - intros st Hst. cbv zeta.
    pose proof (partialsA ps st Hst) as H. cbv zeta in H.
    destruct (VariantA.run (TraceA.partials ps) st) as [st1 a1]. cbn [fst] in *.
    destruct H as (H1 & H2 & H3 & H4). cbn [VariantA.step].
    rewrite (TC st1 H4). cbn [fst]. destruct (flushTurnA st1) as (F1 & F2 & F3). auto 10.
  - intros before st Hst. cbv zeta. rewrite run_app_A.
    pose proof (partialsA before st Hst) as H. cbv zeta in H.
    destruct (VariantA.run (TraceA.partials before) st) as [st0 a0]. cbn [fst] in *.
    destruct H as (H1 & H2 & H3 & H4).
    cbn [VariantA.run VariantA.step].
    assert (E : VariantA.onmessage Interrupted st0
                = VariantA.interrupt st0).
    { unfold VariantA.onmessage. rewrite H4. reflexivity. }
    rewrite E. unfold VariantA.interrupt.
    set (s := VariantA.setLiveOutput "" _).
    assert (Ds : VariantA.isDeafened s = false) by exact H4.
    pose proof (partialsA ps s Ds) as G. cbv zeta in G.
    destruct (VariantA.run (TraceA.partials ps) s) as [st1 a1]. cbn [fst] in *.
    destruct G as (G1 & G2 & G3 & G4).
    change (VariantA.liveInput s) with (VariantA.liveInput st0) in G1.
    change (VariantA.liveOutput s) with "" in G2.
    change (VariantA.history s) with (VariantA.history st0) in G3.
    cbn [String.append] in G2.
    rewrite (TC st1 G4). cbn [fst]. destruct (flushTurnA st1) as (F1 & F2 & F3).
    rewrite F1, G1, G2, G3, H1, H3, append_assoc. auto 10.
  - intros st. cbv zeta. rewrite run_app_B.
    pose proof (partialsB ps st) as H. cbv zeta in H.
    destruct (VariantB.run (TraceB.partials ps) st) as [st0 a0]. cbn [fst] in *.
    destruct H as (H1 & H2 & H3 & _ & _).
    cbn [VariantB.run VariantB.step fst].
    assert (E : VariantB.onmessage TurnComplete (VariantB.useEffect_sync st0)
                = (VariantB.flushTurn (VariantB.useEffect_sync st0), [])).
    { reflexivity. }
    rewrite E. cbn [fst].
    destruct (flushTurnB (VariantB.useEffect_sync st0)) as (F1 & F2 & F3).
    change (VariantB.currentInput (VariantB.useEffect_sync st0))
      with (VariantB.currentInput st0).
    change (VariantB.currentOutput (VariantB.useEffect_sync st0))
      with (VariantB.currentOutput st0).
    change (VariantB.history (VariantB.useEffect_sync st0))
      with (VariantB.history st0) in *.
    change (VariantB.currentInputRef (VariantB.useEffect_sync st0))
      with (VariantB.currentInput st0) in F1.
    change (VariantB.currentOutputRef (VariantB.useEffect_sync st0))
      with (VariantB.currentOutput st0) in F1.
    splits; auto.
Qed.

(** The scenario of the specification, run in both variants. *)
Lemma turn_complete_flushes_transcripts_witness :
  VariantA.isDeafened Examples.A.listening = false
  /\ VariantA.history
       (fst (VariantA.step (VariantA.Message TurnComplete)
               (fst (VariantA.run (TraceA.partials [(output, "Hello"); (output, " there")])
                       Examples.A.listening))))
     = VariantA.history Examples.A.listening ++ [{| type := robot; text := "Hello there" |}]
  /\ VariantA.liveOutput
       (fst (VariantA.step (VariantA.Message TurnComplete)
               (fst (VariantA.run (TraceA.partials [(output, "Hello"); (output, " there")])
                       Examples.A.listening)))) = ""
  /\ VariantB.history
       (fst (VariantB.step (VariantB.Message TurnComplete)
               (fst (VariantB.run (TraceB.partials [(output, "Hello"); (output, " there")]
                                   ++ [VariantB.Commit])
                       Examples.B.listening))))
     = VariantB.history Examples.B.listening ++ [{| type := robot; text := "Hello there" |}]
  /\ VariantB.currentOutput
       (fst (VariantB.step (VariantB.Message TurnComplete)
               (fst (VariantB.run (TraceB.partials [(output, "Hello"); (output, " there")]
                                   ++ [VariantB.Commit])
                       Examples.B.listening)))) = "".
Proof.
  destruct (turn_complete_flushes_transcripts [(output, "Hello"); (output, " there")])
    as (HA & _ & HB).
  specialize (HA Examples.A.listening eq_refl). specialize (HB Examples.B.listening).
  cbv zeta in HA, HB.
  destruct HA as (_ & A2 & A3 & A4 & _ & A6).
  destruct HB as (_ & B2 & B3 & B4 & _ & B6).
  split; [reflexivity|].
  split; [rewrite A4, A3; reflexivity|]. split; [exact A6|].
  split; [rewrite B4, B3; reflexivity | exact B6].
Defined.

(** C7 as stated fails.  In variant A a turn completion that arrives while
    the robot is silenced neither logs the accumulated output nor clears
    it, and output accumulated before an interruption is not logged at the
    end of the turn.  In variant B two partial transcripts followed at once
    by the turn completion, with no commit in between, log nothing and the
    text is gone. *)
Lemma turn_complete_can_miss_transcripts :
  (VariantA.isDeafened Examples.A.heardHello = true
   /\ VariantA.liveOutput Examples.A.heardHello = "Hello"
   /\ turnComplete TurnComplete = true
   /\ VariantA.history (fst (VariantA.onmessage TurnComplete Examples.A.heardHello))
      = VariantA.history Examples.A.heardHello
   /\ VariantA.liveOutput (fst (VariantA.onmessage TurnComplete Examples.A.heardHello))
      = "Hello")
  /\ (VariantA.history
        (fst (VariantA.run [VariantA.Message (PartialTranscript output "Hello");
                            VariantA.Message Interrupted;
                            VariantA.Message TurnComplete] Examples.A.listening))
      = VariantA.history Examples.A.listening)
  /\ (let st2 := fst (VariantB.run [VariantB.Message (PartialTranscript output "Hello");
                                    VariantB.Message (PartialTranscript output " there");
                                    VariantB.Message TurnComplete] Examples.B.listening) in
      VariantB.history st2 = VariantB.history Examples.B.listening
      /\ VariantB.currentOutput st2 = "").
Proof. cbv zeta. splits; vm_compute; reflexivity. Qed.

End Transcripts.

Section Reconnection.

Lemma handleError_report err st :
  let '(st', acts) := VariantA.handleError err st in
  timers acts = []
  /\ VariantA.isInitialized st' = VariantA.isInitialized st
  /\ VariantA.errorDetail st'
     = Some {| detail_message := fst (VariantA.classify err);
               detail_type := snd (VariantA.classify err) |}
  /\ (snd (VariantA.classify err) = critical -> VariantA.robotState st' = ERROR)
  /\ (snd (VariantA.classify err) = warning ->
      VariantA.robotState st' = VariantA.robotState st
      /\ VariantA.isActive st' = VariantA.isActive st).
Proof.
  unfold VariantA.handleError. destruct (VariantA.classify err) as [m ty].
  destruct ty; cbn [fst snd].
  - unfold VariantA.stopSession, VariantA.addLog. cbn.
    logs. splits; auto.
    + destruct (VariantA.sessionRef _); cbn; logs; reflexivity.
    + intros H; discriminate H.
  - unfold VariantA.addLog. cbn. splits; auto. intros H; discriminate H.
Qed.

Lemma startSession_failsA env k err c st :
  connectFailure env = Some err ->
  TraceA.authorised c env = true ->
  let '(st', acts, next) := VariantA.startSession env k c st in
  (Nat.ltb k VariantA.MAX_RETRIES = true ->
   timers acts = [(VariantA.RETRY_DELAY, S k)] /\ next = Some (S k))
  /\ (Nat.ltb k VariantA.MAX_RETRIES = false ->
      timers acts = [] /\ next = None
      /\ VariantA.errorDetail st'
         = Some {| detail_message := fst (VariantA.classify err);
                   detail_type := snd (VariantA.classify err) |}
      /\ (snd (VariantA.classify err) = critical -> VariantA.robotState st' = ERROR)
      /\ (snd (VariantA.classify err) = warning -> VariantA.robotState st' = CONNECTING)).
Proof.
  unfold connectFailure, TraceA.authorised, VariantA.startSession. intros Hf Ha.
  destruct (apiKey env); [|discriminate Hf]. cbn [negb].
  assert (H0 : exists st0 a0,
             (if VariantA.closure_isInitialized c then (st, [], true)
              else VariantA.handleInitialization env st) = (st0, a0, true)
             /\ timers a0 = []).
  { destruct (VariantA.closure_isInitialized c).
    - exists st, []. auto.
    - unfold VariantA.handleInitialization. cbn [orb] in Ha.
      destruct (permissions env); [discriminate Ha|].
      eexists. eexists. split; reflexivity. }
  destruct H0 as (st0 & a0 & -> & T0). cbn [negb].
  destruct (audioContexts env); [discriminate Hf|]. rewrite Hf.
  set (a1 := if Nat.eqb k 0 then [PlayUISound UIConnect] else []).
  assert (T1 : timers a1 = []) by (unfold a1; destruct (Nat.eqb k 0); reflexivity).
  destruct (Nat.ltb k VariantA.MAX_RETRIES).
  - logs. rewrite T0, T1. cbn. splits; auto; intros H; discriminate H.
  - set (st1 := VariantA.set_nextStartTimeRef 0 _).
    pose proof (handleError_report err st1) as H.
    destruct (VariantA.handleError err st1) as [st' acts].
    destruct H as (H1 & _ & H2 & H3 & H4). logs. rewrite T0, T1, H1.
    splits; auto; try (intros H; discriminate H).
    intros _. splits; auto. intros Hw. destruct (H4 Hw) as [H5 _]. rewrite H5. reflexivity.
Qed.

Lemma startSession_refusedA env k perr st :
  apiKey env = true -> permissions env = Some perr ->
  let '(st', acts, next) :=
    VariantA.startSession env k {| VariantA.closure_isInitialized := false |} st in
  timers acts = [] /\ next = None
  /\ VariantA.errorDetail st'
     = Some {| detail_message := fst (VariantA.classify perr);
               detail_type := snd (VariantA.classify perr) |}
  /\ VariantA.sessionRef st' = VariantA.sessionRef
                                 (fst (VariantA.handleError perr st)).
Proof.
  intros Hk Hp. unfold VariantA.startSession, VariantA.handleInitialization.
  rewrite Hk, Hp. cbn [negb VariantA.closure_isInitialized].
  set (st0 := VariantA.setErrorDetail None (VariantA.setRobotState CONNECTING st)).
  pose proof (handleError_report perr st0) as H.
  assert (S : VariantA.sessionRef (fst (VariantA.handleError perr st0))
              = VariantA.sessionRef (fst (VariantA.handleError perr st))).
  { unfold VariantA.handleError. destruct (VariantA.classify perr) as [m ty].
    destruct ty; unfold VariantA.stopSession, VariantA.addLog;
      repeat match goal with |- context [if ?b then _ else _] => destruct b end;
      reflexivity. }
  destruct (VariantA.handleError perr st0) as [st' acts]. cbn [negb fst] in *.
  destruct H as (H1 & _ & H2 & _). cbn [timers flat_map app]. splits; auto.
Qed.

Lemma startSession_failsB env k err c st :
  connectFailure env = Some err ->
  VariantB.closure_isInitialized c = true ->
  let '(st', acts, next) := VariantB.startSession env k c st in
  (Nat.ltb k VariantB.MAX_RETRIES = true ->
   timers acts = [(VariantB.retryDelay k (random env), S k)] /\ next = Some (S k))
  /\ (Nat.ltb k VariantB.MAX_RETRIES = false ->
      timers acts = [] /\ next = None
      /\ VariantB.robotState st' = ERROR
      /\ VariantB.isActive st' = true
      /\ exists m, VariantB.errorDetail st'
                   = Some {| detail_message := m; detail_type := critical |}).
Proof.
  unfold connectFailure, VariantB.startSession. intros Hf Hi.
  destruct (apiKey env); [|discriminate Hf]. cbn [negb].
  destruct (audioContexts env); [discriminate Hf|]. rewrite Hi, Hf. cbn [negb].
  set (a1 := if Nat.eqb k 0 then [PlayUISound UIConnect] else []).
  assert (T1 : timers a1 = []) by (unfold a1; destruct (Nat.eqb k 0); reflexivity).
  destruct (Nat.ltb k VariantB.MAX_RETRIES).
  - logs. rewrite T1. cbn. splits; auto; intros H; discriminate H.
  - logs. rewrite T1. cbn. splits; auto; try (intros H; discriminate H).
    intros _. splits; auto. eexists. reflexivity.
Qed.

(** C5, as the code has it.  Variant A: a run of [startSession] that fails
    to connect is repeated after a fixed 2000 ms, twice at most; the third
    failure in a row is handed to [handleError], which surfaces a message,
    schedules nothing more, and enters ERROR exactly when it classifies the
    error as critical (the state stays CONNECTING otherwise).  This is so
    whether the closure saw the component initialised or, for a first
    wake-up, access is granted again at every run; a run of a first wake-up
    that is refused access reports that and ends the chain.  Variant B: the
    run is repeated three times at most, after [1000 * 2^retryCount] ms
    plus a jitter below 500 ms; the fourth failure in a row sets ERROR with
    a critical message and schedules nothing more. *)
Theorem open_failures_retried_then_reported :
  (forall c e1 e2 e3 err1 err2 err3 rest st,
      connectFailure e1 = Some err1 -> connectFailure e2 = Some err2 ->
      connectFailure e3 = Some err3 ->
      TraceA.authorised c e1 = true -> TraceA.authorised c e2 = true ->
      TraceA.authorised c e3 = true ->
      let '(st', acts, pending) :=
        VariantA.startSession_chain (e1 :: e2 :: e3 :: rest) 0 c st in
      timers acts = [(2000%Q, 1%nat); (2000%Q, 2%nat)]
      /\ pending = None
      /\ VariantA.errorDetail st'
         = Some {| detail_message := fst (VariantA.classify err3);
                   detail_type := snd (VariantA.classify err3) |}
      /\ (VariantA.robotState st' = ERROR <-> snd (VariantA.classify err3) = critical)
      /\ (snd (VariantA.classify err3) = warning -> VariantA.robotState st' = CONNECTING))
  /\ (forall e1 e2 err1 perr rest st,
         connectFailure e1 = Some err1 -> TraceA.authorised (VariantA.render st) e1 = true ->
         VariantA.isInitialized st = false ->
         apiKey e2 = true -> permissions e2 = Some perr ->
         let '(st', acts, pending) :=
           VariantA.startSession_chain (e1 :: e2 :: rest) 0 (VariantA.render st) st in
         timers acts = [(2000%Q, 1%nat)]
         /\ pending = None
         /\ VariantA.errorDetail st'
            = Some {| detail_message := fst (VariantA.classify perr);
                      detail_type := snd (VariantA.classify perr) |})
  /\ (forall c e1 e2 e3 e4 err1 err2 err3 err4 rest st,
         connectFailure e1 = Some err1 -> connectFailure e2 = Some err2 ->
         connectFailure e3 = Some err3 -> connectFailure e4 = Some err4 ->
         VariantB.closure_isInitialized c = true ->
         let '(st', acts, pending) :=
           VariantB.startSession_chain (e1 :: e2 :: e3 :: e4 :: rest) 0 c st in
         timers acts = [(VariantB.retryDelay 0 (random e1), 1%nat);
                        (VariantB.retryDelay 1 (random e2), 2%nat);
                        (VariantB.retryDelay 2 (random e3), 3%nat)]
         /\ pending = None
         /\ VariantB.robotState st' = ERROR
         /\ exists m, VariantB.errorDetail st'
                      = Some {| detail_message := m; detail_type := critical |})
  /\ (forall k r,
         (0 <= r)%Q -> (r < 1)%Q ->
         (VariantB.retryDelay k r == 1000 * inject_Z (2 ^ Z.of_nat k) + r * 500)%Q
         /\ (0 <= r * 500)%Q /\ (r * 500 < 500)%Q).
Proof.
  splits.
  - intros c e1 e2 e3 err1 err2 err3 rest st F1 F2 F3 A1 A2 A3.
    cbn [VariantA.startSession_chain].
    pose proof (startSession_failsA e1 0 err1 c st F1 A1) as H1.
    destruct (VariantA.startSession e1 0 c st) as [[st1 a1] n1].
    destruct H1 as (R1 & _). destruct (R1 eq_refl) as [T1 ->].
    pose proof (startSession_failsA e2 1 err2 c st1 F2 A2) as H2.
    destruct (VariantA.startSession e2 1 c st1) as [[st2 a2] n2].
    destruct H2 as (R2 & _). destruct (R2 eq_refl) as [T2 ->].
    pose proof (startSession_failsA e3 2 err3 c st2 F3 A3) as H3.
    destruct (VariantA.startSession e3 2 c st2) as [[st3 a3] n3].
    destruct H3 as (_ & R3). destruct (R3 eq_refl) as (T3 & -> & E3 & C3 & W3).
    logs. rewrite T1, T2, T3. splits; auto.
    split; [|exact C3].
    intros HE. destruct (snd (VariantA.classify err3)) eqn:Ec; [reflexivity|].
    rewrite (W3 eq_refl) in HE. discriminate HE.
  - intros e1 e2 err1 perr rest st F1 A1 Hi K2 P2.
    cbn [VariantA.startSession_chain].
    pose proof (startSession_failsA e1 0 err1 (VariantA.render st) st F1 A1) as H1.
    destruct (VariantA.startSession e1 0 (VariantA.render st) st) as [[st1 a1] n1].
    destruct H1 as (R1 & _). destruct (R1 eq_refl) as [T1 ->].
    unfold VariantA.render. rewrite Hi.
    pose proof (startSession_refusedA e2 1 perr st1 K2 P2) as H2.
    destruct (VariantA.startSession e2 1 _ st1) as [[st2 a2] n2].
    destruct H2 as (T2 & -> & E2 & _). logs. rewrite T1, T2. auto.
  - intros c e1 e2 e3 e4 err1 err2 err3 err4 rest st F1 F2 F3 F4 Hi.
    cbn [VariantB.startSession_chain].
    pose proof (startSession_failsB e1 0 err1 c st F1 Hi) as H1.
    destruct (VariantB.startSession e1 0 c st) as [[st1 a1] n1].
    destruct H1 as (R1 & _). destruct (R1 eq_refl) as [T1 ->].
    pose proof (startSession_failsB e2 1 err2 c st1 F2 Hi) as H2.
    destruct (VariantB.startSession e2 1 c st1) as [[st2 a2] n2].
    destruct H2 as (R2 & _). destruct (R2 eq_refl) as [T2 ->].
    pose proof (startSession_failsB e3 2 err3 c st2 F3 Hi) as H3.
    destruct (VariantB.startSession e3 2 c st2) as [[st3 a3] n3].
    destruct H3 as (R3 & _). destruct (R3 eq_refl) as [T3 ->].
    pose proof (startSession_failsB e4 3 err4 c st3 F4 Hi) as H4.
    destruct (VariantB.startSession e4 3 c st3) as [[st4 a4] n4].
    destruct H4 as (_ & R4). destruct (R4 eq_refl) as (T4 & -> & E4 & _ & D4).
    logs. rewrite T1, T2, T3, T4. auto.
  - intros k r H0 H1. unfold VariantB.retryDelay. splits; lra.
Qed.

Lemma open_failures_retried_then_reported_witness :
  (let '(st', acts, pending) :=
     VariantA.startSession_chain
       (Examples.unreachable 0 :: Examples.unreachable 0 :: Examples.unreachable 0
          :: [Examples.unreachable 0])
       0 (VariantA.render VariantA.initial) VariantA.initial in
   timers acts = [(2000%Q, 1%nat); (2000%Q, 2%nat)]
   /\ pending = None
   /\ VariantA.errorDetail st'
      = Some {| detail_message := "An unexpected error occurred.";
                detail_type := warning |}
   /\ (VariantA.robotState st' = ERROR <-> warning = critical)
   /\ (warning = warning -> VariantA.robotState st' = CONNECTING))
  /\ (let '(st', acts, pending) :=
        VariantA.startSession_chain
          (Examples.unreachable 0 :: Examples.refusedAccess :: [])
          0 (VariantA.render VariantA.initial) VariantA.initial in
      timers acts = [(2000%Q, 1%nat)]
      /\ pending = None
      /\ VariantA.errorDetail st'
         = Some {| detail_message := "Hardware access denied.";
                   detail_type := critical |})
  /\ (let '(st', acts, pending) :=
        VariantB.startSession_chain
          (Examples.unreachable (1 # 2) :: Examples.unreachable (1 # 4)
             :: Examples.unreachable 0 :: Examples.unreachable (3 # 4)
             :: [Examples.unreachable 0])%Q
          0 (VariantB.render Examples.B.ready) Examples.B.ready in
      timers acts = [(VariantB.retryDelay 0 (1 # 2), 1%nat);
                     (VariantB.retryDelay 1 (1 # 4), 2%nat);
                     (VariantB.retryDelay 2 0, 3%nat)]
      /\ pending = None
      /\ VariantB.robotState st' = ERROR
      /\ exists m, VariantB.errorDetail st'
                   = Some {| detail_message := m; detail_type := critical |})
  /\ (VariantB.retryDelay 2 (1 # 2) == 1000 * inject_Z (2 ^ 2) + (1 # 2) * 500)%Q.
Proof.
  destruct open_failures_retried_then_reported as (HA & HR & HB & HD).
  split; [|split; [|split]].
  - apply (HA (VariantA.render VariantA.initial)
              (Examples.unreachable 0) (Examples.unreachable 0) (Examples.unreachable 0)
              {| name := "Error"; message := "WebSocket closed" |}
              {| name := "Error"; message := "WebSocket closed" |}
              {| name := "Error"; message := "WebSocket closed" |}
              [Examples.unreachable 0] VariantA.initial); reflexivity.
  - apply (HR (Examples.unreachable 0) Examples.refusedAccess
              {| name := "Error"; message := "WebSocket closed" |}
              {| name := "NotAllowedError"; message := "Permission denied" |}
              [] VariantA.initial); reflexivity.
  - apply (HB (VariantB.render Examples.B.ready)
              (Examples.unreachable (1 # 2)) (Examples.unreachable (1 # 4))
              (Examples.unreachable 0) (Examples.unreachable (3 # 4))
              {| name := "Error"; message := "WebSocket closed" |}
              {| name := "Error"; message := "WebSocket closed" |}
              {| name := "Error"; message := "WebSocket closed" |}
              {| name := "Error"; message := "WebSocket closed" |}
              [Examples.unreachable 0] Examples.B.ready); reflexivity.
  - apply (HD 2%nat (1 # 2)%Q); [discriminate | reflexivity].
Defined.

(** C5 as stated fails in variant A: the two retries are both set 2000 ms
    ahead, with no growth and no jitter, and after the third failure of an
    ordinary connection error the state is still CONNECTING, not ERROR. *)
Lemma fixed_delay_and_no_error_state :
  connectFailure (Examples.unreachable 0)
  = Some {| name := "Error"; message := "WebSocket closed" |}
  /\ timers (snd (fst (VariantA.onClick_power
                         (map Examples.unreachable [0; 0; 0])%Q VariantA.initial)))
     = [(2000%Q, 1%nat); (2000%Q, 2%nat)]
  /\ snd (VariantA.onClick_power
            (map Examples.unreachable [0; 0; 0])%Q VariantA.initial) = None
  /\ VariantA.robotState (fst (fst (VariantA.onClick_power
                         (map Examples.unreachable [0; 0; 0])%Q VariantA.initial)))
     = CONNECTING
  /\ VariantA.robotState (fst (fst (VariantA.onClick_power
                         (map Examples.unreachable [0; 0; 0])%Q VariantA.initial)))
     <> ERROR.
Proof. splits; try (vm_compute; reflexivity). vm_compute. discriminate. Qed.

(** C6, as the code has it.  A close event never schedules a reconnection.
    Variant A tests its active flag: with a code other than 1000 while the
    session is active it reports the closure through [handleError] as a
    warning and leaves the state and the active flag as they are;
    otherwise it sets IDLE and clears the flag.  Variant B tests the active
    flag its closure captured when [startSession] was called: with a code
    other than 1000 and the flag captured set, it sets ERROR with a
    critical message; otherwise it sets IDLE, clears the flag and leaves
    the error display alone.  A session started by the power button, which
    calls [startSession] only while the flag is clear, therefore closes to
    IDLE whatever the code; one started by Re-Sync with the flag set goes
    to ERROR on an abnormal close. *)
Theorem close_is_never_retried (code : nat) :
  (forall st,
      let '(st', acts) := VariantA.onclose code st in
      timers acts = []
      /\ (code <> 1000%nat -> VariantA.isActive st = true ->
          VariantA.robotState st' = VariantA.robotState st
          /\ VariantA.isActive st' = true
          /\ VariantA.errorDetail st'
             = Some {| detail_message := "An unexpected error occurred.";
                       detail_type := warning |})
      /\ (code = 1000%nat \/ VariantA.isActive st = false ->
          VariantA.robotState st' = IDLE /\ VariantA.isActive st' = false))
  /\ (forall c st,
         let '(st', acts) := VariantB.onclose code c st in
         acts = []
         /\ (code <> 1000%nat -> VariantB.closure_isActive c = true ->
             VariantB.robotState st' = ERROR
             /\ exists m, VariantB.errorDetail st'
                          = Some {| detail_message := m; detail_type := critical |})
         /\ (code = 1000%nat \/ VariantB.closure_isActive c = false ->
             VariantB.robotState st' = IDLE /\ VariantB.isActive st' = false
             /\ VariantB.errorDetail st' = VariantB.errorDetail st))
  /\ (forall envs clicked st,
         VariantB.isActive clicked = false ->
         VariantB.onClick_power envs clicked
         = VariantB.startSession_chain envs 0 (VariantB.render clicked) clicked
         /\ let '(st', acts) := VariantB.onclose code (VariantB.render clicked) st in
            acts = []
            /\ VariantB.robotState st' = IDLE /\ VariantB.isActive st' = false
            /\ VariantB.errorDetail st' = VariantB.errorDetail st)
  /\ (forall clicked st,
         VariantB.isActive clicked = true -> code <> 1000%nat ->
         let '(st', acts) := VariantB.onclose code (VariantB.render clicked) st in
         acts = [] /\ VariantB.robotState st' = ERROR).
Proof.
  assert (HB : forall c st,
             let '(st', acts) := VariantB.onclose code c st in
             acts = []
             /\ (code <> 1000%nat -> VariantB.closure_isActive c = true ->
                 VariantB.robotState st' = ERROR
                 /\ exists m, VariantB.errorDetail st'
                              = Some {| detail_message := m; detail_type := critical |})
             /\ (code = 1000%nat \/ VariantB.closure_isActive c = false ->
                 VariantB.robotState st' = IDLE /\ VariantB.isActive st' = false
                 /\ VariantB.errorDetail st' = VariantB.errorDetail st)).
  { intros c st. unfold VariantB.onclose.
    destruct (Nat.eqb_spec code 1000) as [E|E]; cbn [negb andb].
    + splits; auto. intros H. contradiction.
    + destruct (VariantB.closure_isActive c).
      * splits; auto.
        -- intros _ _. split; [reflexivity | eexists; reflexivity].
        -- intros [H|H]; [contradiction | discriminate H].
      * splits; auto. intros _ H. discriminate H. }
  splits.
  - intros st. unfold VariantA.onclose.
    destruct (Nat.eqb_spec code 1000) as [E|E]; cbn [negb andb].
    + splits; auto. intros H. contradiction.
    + destruct (VariantA.isActive st) eqn:Ha.
      * set (err := {| name := "Error";
                       message := ("Link severed: " ++ string_of_nat code)%string |}).
        pose proof (handleError_report err st) as H.
        pose proof (classify_link_severed code) as Hc. fold err in Hc.
        destruct (VariantA.handleError err st) as [st' acts].
        destruct H as (H1 & _ & H2 & _ & H4). rewrite Hc in H2, H4. cbn [fst snd] in *.
        destruct (H4 eq_refl) as [H5 H6]. splits; auto.
        -- intros _ _. splits; auto. congruence.
        -- intros [H|H]; [contradiction | discriminate H].
      * splits; auto. intros _ H. discriminate H.
  - exact HB.
  - intros envs clicked st Ha. split.
    + unfold VariantB.onClick_power. rewrite Ha. reflexivity.
    + specialize (HB (VariantB.render clicked) st).
      destruct (VariantB.onclose code (VariantB.render clicked) st) as [st' acts].
      destruct HB as (B1 & _ & B3). split; [exact B1|]. apply B3. right. exact Ha.
  - intros clicked st Ha Hc. specialize (HB (VariantB.render clicked) st).
    destruct (VariantB.onclose code (VariantB.render clicked) st) as [st' acts].
    destruct HB as (B1 & B2 & _). split; [exact B1|]. apply (B2 Hc Ha).
Qed.

(** An abnormal close (code 1006) of a session of variant A, of a session
    of variant B started by the power button, and of one started by Re-Sync
    after four failed attempts. *)
Lemma close_is_never_retried_witness :
  1006%nat <> 1000%nat
  /\ VariantA.isActive Examples.A.listening = true
  /\ timers (snd (VariantA.onclose 1006 Examples.A.listening)) = []
  /\ VariantA.robotState (fst (VariantA.onclose 1006 Examples.A.listening)) = LISTENING
  /\ VariantB.isActive Examples.B.ready = false
  /\ (let '(st', acts) :=
        VariantB.onclose 1006 (VariantB.render Examples.B.ready) Examples.B.listening in
      acts = []
      /\ VariantB.robotState st' = IDLE /\ VariantB.isActive st' = false
      /\ VariantB.errorDetail st' = VariantB.errorDetail Examples.B.listening)
  /\ VariantB.isActive Examples.B.failed = true
  /\ (let '(st', acts) :=
        VariantB.onclose 1006 (VariantB.render Examples.B.failed)
          (fst (fst (VariantB.onClick_reSync [Examples.available] Examples.B.failed))) in
      acts = [] /\ VariantB.robotState st' = ERROR).
Proof.
  assert (N : 1006%nat <> 1000%nat) by (intros H; discriminate H).
  destruct (close_is_never_retried 1006) as (HA & _ & HW & HR).
  specialize (HA Examples.A.listening).
  destruct (VariantA.onclose 1006 Examples.A.listening) as [sa aa].
  destruct HA as (A1 & A2 & _). destruct (A2 N eq_refl) as (A3 & _).
  split; [exact N|]. split; [reflexivity|]. split; [exact A1|]. split; [exact A3|].
  split; [reflexivity|].
  split; [apply (HW [Examples.available] Examples.B.ready Examples.B.listening eq_refl)|].
  split; [reflexivity|].
  apply (HR Examples.B.failed _ eq_refl N).
Defined.

(** C6 as stated fails: an abnormal close while the session is active does
    not re-enter CONNECTING and sets no timer for another attempt; variant
    A stays in the state it was in, and variant B, for the session the
    power button started, goes to IDLE. *)
Lemma abnormal_close_not_reconnected :
  VariantA.isActive Examples.A.listening = true
  /\ VariantA.robotState (fst (VariantA.onclose 1006 Examples.A.listening)) = LISTENING
  /\ snd (VariantA.onclose 1006 Examples.A.listening) = [PlayUISound UIError]
  /\ VariantB.isActive Examples.B.listening = true
  /\ VariantB.robotState
       (fst (VariantB.onclose 1006 (VariantB.render Examples.B.ready)
                              Examples.B.listening)) = IDLE
  /\ snd (VariantB.onclose 1006 (VariantB.render Examples.B.ready)
                           Examples.B.listening) = [].
Proof. splits; vm_compute; reflexivity. Qed.

End Reconnection.

Section Scheduling.

Lemma schedule_from_zero (nodes : list AudioBufferSourceNode) :
  chain 0 nodes -> Forall (fun n => 0 <= node_clock n) nodes ->
  spec_schedule None nodes /\ spec_gapless None nodes.
Proof.
  intros Hc Hk.
  assert (Hs : spec_schedule None nodes).
  { apply (chain_schedule_first 0 nodes Hc).
    destruct nodes as [|n rest]; [exact I|]. inversion Hk; assumption. }
  split; [exact Hs | apply schedule_gapless; exact Hs].
Qed.

(** C1.  Enqueueing one decoded fragment (variant A: while not deafened;
    variant B: in a state whose cursor is not ahead of the clock unless a
    source in flight ends at it) starts a source at the later of the cursor
    and the clock, leaves the cursor at that start plus the duration of the
    fragment, puts the source in flight and sets the state to SPEAKING.
    Over a whole session that begins with the cursor at zero and sees no
    interruption, the sources started, in order, follow the schedule of the
    specification: the first starts at the clock of its enqueue, each later
    one at the later of the end of its predecessor and the clock of its
    enqueue; hence a fragment enqueued before its predecessor ended starts
    exactly at that end.  For variant B the clock readings are those of a
    clock that never runs backwards, and the [onended] callback of a source
    does not run before the source ends. *)
Theorem fragments_scheduled_back_to_back :
  (forall st now d,
      VariantA.isDeafened st = false ->
      let '(st', acts) := VariantA.onmessage (AudioFragment now d) st in
      let node := {| node_id := VariantA.nextNodeId st;
                     node_when := Z.max (VariantA.nextStartTimeRef st) now;
                     node_duration := d; node_clock := now |} in
      acts = [SourceStart node]
      /\ VariantA.nextStartTimeRef st' = node_when node + d
      /\ In node (VariantA.sourcesRef st')
      /\ VariantA.robotState st' = SPEAKING)
  /\ (forall st evs,
         VariantA.nextStartTimeRef st = 0 -> Forall TraceA.quiet evs ->
         spec_schedule None (started (snd (VariantA.run evs st)))
         /\ spec_gapless None (started (snd (VariantA.run evs st))))
  /\ (forall st clock now d,
         TraceB.anchored clock st -> clock <= now ->
         let '(st', acts) := VariantB.step (VariantB.Message (AudioFragment now d)) st in
         let node := {| node_id := VariantB.nextNodeId st;
                        node_when := Z.max (VariantB.nextStartTimeRef st) now;
                        node_duration := d; node_clock := now |} in
         started acts = [node]
         /\ VariantB.nextStartTimeRef st' = node_when node + d
         /\ In node (VariantB.sourcesRef st')
         /\ VariantB.robotState st' = SPEAKING)
  /\ (forall st evs,
         VariantB.nextStartTimeRef st = 0 -> TraceB.physical 0 st evs -> TraceB.quiet evs ->
         spec_schedule None (started (snd (VariantB.run evs st)))
         /\ spec_gapless None (started (snd (VariantB.run evs st)))).
Proof.
  split; [|split; [|split]].
  - intros st now d Hd. unfold VariantA.onmessage. rewrite Hd. cbn.
    splits; auto. apply in_or_app. right. left. reflexivity.
  - intros st evs H0 Hq.
    pose proof (FactsA.run_chain evs st Hq) as H.
    destruct (VariantA.run evs st) as [st' acts]. cbn [snd].
    destruct H as (C & _ & K). rewrite H0 in C. apply schedule_from_zero; auto.
  - intros st clock now d Ha Hc.
    pose proof (FactsB.anchor_spec now st clock (VariantB.nextStartTimeRef st) Hc
                  (RunsB.tracks_refl clock st) Ha) as (A1 & A2 & A3 & _).
    cbn [VariantB.step]. unfold VariantB.onmessage.
    cbn [toolCall modelTurn interrupted turnComplete AudioFragment VariantB.playParts].
    unfold VariantB.playPart, VariantB.playBuffer.
    cbn -[VariantB.anchor Z.max]. logs.
    assert (S0 : started (if RobotState_eqb (VariantB.robotStateRef st) SPEAKING
                          then [] else [PlayUISound UISpeech]) = []).
    { destruct (RobotState_eqb (VariantB.robotStateRef st) SPEAKING); reflexivity. }
    rewrite S0, A1, A2, A3. cbn. splits; auto.
    apply in_or_app. right. left. reflexivity.
  - intros st evs H0 Hp Hq.
    assert (Ha : TraceB.anchored 0 st) by (left; lia).
    pose proof (RunsB.run_chainB evs st 0 (VariantB.nextStartTimeRef st) (Z.le_refl 0)
                  Hp Hq (RunsB.tracks_refl 0 st) Ha) as [C K].
    rewrite H0 in C. apply schedule_from_zero; auto.
Qed.

Lemma fragments_scheduled_back_to_back_witness :
  VariantA.nextStartTimeRef Examples.A.listening = 0
  /\ Forall TraceA.quiet Examples.A.conversation
  /\ TraceB.physical 0 Examples.B.listening Examples.B.conversation
  /\ TraceB.quiet Examples.B.conversation
  /\ map node_when (started (snd (VariantA.run Examples.A.conversation Examples.A.listening)))
     = [3; 13; 40]
  /\ spec_schedule None
       (started (snd (VariantA.run Examples.A.conversation Examples.A.listening)))
  /\ spec_schedule None
       (started (snd (VariantB.run Examples.B.conversation Examples.B.listening)))
  /\ VariantA.robotState
       (fst (VariantA.onmessage (AudioFragment 3 10) Examples.A.listening)) = SPEAKING
  /\ TraceB.anchored 0 Examples.B.listening
  /\ map node_when
         (started (snd (VariantB.step (VariantB.Message (AudioFragment 3 10))
                                      Examples.B.listening))) = [3].
Proof.
  destruct fragments_scheduled_back_to_back as (H1 & H2 & H3 & H4).
  assert (QA : Forall TraceA.quiet Examples.A.conversation).
  { repeat constructor; cbn; lia. }
  assert (PB : TraceB.physical 0 Examples.B.listening Examples.B.conversation).
  { cbn. splits; auto; try lia; intros s Hs Hid;
      repeat (destruct Hs as [<-|Hs]; [cbn in *; try lia; try discriminate Hid|]);
      try contradiction. }
  assert (QB : TraceB.quiet Examples.B.conversation).
  { repeat constructor. }
  destruct (H2 Examples.A.listening Examples.A.conversation eq_refl QA) as [SA _].
  destruct (H4 Examples.B.listening Examples.B.conversation eq_refl PB QB) as [SB _].
  assert (AB : TraceB.anchored 0 Examples.B.listening) by (left; cbn; lia).
  assert (L3 : 0 <= 3) by lia.
  specialize (H1 Examples.A.listening 3 10 eq_refl).
  specialize (H3 Examples.B.listening 0 3 10 AB L3).
  destruct (VariantA.onmessage (AudioFragment 3 10) Examples.A.listening) as [s1 a1].
  destruct (VariantB.step (VariantB.Message (AudioFragment 3 10)) Examples.B.listening)
    as [s3 a3].
  destruct H1 as (_ & _ & _ & R1). destruct H3 as (R3 & _).
  splits; auto. cbn [snd]. rewrite R3. reflexivity.
Defined.

End Scheduling.

Section Cursor.

Lemma handleError_cursor err st :
  VariantA.nextStartTimeRef (fst (VariantA.handleError err st)) = VariantA.nextStartTimeRef st
  \/ VariantA.nextStartTimeRef (fst (VariantA.handleError err st)) = 0.
Proof.
  unfold VariantA.handleError. destruct (VariantA.classify err) as [m ty].
  destruct ty; unfold VariantA.stopSession, VariantA.addLog; cbn; auto.
Qed.

Lemma startSession_cursorA env k c st :
  let st' := fst (fst (VariantA.startSession env k c st)) in
  VariantA.nextStartTimeRef st' = VariantA.nextStartTimeRef st
  \/ VariantA.nextStartTimeRef st' = 0.
Proof.
  cbv zeta. unfold VariantA.startSession.
  destruct (apiKey env); cbn [negb].
  2:{ destruct (handleError_cursor {| name := "Error"; message := "API_KEY is missing." |} st)
        as [H|H];
      destruct (VariantA.handleError _ st) as [s a]; cbn [fst] in *; auto. }
  assert (H0 : exists st0 a0 ready,
             (if VariantA.closure_isInitialized c then (st, [], true)
              else VariantA.handleInitialization env st) = (st0, a0, ready)
             /\ (VariantA.nextStartTimeRef st0 = VariantA.nextStartTimeRef st
                 \/ VariantA.nextStartTimeRef st0 = 0)).
  { destruct (VariantA.closure_isInitialized c); [exists st, [], true; auto|].
    unfold VariantA.handleInitialization. destruct (permissions env) as [err|].
    - set (s0 := VariantA.setErrorDetail None (VariantA.setRobotState CONNECTING st)).
      destruct (handleError_cursor err s0) as [H|H];
        destruct (VariantA.handleError err s0) as [s a]; cbn [fst] in *;
        eexists _, _, _; split; try reflexivity; auto.
    - eexists _, _, _; split; try reflexivity; auto. }
  destruct H0 as (st0 & a0 & ready & -> & C0).
  destruct ready; cbn [negb]; [|cbn [fst]; tauto].
  destruct (audioContexts env) as [e|].
  { destruct (handleError_cursor e st0) as [H|H];
      destruct (VariantA.handleError e st0) as [s a]; cbn [fst] in *; [|auto].
    rewrite H. tauto. }
  destruct (connect env) as [err|].
  - destruct (Nat.ltb k VariantA.MAX_RETRIES); [cbn; auto|].
    set (s1 := VariantA.set_nextStartTimeRef 0 _).
    destruct (handleError_cursor err s1) as [H|H];
      destruct (VariantA.handleError err s1) as [s a]; cbn [fst] in *; auto.
  - unfold VariantA.onopen, VariantA.speakText, VariantA.addLog.
    change (String.eqb "NEURAL LINK ESTABLISHED." "") with false. cbv iota.
    destruct (String.eqb VariantA.GREETING_TEXT "" || _); cbn; auto.
Qed.

Lemma startSession_cursorB env k c st :
  let st' := fst (fst (VariantB.startSession env k c st)) in
  VariantB.nextStartTimeRef st' = VariantB.nextStartTimeRef st
  \/ VariantB.nextStartTimeRef st' = 0.
Proof.
  cbv zeta. unfold VariantB.startSession, VariantB.handleInitialization.
  destruct (apiKey env); cbn [negb]; [|cbn; auto].
  destruct (audioContexts env); [cbn; auto|].
  destruct (VariantB.closure_isInitialized c); cbn [negb].
  - destruct (connect env); [|cbn; auto].
    destruct (Nat.ltb k VariantB.MAX_RETRIES); cbn; auto.
  - destruct (permissions env); cbn; auto.
Qed.

(** C8.  In a running session every step leaves the cursor where it was or
    moves it forward, except the handling of a message flagged
    [interrupted], which may only set it to zero.  Apart from that the
    cursor is set to zero by [stopSession], and by [startSession] (which
    otherwise leaves it alone; the greeting of variant A is scheduled
    later, by a step of the session).  Decoded durations are not negative;
    for variant B the session
    starts with the cursor at zero, clock readings never decrease, and the
    [onended] callback of a source does not run before the source ends. *)
Theorem cursor_only_reset_by_interruption :
  (forall st evs,
      Forall TraceA.sane evs ->
      Forall (fun '(ev, c, c') => c <= c' \/ (TraceA.isReset ev = true /\ c' = 0))
             (TraceA.cursor_log evs st))
  /\ (forall st evs,
         VariantB.nextStartTimeRef st = 0 -> TraceB.physical 0 st evs ->
         Forall (fun '(ev, c, c') => c <= c' \/ (TraceB.isReset ev = true /\ c' = 0))
                (TraceB.cursor_log evs st))
  /\ (forall st, VariantA.nextStartTimeRef (fst (VariantA.stopSession st)) = 0)
  /\ (forall st, VariantB.nextStartTimeRef (fst (VariantB.stopSession st)) = 0)
  /\ (forall env k c st,
         let st' := fst (fst (VariantA.startSession env k c st)) in
         VariantA.nextStartTimeRef st' = VariantA.nextStartTimeRef st
         \/ VariantA.nextStartTimeRef st' = 0)
  /\ (forall env k c st,
         let st' := fst (fst (VariantB.startSession env k c st)) in
         VariantB.nextStartTimeRef st' = VariantB.nextStartTimeRef st
         \/ VariantB.nextStartTimeRef st' = 0).
Proof.
  splits.
  - intros st evs Hs. apply RunsA.run_monotone. exact Hs.
  - intros st evs H0 Hp. apply (RunsB.run_monotoneB evs st 0); auto; [lia|].
    left. lia.
  - intros st. unfold VariantA.stopSession, VariantA.addLog. reflexivity.
  - intros st. reflexivity.
  - apply startSession_cursorA.
  - apply startSession_cursorB.
Qed.

Lemma cursor_only_reset_by_interruption_witness :
  Forall TraceA.sane (Examples.A.conversation ++ [VariantA.Message Interrupted])
  /\ TraceB.physical 0 Examples.B.listening
       (Examples.B.conversation ++ [VariantB.Message Interrupted])
  /\ map (fun x => (snd (fst x), snd x))
         (TraceA.cursor_log (Examples.A.conversation ++ [VariantA.Message Interrupted])
                            Examples.A.listening)
     = [(0, 13); (13, 13); (13, 23); (23, 23); (23, 42); (42, 0)]
  /\ Forall (fun '(ev, c, c') => c <= c' \/ (TraceB.isReset ev = true /\ c' = 0))
            (TraceB.cursor_log (Examples.B.conversation ++ [VariantB.Message Interrupted])
                               Examples.B.listening).
Proof.
  destruct cursor_only_reset_by_interruption as (HA & HB & _).
  assert (SA : Forall TraceA.sane (Examples.A.conversation ++ [VariantA.Message Interrupted])).
  { repeat constructor; cbn; lia. }
  assert (PB : TraceB.physical 0 Examples.B.listening
                 (Examples.B.conversation ++ [VariantB.Message Interrupted])).
  { cbn. splits; auto; try lia; intros s Hs Hid;
      repeat (destruct Hs as [<-|Hs]; [cbn in *; try lia; try discriminate Hid|]);
      try contradiction. }
  pose proof (HA Examples.A.listening _ SA) as RA.
  pose proof (HB Examples.B.listening _ eq_refl PB) as RB.
  splits; auto.
Defined.

End Cursor.

(** ** Further properties: the log *)

Section Log.

Lemma spoken_app h1 h2 : spoken h1 -> spoken h2 -> spoken (h1 ++ h2).
Proof. unfold spoken. intros H1 H2. apply Forall_app. auto. Qed.

Lemma spoken_turnEntry t s : spoken (turnEntry t s).
Proof.
  unfold spoken, turnEntry. destruct (String.eqb_spec s ""); constructor; auto.
Qed.

Lemma addLog_history t txt st :
  VariantA.history (VariantA.addLog t txt st) = VariantA.history st ++ turnEntry t txt.
Proof.
  unfold VariantA.addLog, turnEntry. destruct (String.eqb txt ""); cbn;
    rewrite ?app_nil_r; reflexivity.
Qed.

Lemma handleToolCall_historyA calls st :
  VariantA.history (fst (VariantA.handleToolCall calls st)) = VariantA.history st.
Proof.
  revert st. induction calls as [|fc rest IH]; intros st; cbn [VariantA.handleToolCall].
  { reflexivity. }
  destruct (String.eqb (fc_name fc) VariantA.update_spark_mood); [|apply IH].
  specialize (IH (VariantA.setMood (arg_mood (fc_args fc)) st)).
  destruct (VariantA.handleToolCall rest _) as [st' acts]. exact IH.
Qed.

Lemma playParts_historyA parts st :
  VariantA.history (fst (fst (VariantA.playParts parts st))) = VariantA.history st.
Proof.
  revert st. induction parts as [|p rest IH]; intros st; cbn [VariantA.playParts].
  { reflexivity. }
  destruct p as [|now [d|]]; [apply IH| |reflexivity].
  specialize (IH (fst (VariantA.playBuffer now d st))).
  destruct (VariantA.playBuffer now d st) as [st1 a1] eqn:E.
  assert (H1 : VariantA.history st1 = VariantA.history st).
  { unfold VariantA.playBuffer in E. inversion E. reflexivity. }
  cbn [fst] in IH. destruct (VariantA.playParts rest st1) as [[st2 a2] ok].
  cbn [fst] in *. congruence.
Qed.

Lemma stopSession_historyA st :
  VariantA.history (fst (VariantA.stopSession st))
  = VariantA.history st ++ [{| type := system; text := "NEURAL LINK DEACTIVATED." |}].
Proof. reflexivity. Qed.

Lemma handleError_historyA err st :
  exists suffix,
    VariantA.history (fst (VariantA.handleError err st)) = VariantA.history st ++ suffix
    /\ spoken suffix /\ suffix <> [].
Proof.
  unfold VariantA.handleError. destruct (VariantA.classify err) as [m ty].
  destruct ty; cbn.
  - eexists. rewrite <- app_assoc. split; [reflexivity|]. split.
    + repeat constructor; cbn; discriminate.
    + discriminate.
  - eexists. split; [reflexivity|]. split.
    + repeat constructor; cbn; discriminate.
    + discriminate.
Qed.

Lemma onmessage_historyA msg st :
  exists suffix,
    VariantA.history (fst (VariantA.onmessage msg st)) = VariantA.history st ++ suffix
    /\ spoken suffix.
Proof.
  unfold VariantA.onmessage. destruct (VariantA.isDeafened st).
  { exists []. rewrite app_nil_r. split; [reflexivity | constructor]. }
  set (st0 := VariantA.accumulate msg st).
  assert (H0 : VariantA.history st0 = VariantA.history st).
  { unfold st0, VariantA.accumulate.
    destruct (outputTranscription msg), (inputTranscription msg); reflexivity. }
  set (st1 := if turnComplete msg then VariantA.flushTurn st0 else st0).
  assert (H1 : exists suffix, VariantA.history st1 = VariantA.history st ++ suffix
                              /\ spoken suffix).
  { unfold st1. destruct (turnComplete msg).
    - destruct (flushTurnA st0) as (F & _). rewrite F, H0. eexists. split; [reflexivity|].
      apply spoken_app; apply spoken_turnEntry.
    - exists []. rewrite app_nil_r. split; [exact H0 | constructor]. }
  destruct H1 as (suffix & H1 & Hs). exists suffix. split; [|exact Hs].
  rewrite <- H1.
  assert (H2 : VariantA.history (fst (match toolCall msg with
                                      | Some calls => VariantA.handleToolCall calls st1
                                      | None => (st1, [])
                                      end)) = VariantA.history st1).
  { destruct (toolCall msg); [apply handleToolCall_historyA | reflexivity]. }
  destruct (match toolCall msg with
            | Some calls => VariantA.handleToolCall calls st1
            | None => (st1, [])
            end) as [st2 a2]. cbn [fst] in H2.
  assert (H3 : VariantA.history (fst (fst (match modelTurn msg with
                                           | Some parts => VariantA.playParts parts st2
                                           | None => (st2, [], true)
                                           end))) = VariantA.history st2).
  { destruct (modelTurn msg); [apply playParts_historyA | reflexivity]. }
  destruct (match modelTurn msg with
            | Some parts => VariantA.playParts parts st2
            | None => (st2, [], true)
            end) as [[st3 a3] ok]. cbn [fst] in H3.
  destruct (ok && interrupted msg); cbn; congruence.
Qed.

Lemma step_historyA ev st :
  exists suffix,
    VariantA.history (fst (VariantA.step ev st)) = VariantA.history st ++ suffix
    /\ spoken suffix.
Proof.
  destruct ev as [|now d|msg|id|inputData| |]; cbn [VariantA.step].
  - unfold VariantA.onopen, VariantA.speakText.
    set (st0 := VariantA.addLog system "NEURAL LINK ESTABLISHED."
                  (VariantA.setRobotState LISTENING st)).
    assert (H0 : VariantA.history st0
                 = VariantA.history st
                   ++ [{| type := system; text := "NEURAL LINK ESTABLISHED." |}])
      by reflexivity.
    destruct (String.eqb VariantA.GREETING_TEXT "" || VariantA.isDeafened st0);
      (eexists; split; [exact H0|]; repeat constructor; cbn; discriminate).
  - unfold VariantA.speakText_resolved, VariantA.playBuffer. cbn [fst].
    rewrite addLog_history. eexists. split; [reflexivity|]. apply spoken_turnEntry.
  - apply onmessage_historyA.
  - exists []. rewrite app_nil_r. split; [|constructor].
    unfold VariantA.onended. cbn.
    destruct (delete id (VariantA.sourcesRef st)); reflexivity.
  - exists []. rewrite app_nil_r. split; [|constructor].
    unfold VariantA.onaudioprocess.
    destruct (RobotState_eqb (VariantA.robotState st) IDLE); [reflexivity|].
    destruct (negb (VariantA.isMuted st)); [|reflexivity].
    destruct (RobotState_eqb (VariantA.robotState st) LISTENING); reflexivity.
  - exists []. rewrite app_nil_r. split; [reflexivity | constructor].
  - exists []. rewrite app_nil_r. split; [|constructor].
    unfold VariantA.toggleDeafened, VariantA.useEffect_isDeafened. cbn.
    destruct (negb (VariantA.isDeafened st)); reflexivity.
Qed.

Lemma handleToolCall_historyB calls st :
  exists suffix,
    VariantB.history (fst (VariantB.handleToolCall calls st)) = VariantB.history st ++ suffix.
Proof.
  revert st. induction calls as [|fc rest IH]; intros st; cbn [VariantB.handleToolCall].
  { exists []. rewrite app_nil_r. reflexivity. }
  assert (H1 : exists s1, VariantB.history (fst (VariantB.handleFunctionCall fc st))
                          = VariantB.history st ++ s1).
  { unfold VariantB.handleFunctionCall.
    destruct (String.eqb (fc_name fc) VariantB.update_sparky_mood);
      destruct (String.eqb (fc_name fc) VariantB.report_faces); cbn;
      eexists; try reflexivity; rewrite app_nil_r; reflexivity. }
  destruct (VariantB.handleFunctionCall fc st) as [st1 a1]. cbn [fst] in H1.
  destruct H1 as [s1 H1]. destruct (IH st1) as [s2 H2].
  destruct (VariantB.handleToolCall rest st1) as [st2 a2]. cbn [fst] in *.
  exists (s1 ++ s2). rewrite H2, H1, app_assoc. reflexivity.
Qed.

Lemma playParts_historyB parts st :
  VariantB.history (fst (VariantB.playParts parts st)) = VariantB.history st.
Proof.
  revert st. induction parts as [|p rest IH]; intros st; cbn [VariantB.playParts].
  { reflexivity. }
  destruct p as [|now decoded]; [apply IH|].
  assert (H1 : VariantB.history (fst (VariantB.playPart now decoded st))
               = VariantB.history st).
  { unfold VariantB.playPart, VariantB.playBuffer, VariantB.anchor.
    destruct decoded; destruct (VariantB.sourcesRef st);
      try destruct (VariantB.nextStartTimeRef st <? now); reflexivity. }
  destruct (VariantB.playPart now decoded st) as [st1 a1]. cbn [fst] in H1.
  specialize (IH st1). destruct (VariantB.playParts rest st1) as [st2 a2].
  cbn [fst] in *. congruence.
Qed.

Lemma step_historyB ev st :
  exists suffix, VariantB.history (fst (VariantB.step ev st)) = VariantB.history st ++ suffix.
Proof.
  destruct ev as [msg|now id|inputData|txt thrown|]; cbn [VariantB.step].
  - unfold VariantB.onmessage.
    assert (H1 : exists s1,
               VariantB.history (fst (match toolCall msg with
                                      | Some calls => VariantB.handleToolCall calls st
                                      | None => (st, [])
                                      end)) = VariantB.history st ++ s1).
    { destruct (toolCall msg); [apply handleToolCall_historyB|].
      exists []. rewrite app_nil_r. reflexivity. }
    destruct (match toolCall msg with
              | Some calls => VariantB.handleToolCall calls st
              | None => (st, [])
              end) as [st1 a1]. cbn [fst] in H1. destruct H1 as [s1 H1].
    assert (H2 : VariantB.history (fst (match modelTurn msg with
                                        | Some parts => VariantB.playParts parts st1
                                        | None => (st1, [])
                                        end)) = VariantB.history st1).
    { destruct (modelTurn msg); [apply playParts_historyB | reflexivity]. }
    destruct (match modelTurn msg with
              | Some parts => VariantB.playParts parts st1
              | None => (st1, [])
              end) as [st2 a2]. cbn [fst] in H2.
    set (r := if interrupted msg then VariantB.interrupt st2 else (st2, [])).
    assert (H3 : VariantB.history (fst r) = VariantB.history st2).
    { unfold r. destruct (interrupted msg); reflexivity. }
    destruct r as [st3 a3]. cbn [fst] in H3.
    set (st4 := VariantB.accumulate msg st3).
    assert (H4 : VariantB.history st4 = VariantB.history st3).
    { unfold st4, VariantB.accumulate.
      destruct (inputTranscription msg), (outputTranscription msg); reflexivity. }
    destruct (turnComplete msg).
    + destruct (flushTurnB st4) as (F & _). cbn [fst].
      rewrite F, H4, H3, H2, H1. eexists. rewrite <- app_assoc. reflexivity.
    + cbn [fst]. rewrite H4, H3, H2, H1. eexists. reflexivity.
  - exists []. rewrite app_nil_r. unfold VariantB.onended. cbn.
    destruct (delete id (VariantB.sourcesRef st)); reflexivity.
  - exists []. rewrite app_nil_r. unfold VariantB.onaudioprocess.
    destruct (RobotState_eqb (VariantB.robotStateRef st) IDLE); [reflexivity|].
    destruct (RobotState_eqb (VariantB.robotStateRef st) LISTENING); reflexivity.
  - unfold VariantB.handleSendMessage. destruct (VariantB.sessionRef st).
    + destruct thrown; [exists []; rewrite app_nil_r; reflexivity|].
      eexists. reflexivity.
    + exists []. rewrite app_nil_r. reflexivity.
  - exists []. rewrite app_nil_r. reflexivity.
Qed.

(** X1.  The transcript log is append-only.  Whatever a running session
    handles, in either variant, the log afterwards is the log before with
    entries added at the end; in variant A, where every entry goes through
    [addLog], none of the added entries has an empty text, and the same
    holds for a teardown and for an error report. *)
Theorem log_is_append_only :
  (forall evs st,
      exists suffix,
        grows (VariantA.history st) (VariantA.history (fst (VariantA.run evs st))) suffix
        /\ spoken suffix)
  /\ (forall evs st,
         exists suffix,
           grows (VariantB.history st) (VariantB.history (fst (VariantB.run evs st))) suffix)
  /\ (forall st,
         exists suffix,
           grows (VariantA.history st) (VariantA.history (fst (VariantA.stopSession st)))
                 suffix /\ spoken suffix)
  /\ (forall err st,
         exists suffix,
           grows (VariantA.history st)
                 (VariantA.history (fst (VariantA.handleError err st))) suffix
           /\ spoken suffix /\ suffix <> []).
Proof.
  unfold grows. splits.
  - induction evs as [|ev rest IH]; intros st; cbn [VariantA.run].
    { exists []. rewrite app_nil_r. split; [reflexivity | constructor]. }
    destruct (step_historyA ev st) as (s1 & H1 & S1).
    destruct (VariantA.step ev st) as [st1 a1]. cbn [fst] in H1.
    destruct (IH st1) as (s2 & H2 & S2).
    destruct (VariantA.run rest st1) as [st2 a2]. cbn [fst] in *.
    exists (s1 ++ s2). rewrite H2, H1, app_assoc. split; [reflexivity|].
    apply spoken_app; assumption.
  - induction evs as [|ev rest IH]; intros st; cbn [VariantB.run].
    { exists []. rewrite app_nil_r. reflexivity. }
    destruct (step_historyB ev st) as (s1 & H1).
    destruct (VariantB.step ev st) as [st1 a1]. cbn [fst] in H1.
    destruct (IH st1) as (s2 & H2).
    destruct (VariantB.run rest st1) as [st2 a2]. cbn [fst] in *.
    exists (s1 ++ s2). rewrite H2, H1, app_assoc. reflexivity.
  - intros st. eexists. split; [apply stopSession_historyA|].
    repeat constructor; cbn; discriminate.
  - intros err st. apply handleError_historyA.
Qed.

End Log.

(** ** Further properties: errors, start and teardown *)

Section Lifecycle.

(** X2.  [handleError] of variant A either tears the session down or leaves
    it running, by the class of the error.  A critical error closes the
    session it holds, stops every source in flight exactly once, empties
    the in-flight set, clears the active flag, resets the cursor and ends
    in ERROR with the message on display; a warning only puts the message on
    display and plays the error sound: playback, state, session and cursor
    stay as they were. *)
Theorem error_class_decides_teardown (err : JsError) (st : VariantA.State) :
  let '(st', acts) := VariantA.handleError err st in
  (snd (VariantA.classify err) = critical ->
     stopped acts = VariantA.sourcesRef st
     /\ (VariantA.sessionRef st = true -> In SessionClose acts)
     /\ VariantA.sourcesRef st' = []
     /\ VariantA.sessionRef st' = false
     /\ VariantA.isActive st' = false
     /\ VariantA.nextStartTimeRef st' = 0
     /\ VariantA.robotState st' = ERROR
     /\ VariantA.errorDetail st'
        = Some {| detail_message := fst (VariantA.classify err); detail_type := critical |})
  /\ (snd (VariantA.classify err) = warning ->
        acts = [PlayUISound UIError]
        /\ VariantA.sourcesRef st' = VariantA.sourcesRef st
        /\ VariantA.sessionRef st' = VariantA.sessionRef st
        /\ VariantA.isActive st' = VariantA.isActive st
        /\ VariantA.nextStartTimeRef st' = VariantA.nextStartTimeRef st
        /\ VariantA.robotState st' = VariantA.robotState st
        /\ VariantA.errorDetail st'
           = Some {| detail_message := fst (VariantA.classify err);
                     detail_type := warning |}).
Proof.
  unfold VariantA.handleError. destruct (VariantA.classify err) as [m ty].
  destruct ty; cbn [fst snd]; split; intros H; try discriminate H.
  - unfold VariantA.stopSession, VariantA.addLog. cbn. logs.
    destruct (VariantA.sessionRef st); cbn; logs; splits; auto.
    intros H0. discriminate H0.
  - unfold VariantA.addLog. cbn. splits; auto.
Qed.

Lemma error_class_decides_teardown_witness :
  snd (VariantA.classify {| name := "NotAllowedError"; message := "Permission denied" |})
  = critical
  /\ snd (VariantA.classify {| name := "NotAllowedError";
                               message := "getUserMedia is not supported" |}) = warning
  /\ VariantA.sourcesRef Examples.A.playing <> []
  /\ VariantA.sourcesRef
       (fst (VariantA.handleError
               {| name := "NotAllowedError"; message := "Permission denied" |}
               Examples.A.playing)) = []
  /\ VariantA.sourcesRef
       (fst (VariantA.handleError
               {| name := "NotAllowedError"; message := "getUserMedia is not supported" |}
               Examples.A.playing)) = VariantA.sourcesRef Examples.A.playing.
Proof.
  pose proof (error_class_decides_teardown
                {| name := "NotAllowedError"; message := "Permission denied" |}
                Examples.A.playing) as H1.
  pose proof (error_class_decides_teardown
                {| name := "NotAllowedError"; message := "getUserMedia is not supported" |}
                Examples.A.playing) as H2.
  destruct (VariantA.handleError
              {| name := "NotAllowedError"; message := "Permission denied" |}
              Examples.A.playing) as [s1 a1].
  destruct (VariantA.handleError
              {| name := "NotAllowedError"; message := "getUserMedia is not supported" |}
              Examples.A.playing) as [s2 a2].
  destruct H1 as [H1 _]. destruct H2 as [_ H2].
  destruct (H1 eq_refl) as (_ & _ & C3 & _). destruct (H2 eq_refl) as (_ & W2 & _).
  splits; try reflexivity; auto. vm_compute. discriminate.
Defined.

(** X3.  Without an API key [startSession] never reaches the connection:
    no timer is set and no session is held afterwards.  Variant A reports a
    critical configuration error, which tears down whatever was playing and
    ends in ERROR with the active flag clear; variant B only sets ERROR and
    the message, and leaves the in-flight set, the cursor and the active
    flag as they were. *)
Theorem missing_key_never_connects (env : Attempt) (k : nat) :
  apiKey env = false ->
  (forall c st,
      let '(st', acts, next) := VariantA.startSession env k c st in
      next = None /\ timers acts = []
      /\ VariantA.robotState st' = ERROR
      /\ VariantA.errorDetail st'
         = Some {| detail_message := "Configuration error: Invalid Key.";
                   detail_type := critical |}
      /\ VariantA.isActive st' = false
      /\ VariantA.sessionRef st' = false
      /\ stopped acts = VariantA.sourcesRef st
      /\ VariantA.sourcesRef st' = [])
  /\ (forall c st,
         let '(st', acts, next) := VariantB.startSession env k c st in
         next = None /\ acts = [PlayUISound UIError]
         /\ VariantB.robotState st' = ERROR
         /\ (exists m, VariantB.errorDetail st'
                       = Some {| detail_message := m; detail_type := critical |})
         /\ VariantB.isActive st' = VariantB.isActive st
         /\ VariantB.sessionRef st' = VariantB.sessionRef st
         /\ VariantB.sourcesRef st' = VariantB.sourcesRef st
         /\ VariantB.nextStartTimeRef st' = VariantB.nextStartTimeRef st).
Proof.
  intros Hk. split; intros c st.
  - unfold VariantA.startSession. rewrite Hk. cbn [negb].
    set (err := {| name := "Error"; message := "API_KEY is missing." |}).
    pose proof (error_class_decides_teardown err st) as H.
    pose proof (handleError_report err st) as R.
    destruct (VariantA.handleError err st) as [st' acts].
    destruct H as [H _]. destruct (H eq_refl) as (H1 & _ & H3 & H4 & H5 & _ & H7 & H8).
    destruct R as (R1 & _). splits; auto.
  - unfold VariantB.startSession. rewrite Hk. cbn. splits; auto.
    eexists. reflexivity.
Qed.

Lemma missing_key_never_connects_witness :
  VariantA.robotState
    (fst (fst (VariantA.startSession
                 {| apiKey := false; permissions := None; audioContexts := None;
                    connect := None; random := 0%Q |}
                 0 (VariantA.render Examples.A.playing) Examples.A.playing))) = ERROR
  /\ VariantB.sourcesRef
       (fst (fst (VariantB.startSession
                    {| apiKey := false; permissions := None; audioContexts := None;
                       connect := None; random := 0%Q |}
                    0 (VariantB.render Examples.B.playing) Examples.B.playing)))
     = VariantB.sourcesRef Examples.B.playing.
Proof.
  destruct (missing_key_never_connects
              {| apiKey := false; permissions := None; audioContexts := None;
                 connect := None; random := 0%Q |} 0 eq_refl) as [HA HB].
  specialize (HA (VariantA.render Examples.A.playing) Examples.A.playing).
  specialize (HB (VariantB.render Examples.B.playing) Examples.B.playing).
  destruct (VariantA.startSession _ 0 _ Examples.A.playing) as [[sa aa] na].
  destruct (VariantB.startSession _ 0 _ Examples.B.playing) as [[sb ab] nb].
  destruct HA as (_ & _ & A3 & _). destruct HB as (_ & _ & _ & _ & _ & _ & B7 & _).
  split; assumption.
Defined.

(** X4.  In variant B a wake-up before the hardware was authorised only
    asks for the authorisation: whatever the connection would have done, the
    run holds no session afterwards that it did not hold before, sets no
    timer, and leaves the active flag alone.  If access is granted the
    component is initialised and back in IDLE; if it is refused the state is
    ERROR with a critical message and the component stays uninitialised.
    Variant A goes on in the same run: once access is granted and the
    connection opens, it holds the session and is active. *)
Theorem first_wake_up_only_authorises (env : Attempt) (k : nat) :
  apiKey env = true -> audioContexts env = None ->
  (forall st,
      VariantB.isInitialized st = false ->
      let '(st', acts, next) := VariantB.startSession env k (VariantB.render st) st in
      next = None /\ timers acts = []
      /\ VariantB.sessionRef st' = VariantB.sessionRef st
      /\ VariantB.isActive st' = VariantB.isActive st
      /\ (permissions env = None ->
          VariantB.isInitialized st' = true /\ VariantB.robotState st' = IDLE)
      /\ (permissions env <> None ->
          VariantB.isInitialized st' = false /\ VariantB.robotState st' = ERROR
          /\ exists m, VariantB.errorDetail st'
                       = Some {| detail_message := m; detail_type := critical |}))
  /\ (forall st,
         VariantA.isInitialized st = false ->
         permissions env = None -> connect env = None ->
         let '(st', acts, next) := VariantA.startSession env k (VariantA.render st) st in
         next = None
         /\ VariantA.isInitialized st' = true
         /\ VariantA.sessionRef st' = true
         /\ VariantA.isActive st' = true
         /\ VariantA.errorDetail st' = None).
Proof.
  intros Hk Ha. split; intros st Hi.
  - unfold VariantB.startSession, VariantB.handleInitialization, VariantB.render.
    cbn [VariantB.closure_isInitialized]. rewrite Hk, Ha, Hi. cbn [negb].
    destruct (permissions env) as [err|]; cbn; splits; auto;
      try (intros H; discriminate H); try (intros H; contradiction).
    + intros _. splits; auto. eexists. reflexivity.
  - intros Hp Hc.
    unfold VariantA.startSession, VariantA.handleInitialization, VariantA.render.
    cbn [VariantA.closure_isInitialized]. rewrite Hk, Ha, Hi, Hp, Hc. cbn [negb].
    unfold VariantA.onopen, VariantA.speakText, VariantA.addLog.
    cbn; destruct (VariantA.isDeafened st); cbn; splits; auto.
Qed.

Lemma first_wake_up_only_authorises_witness :
  VariantB.isInitialized VariantB.initial = false
  /\ VariantB.sessionRef
       (fst (fst (VariantB.startSession Examples.available 0
                    (VariantB.render VariantB.initial) VariantB.initial))) = false
  /\ VariantB.robotState
       (fst (fst (VariantB.startSession Examples.available 0
                    (VariantB.render VariantB.initial) VariantB.initial))) = IDLE
  /\ VariantA.sessionRef
       (fst (fst (VariantA.startSession Examples.available 0
                    (VariantA.render VariantA.initial) VariantA.initial))) = true.
Proof.
  destruct (first_wake_up_only_authorises Examples.available 0 eq_refl eq_refl) as [HB HA].
  specialize (HB VariantB.initial eq_refl).
  specialize (HA VariantA.initial eq_refl eq_refl eq_refl).
  destruct (VariantB.startSession Examples.available 0 _ VariantB.initial) as [[sb ab] nb].
  destruct (VariantA.startSession Examples.available 0 _ VariantA.initial) as [[sa aa] na].
  destruct HB as (_ & _ & B3 & _ & B5 & _). destruct (B5 eq_refl) as [_ B6].
  destruct HA as (_ & _ & A3 & _).
  split; [reflexivity|]. splits; auto.
Defined.

End Lifecycle.

(** ** Further properties: state and playback *)

Section SpeakingState.

Lemma accumulate_viewA msg st :
  VariantA.robotState (VariantA.accumulate msg st) = VariantA.robotState st
  /\ VariantA.sourcesRef (VariantA.accumulate msg st) = VariantA.sourcesRef st.
Proof.
  unfold VariantA.accumulate.
  destruct (outputTranscription msg), (inputTranscription msg); auto.
Qed.

Lemma flushTurn_viewA st :
  VariantA.robotState (VariantA.flushTurn st) = VariantA.robotState st
  /\ VariantA.sourcesRef (VariantA.flushTurn st) = VariantA.sourcesRef st.
Proof.
  unfold VariantA.flushTurn, VariantA.addLog.
  destruct (String.eqb (VariantA.liveInput st) ""); cbn;
    destruct (String.eqb (VariantA.liveOutput st) ""); cbn; auto.
Qed.

Lemma handleToolCall_viewA calls st :
  VariantA.robotState (fst (VariantA.handleToolCall calls st)) = VariantA.robotState st
  /\ VariantA.sourcesRef (fst (VariantA.handleToolCall calls st)) = VariantA.sourcesRef st.
Proof.
  revert st. induction calls as [|fc rest IH]; intros st; cbn [VariantA.handleToolCall].
  { auto. }
  destruct (String.eqb (fc_name fc) VariantA.update_spark_mood); [|apply IH].
  specialize (IH (VariantA.setMood (arg_mood (fc_args fc)) st)).
  destruct (VariantA.handleToolCall rest _) as [st' acts]. exact IH.
Qed.

Lemma playParts_viewA parts st :
  MoreA.speakingWhilePlaying st ->
  MoreA.speakingWhilePlaying (fst (fst (VariantA.playParts parts st))).
Proof.
  revert st. induction parts as [|p rest IH]; intros st Hs; cbn [VariantA.playParts].
  { exact Hs. }
  destruct p as [|now [d|]]; [apply IH; exact Hs| |exact Hs].
  assert (H1 : MoreA.speakingWhilePlaying (fst (VariantA.playBuffer now d st))).
  { unfold MoreA.speakingWhilePlaying, VariantA.playBuffer. cbn.
    split; [intros _ | reflexivity].
    destruct (VariantA.sourcesRef st); discriminate. }
  destruct (VariantA.playBuffer now d st) as [st1 a1]. cbn [fst] in H1.
  specialize (IH st1 H1). destruct (VariantA.playParts rest st1) as [[st2 a2] ok].
  exact IH.
Qed.

Lemma onended_viewA id st :
  MoreA.speakingWhilePlaying st -> MoreA.speakingWhilePlaying (VariantA.onended id st).
Proof.
  unfold MoreA.speakingWhilePlaying, VariantA.onended. cbn. intros [H1 H2].
  destruct (delete id (VariantA.sourcesRef st)) as [|n l] eqn:E; cbn.
  - split; [intros H; discriminate H | intros H; contradiction].
  - split; [intros _; discriminate |]. intros _. apply H2. intros Hn.
    rewrite Hn in E. discriminate E.
Qed.

Lemma step_viewA ev st :
  MoreA.inSession ev = true ->
  MoreA.speakingWhilePlaying st -> MoreA.speakingWhilePlaying (fst (VariantA.step ev st)).
Proof.
  intros Hin Hs. destruct ev as [|now d|msg|id|inputData| |]; cbn [VariantA.step fst].
  - discriminate Hin.
  - unfold VariantA.speakText_resolved, VariantA.playBuffer, VariantA.addLog,
      MoreA.speakingWhilePlaying.
    destruct (String.eqb VariantA.GREETING_TEXT ""); cbn;
      (split; [intros _; intros H; destruct (VariantA.sourcesRef st); discriminate H
              | reflexivity]).
  - unfold VariantA.onmessage. destruct (VariantA.isDeafened st); [exact Hs|].
    set (st1 := if turnComplete msg then _ else _).
    assert (H1 : MoreA.speakingWhilePlaying st1).
    { unfold st1, MoreA.speakingWhilePlaying in *.
      destruct (accumulate_viewA msg st) as [A1 A2].
      destruct (flushTurn_viewA (VariantA.accumulate msg st)) as [F1 F2].
      destruct (turnComplete msg); rewrite ?F1, ?F2, A1, A2; exact Hs. }
    assert (H2 : MoreA.speakingWhilePlaying
                   (fst (match toolCall msg with
                         | Some calls => VariantA.handleToolCall calls st1
                         | None => (st1, [])
                         end))).
    { destruct (toolCall msg) as [calls|]; [|exact H1].
      destruct (handleToolCall_viewA calls st1) as [T1 T2].
      unfold MoreA.speakingWhilePlaying in *. rewrite T1, T2. exact H1. }
    destruct (match toolCall msg with
              | Some calls => VariantA.handleToolCall calls st1
              | None => (st1, [])
              end) as [st2 a2]. cbn [fst] in H2.
    assert (H3 : MoreA.speakingWhilePlaying
                   (fst (fst (match modelTurn msg with
                              | Some parts => VariantA.playParts parts st2
                              | None => (st2, [], true)
                              end)))).
    { destruct (modelTurn msg); [apply playParts_viewA; exact H2 | exact H2]. }
    destruct (match modelTurn msg with
              | Some parts => VariantA.playParts parts st2
              | None => (st2, [], true)
              end) as [[st3 a3] ok]. cbn [fst] in H3.
    destruct (ok && interrupted msg); [|exact H3].
    unfold MoreA.speakingWhilePlaying. cbn.
    split; [intros H; discriminate H | intros H; contradiction].
  - apply onended_viewA. exact Hs.
  - unfold VariantA.onaudioprocess, MoreA.speakingWhilePlaying in *.
    destruct (RobotState_eqb (VariantA.robotState st) IDLE); [exact Hs|].
    destruct (negb (VariantA.isMuted st)); [|exact Hs].
    destruct (RobotState_eqb (VariantA.robotState st) LISTENING); exact Hs.
  - exact Hs.
  - unfold VariantA.toggleDeafened, VariantA.useEffect_isDeafened. cbn.
    destruct (negb (VariantA.isDeafened st)); cbn; [|exact Hs].
    unfold MoreA.speakingWhilePlaying. cbn.
    split; [intros H; discriminate H | intros H; contradiction].
Qed.

Lemma handleToolCall_viewB calls st :
  VariantB.robotState (fst (VariantB.handleToolCall calls st)) = VariantB.robotState st
  /\ VariantB.sourcesRef (fst (VariantB.handleToolCall calls st)) = VariantB.sourcesRef st.
Proof.
  revert st. induction calls as [|fc rest IH]; intros st; cbn [VariantB.handleToolCall].
  { auto. }
  assert (H1 : VariantB.robotState (fst (VariantB.handleFunctionCall fc st))
               = VariantB.robotState st
               /\ VariantB.sourcesRef (fst (VariantB.handleFunctionCall fc st))
                  = VariantB.sourcesRef st).
  { unfold VariantB.handleFunctionCall.
    destruct (String.eqb (fc_name fc) VariantB.update_sparky_mood);
      destruct (String.eqb (fc_name fc) VariantB.report_faces); auto. }
  destruct (VariantB.handleFunctionCall fc st) as [st1 a1]. cbn [fst] in H1.
  specialize (IH st1). destruct (VariantB.handleToolCall rest st1) as [st2 a2].
  cbn [fst] in *. destruct H1, IH. split; congruence.
Qed.

Lemma playParts_viewB parts st :
  MoreB.speakingWhilePlaying st ->
  MoreB.speakingWhilePlaying (fst (VariantB.playParts parts st)).
Proof.
  revert st. induction parts as [|p rest IH]; intros st Hs; cbn [VariantB.playParts].
  { exact Hs. }
  destruct p as [|now decoded]; [apply IH; exact Hs|].
  assert (H1 : MoreB.speakingWhilePlaying (fst (VariantB.playPart now decoded st))).
  { unfold MoreB.speakingWhilePlaying, VariantB.playPart, VariantB.playBuffer,
      VariantB.anchor in *.
    destruct decoded as [d|]; destruct (VariantB.sourcesRef st) as [|s0 l] eqn:Es;
      try destruct (VariantB.nextStartTimeRef st <? now); cbn; rewrite ?Es;
      try exact Hs; split; try reflexivity; intros _; discriminate. }
  destruct (VariantB.playPart now decoded st) as [st1 a1]. cbn [fst] in H1.
  specialize (IH st1 H1). destruct (VariantB.playParts rest st1) as [st2 a2].
  exact IH.
Qed.

Lemma step_viewB ev st :
  MoreB.speakingWhilePlaying st -> MoreB.speakingWhilePlaying (fst (VariantB.step ev st)).
Proof.
  intros Hs.
  destruct ev as [msg|now id|inputData|txt thrown|]; cbn [VariantB.step].
  - unfold VariantB.onmessage.
    assert (H2 : MoreB.speakingWhilePlaying
                   (fst (match toolCall msg with
                         | Some calls => VariantB.handleToolCall calls st
                         | None => (st, [])
                         end))).
    { destruct (toolCall msg) as [calls|]; [|exact Hs].
      destruct (handleToolCall_viewB calls st) as [T1 T2].
      unfold MoreB.speakingWhilePlaying in *. rewrite T1, T2. exact Hs. }
    destruct (match toolCall msg with
              | Some calls => VariantB.handleToolCall calls st
              | None => (st, [])
              end) as [st2 a2]. cbn [fst] in H2.
    assert (H3 : MoreB.speakingWhilePlaying
                   (fst (match modelTurn msg with
                         | Some parts => VariantB.playParts parts st2
                         | None => (st2, [])
                         end))).
    { destruct (modelTurn msg); [apply playParts_viewB; exact H2 | exact H2]. }
    destruct (match modelTurn msg with
              | Some parts => VariantB.playParts parts st2
              | None => (st2, [])
              end) as [st3 a3]. cbn [fst] in H3.
    assert (H4 : MoreB.speakingWhilePlaying
                   (fst (if interrupted msg then VariantB.interrupt st3 else (st3, [])))).
    { destruct (interrupted msg); [|exact H3].
      unfold MoreB.speakingWhilePlaying. cbn.
      split; [intros H; discriminate H | intros H; contradiction]. }
    destruct (if interrupted msg then VariantB.interrupt st3 else (st3, [])) as [st4 a4].
    cbn [fst] in *. unfold MoreB.speakingWhilePlaying in *.
    unfold VariantB.accumulate, VariantB.flushTurn.
    destruct (inputTranscription msg), (outputTranscription msg), (turnComplete msg);
      cbn; try match goal with
               | |- context [if ?b then _ else _] => destruct b
               end; cbn; exact H4.
  - cbn [fst].
    unfold MoreB.speakingWhilePlaying, VariantB.onended in *. cbn. destruct Hs as [H1 H2].
    destruct (delete id (VariantB.sourcesRef st)) as [|n l] eqn:E; cbn.
    + split; [intros H; discriminate H | intros H; contradiction].
    + split; [intros _; discriminate |]. intros _. apply H2. intros Hn.
      rewrite Hn in E. discriminate E.
  - unfold VariantB.onaudioprocess, MoreB.speakingWhilePlaying in *.
    destruct (RobotState_eqb (VariantB.robotStateRef st) IDLE); [exact Hs|].
    destruct (RobotState_eqb (VariantB.robotStateRef st) LISTENING); exact Hs.
  - unfold VariantB.handleSendMessage, MoreB.speakingWhilePlaying in *.
    destruct (VariantB.sessionRef st); [destruct thrown|]; exact Hs.
  - exact Hs.
Qed.

(** X6.  The state is SPEAKING exactly while something is in flight.  If
    that holds before, it holds after every run of session events: messages
    (tool calls, audio, interruptions, transcripts), ended sources,
    microphone frames, typed messages, and in variant A the mute and deafen
    buttons.  So the avatar never shows SPEAKING over an empty queue, and
    never shows LISTENING while a fragment is still queued. *)
Theorem speaking_iff_in_flight :
  (forall evs st,
      forallb MoreA.inSession evs = true ->
      MoreA.speakingWhilePlaying st ->
      MoreA.speakingWhilePlaying (fst (VariantA.run evs st)))
  /\ (forall evs st,
         MoreB.speakingWhilePlaying st ->
         MoreB.speakingWhilePlaying (fst (VariantB.run evs st))).
Proof.
  split.
  - induction evs as [|ev rest IH]; intros st Hin Hs; cbn [VariantA.run].
    { exact Hs. }
    cbn [forallb] in Hin. apply andb_true_iff in Hin as [H1 H2].
    pose proof (step_viewA ev st H1 Hs) as Hs1.
    destruct (VariantA.step ev st) as [st1 a1]. cbn [fst] in Hs1.
    specialize (IH st1 H2 Hs1). destruct (VariantA.run rest st1) as [st2 a2].
    exact IH.
  - induction evs as [|ev rest IH]; intros st Hs; cbn [VariantB.run].
    { exact Hs. }
    pose proof (step_viewB ev st Hs) as Hs1.
    destruct (VariantB.step ev st) as [st1 a1]. cbn [fst] in Hs1.
    specialize (IH st1 Hs1). destruct (VariantB.run rest st1) as [st2 a2].
    exact IH.
Qed.

Lemma speaking_iff_in_flight_witness :
  MoreA.speakingWhilePlaying Examples.A.listening
  /\ MoreB.speakingWhilePlaying Examples.B.listening
  /\ MoreA.speakingWhilePlaying
       (fst (VariantA.run (Examples.A.conversation ++ [VariantA.SourceEnded 1])
                          Examples.A.listening))
  /\ MoreB.speakingWhilePlaying
       (fst (VariantB.run (Examples.B.conversation ++ [VariantB.Message Interrupted])
                          Examples.B.listening)).
Proof.
  assert (SA : MoreA.speakingWhilePlaying Examples.A.listening).
  { split; [intros H; discriminate H | intros H; exfalso; apply H; reflexivity]. }
  assert (SB : MoreB.speakingWhilePlaying Examples.B.listening).
  { split; [intros H; discriminate H | intros H; exfalso; apply H; reflexivity]. }
  destruct speaking_iff_in_flight as [HA HB].
  split; [exact SA|]. split; [exact SB|]. split.
  - apply (HA (Examples.A.conversation ++ [VariantA.SourceEnded 1])
               Examples.A.listening eq_refl SA).
  - apply (HB (Examples.B.conversation ++ [VariantB.Message Interrupted])
               Examples.B.listening SB).
Defined.

End SpeakingState.

(** ** Further properties: the microphone *)

Section Microphone.

Lemma idle_or_not (s : RobotState) : s <> IDLE -> RobotState_eqb s IDLE = false.
Proof. destruct s; intros H; try reflexivity. contradiction. Qed.

Lemma microphone_streamB (frames : list (list Q)) (st : VariantB.State) :
  VariantB.robotState st <> IDLE ->
  VariantB.robotStateRef st = VariantB.robotState st ->
  let '(st', acts) := VariantB.run (MoreB.microphone frames) st in
  sent acts = map AudioPcm frames
  /\ VariantB.robotState st' = VariantB.robotState st
  /\ (VariantB.robotState st <> LISTENING ->
      VariantB.volume st' = VariantB.volume st).
Proof.
  revert st.
  induction frames as [|f rest IH]; intros st Hi Hr; cbn [MoreB.microphone map VariantB.run].
  { cbn. auto. }
  fold (MoreB.microphone rest). cbn [VariantB.step].
  unfold VariantB.onaudioprocess. rewrite Hr, (idle_or_not _ Hi).
  set (st1 := if RobotState_eqb (VariantB.robotState st) LISTENING then _ else st).
  assert (R1 : VariantB.robotState st1 = VariantB.robotState st
               /\ VariantB.robotStateRef st1 = VariantB.robotState st
               /\ (VariantB.robotState st <> LISTENING ->
                   VariantB.volume st1 = VariantB.volume st)).
  { unfold st1. destruct (RobotState_eqb (VariantB.robotState st) LISTENING) eqn:E;
      cbn; splits; auto.
    intros H. apply RobotState_eqb_eq in E. contradiction. }
  destruct R1 as (R1 & R2 & R3).
  assert (Hi1 : VariantB.robotState st1 <> IDLE) by (rewrite R1; exact Hi).
  assert (Hr1 : VariantB.robotStateRef st1 = VariantB.robotState st1) by congruence.
  specialize (IH st1 Hi1 Hr1).
  destruct (VariantB.run (MoreB.microphone rest) st1) as [st2 a2].
  destruct IH as (I1 & I2 & I3). rewrite sent_app, I1. cbn [sent flat_map app map].
  splits; auto; try congruence.
  intros H. rewrite I3, R3; auto. rewrite R1. exact H.
Qed.

Lemma microphone_committedB (frames : list (list Q)) (st : VariantB.State) :
  VariantB.robotState st <> IDLE ->
  VariantB.robotStateRef st = VariantB.robotState st ->
  let '(st', acts) := VariantB.run (MoreB.microphone_committed frames) st in
  sent acts = map AudioPcm frames
  /\ VariantB.robotState st' = VariantB.robotState st
  /\ (VariantB.robotState st <> LISTENING ->
      VariantB.volume st' = VariantB.volume st).
Proof.
  revert st.
  induction frames as [|f rest IH]; intros st Hi Hr;
    cbn [MoreB.microphone_committed flat_map app VariantB.run].
  { cbn. auto. }
  fold (MoreB.microphone_committed rest). cbn [VariantB.step].
  unfold VariantB.onaudioprocess. rewrite Hr, (idle_or_not _ Hi).
  set (st1 := if RobotState_eqb (VariantB.robotState st) LISTENING then _ else st).
  assert (R1 : VariantB.robotState st1 = VariantB.robotState st
               /\ (VariantB.robotState st <> LISTENING ->
                   VariantB.volume st1 = VariantB.volume st)).
  { unfold st1. destruct (RobotState_eqb (VariantB.robotState st) LISTENING) eqn:E;
      cbn; splits; auto.
    intros H. apply RobotState_eqb_eq in E. contradiction. }
  destruct R1 as (R1 & R3).
  assert (Hi1 : VariantB.robotState (VariantB.useEffect_sync st1) <> IDLE).
  { cbn. rewrite R1. exact Hi. }
  specialize (IH (VariantB.useEffect_sync st1) Hi1 eq_refl).
  destruct (VariantB.run (MoreB.microphone_committed rest) (VariantB.useEffect_sync st1))
    as [st2 a2].
  destruct IH as (I1 & I2 & I3). rewrite !sent_app, I1. cbn [sent flat_map app map].
  change (VariantB.robotState (VariantB.useEffect_sync st1))
    with (VariantB.robotState st1) in I2, I3.
  change (VariantB.volume (VariantB.useEffect_sync st1))
    with (VariantB.volume st1) in I3.
  splits; auto; try congruence.
  intros H. rewrite I3, R3; auto. rewrite R1. exact H.
Qed.

(** X7.  Microphone frames go out in capture order, one audio chunk per
    frame carrying that frame, as long as the state is not IDLE (variant A:
    and the microphone is not muted); the state itself is not changed by
    them, and outside LISTENING neither is the reported volume, so frames
    captured while the robot speaks still reach the service without moving
    the level meter.  A muted run in variant A sends nothing and leaves the
    volume at zero.  In variant B the guard reads the ref of the state: the
    ref agrees with the state at the start, and it makes no difference
    whether React commits between the frames. *)
Theorem microphone_frames_sent_in_order (frames : list (list Q)) :
  (forall st,
      VariantA.robotState st <> IDLE -> VariantA.isMuted st = false ->
      let '(st', acts) := VariantA.run (MoreA.microphone frames) st in
      sent acts = map AudioPcm frames
      /\ VariantA.robotState st' = VariantA.robotState st
      /\ (VariantA.robotState st <> LISTENING -> VariantA.volume st' = VariantA.volume st))
  /\ (forall st,
         VariantA.robotState st <> IDLE -> VariantA.isMuted st = true ->
         let '(st', acts) := VariantA.run (MoreA.microphone frames) st in
         sent acts = []
         /\ (frames <> [] -> VariantA.volume st' = VolumeZero))
  /\ (forall st,
         VariantB.robotState st <> IDLE ->
         VariantB.robotStateRef st = VariantB.robotState st ->
         let '(st', acts) := VariantB.run (MoreB.microphone frames) st in
         sent acts = map AudioPcm frames
         /\ VariantB.robotState st' = VariantB.robotState st
         /\ (VariantB.robotState st <> LISTENING ->
             VariantB.volume st' = VariantB.volume st))
  /\ (forall st,
         VariantB.robotState st <> IDLE ->
         VariantB.robotStateRef st = VariantB.robotState st ->
         let '(st', acts) := VariantB.run (MoreB.microphone_committed frames) st in
         sent acts = map AudioPcm frames
         /\ VariantB.robotState st' = VariantB.robotState st
         /\ (VariantB.robotState st <> LISTENING ->
             VariantB.volume st' = VariantB.volume st)).
Proof.
  splits.
  - induction frames as [|f rest IH]; intros st Hi Hm; cbn [MoreA.microphone map VariantA.run].
    { cbn. auto. }
    fold (MoreA.microphone rest). cbn [VariantA.step]. unfold VariantA.onaudioprocess.
    rewrite (idle_or_not _ Hi), Hm. cbn [negb].
    set (st1 := if RobotState_eqb (VariantA.robotState st) LISTENING then _ else st).
    assert (R1 : VariantA.robotState st1 = VariantA.robotState st
                 /\ VariantA.isMuted st1 = false
                 /\ (VariantA.robotState st <> LISTENING ->
                     VariantA.volume st1 = VariantA.volume st)).
    { unfold st1. destruct (RobotState_eqb (VariantA.robotState st) LISTENING) eqn:E;
        cbn; splits; auto.
      intros H. apply RobotState_eqb_eq in E. contradiction. }
    destruct R1 as (R1 & R2 & R3).
    assert (Hi1 : VariantA.robotState st1 <> IDLE) by (rewrite R1; exact Hi).
    specialize (IH st1 Hi1 R2).
    destruct (VariantA.run (MoreA.microphone rest) st1) as [st2 a2].
    destruct IH as (I1 & I2 & I3). rewrite sent_app, I1. cbn [sent flat_map app map].
    splits; auto; try congruence.
    intros H. rewrite I3, R3; auto. rewrite R1. exact H.
  - induction frames as [|f rest IH]; intros st Hi Hm; cbn [MoreA.microphone map VariantA.run].
    { cbn. split; auto. intros H. contradiction. }
    fold (MoreA.microphone rest). cbn [VariantA.step]. unfold VariantA.onaudioprocess.
    rewrite (idle_or_not _ Hi), Hm. cbn [negb].
    specialize (IH (VariantA.setVolume VolumeZero st) Hi Hm).
    destruct rest as [|g rest'].
    + cbn. split; [reflexivity|]. intros _. reflexivity.
    + destruct (VariantA.run (MoreA.microphone (g :: rest'))
                  (VariantA.setVolume VolumeZero st)) as [st2 a2].
      destruct IH as (I1 & I2). rewrite sent_app, I1. split; [reflexivity|].
      intros _. apply I2. discriminate.
  - intros st. apply microphone_streamB.
  - intros st. apply microphone_committedB.
Qed.

Lemma microphone_frames_sent_in_order_witness :
  VariantA.robotState Examples.A.playing <> IDLE
  /\ VariantA.isMuted Examples.A.playing = false
  /\ sent (snd (VariantA.run (MoreA.microphone [Examples.frame; []]) Examples.A.playing))
     = [AudioPcm Examples.frame; AudioPcm []]
  /\ sent (snd (VariantA.run (MoreA.microphone [Examples.frame; []]) Examples.A.muted)) = []
  /\ sent (snd (VariantB.run (MoreB.microphone [Examples.frame; []]) Examples.B.playing))
     = [AudioPcm Examples.frame; AudioPcm []].
Proof.
  assert (N1 : VariantA.robotState Examples.A.playing <> IDLE) by (vm_compute; discriminate).
  assert (N2 : VariantA.robotState Examples.A.muted <> IDLE) by (vm_compute; discriminate).
  assert (N3 : VariantB.robotState Examples.B.playing <> IDLE) by (vm_compute; discriminate).
  destruct (microphone_frames_sent_in_order [Examples.frame; []]) as (H1 & H2 & H3 & _).
  specialize (H1 Examples.A.playing N1 eq_refl).
  specialize (H2 Examples.A.muted N2 eq_refl).
  specialize (H3 Examples.B.playing N3 eq_refl).
  destruct (VariantA.run (MoreA.microphone [Examples.frame; []]) Examples.A.playing)
    as [s1 a1].
  destruct (VariantA.run (MoreA.microphone [Examples.frame; []]) Examples.A.muted)
    as [s2 a2].
  destruct (VariantB.run (MoreB.microphone [Examples.frame; []]) Examples.B.playing)
    as [s3 a3].
  destruct H1 as (H1 & _). destruct H2 as (H2 & _). destruct H3 as (H3 & _).
  splits; auto.
Defined.


End Microphone.

(** ** Further properties: reconnection that succeeds, and teardown *)

Section Reopen.

Lemma refused_failure env :
  refused env = true -> exists err, connectFailure env = Some err.
Proof.
  unfold refused. destruct (connectFailure env) as [err|]; [eauto | intros H; discriminate H].
Qed.

Lemma onopen_opens st :
  let '(st', acts) := VariantA.onopen st in
  timers acts = []
  /\ sent acts = [AudioPcm VariantA.silence]
  /\ started acts = []
  /\ VariantA.robotState st' = LISTENING
  /\ VariantA.isActive st' = VariantA.isActive st
  /\ VariantA.errorDetail st' = VariantA.errorDetail st
  /\ TraceA.playback st' = TraceA.playback st.
Proof.
  unfold VariantA.onopen, VariantA.speakText, VariantA.addLog.
  change (String.eqb "NEURAL LINK ESTABLISHED." "") with false. cbv iota.
  destruct (String.eqb VariantA.GREETING_TEXT "" || _); cbn -[VariantA.silence];
    splits; reflexivity.
Qed.

Lemma startSession_opensA env k c st :
  MoreA.connects c env = true ->
  let '(st', acts, next) := VariantA.startSession env k c st in
  next = None /\ timers acts = []
  /\ VariantA.sessionRef st' = true
  /\ VariantA.isActive st' = true
  /\ VariantA.errorDetail st' = None
  /\ VariantA.robotState st' = LISTENING
  /\ VariantA.nextStartTimeRef st' = 0
  /\ started acts = []
  /\ sent acts = [AudioPcm VariantA.silence].
Proof.
  unfold MoreA.connects, TraceA.authorised, reachable, VariantA.startSession. intros Hc.
  apply andb_true_iff in Hc as [Ha Hc].
  destruct (apiKey env); [|discriminate Hc]. cbn [andb negb] in *.
  assert (H0 : exists st0 a0,
             (if VariantA.closure_isInitialized c then (st, [], true)
              else VariantA.handleInitialization env st) = (st0, a0, true)
             /\ timers a0 = [] /\ started a0 = [] /\ sent a0 = []).
  { destruct (VariantA.closure_isInitialized c).
    - exists st, []. auto.
    - unfold VariantA.handleInitialization. cbn [orb] in Ha.
      destruct (permissions env); [discriminate Ha|].
      eexists. eexists. splits; reflexivity. }
  destruct H0 as (st0 & a0 & -> & T0 & S0 & N0). cbn [negb].
  destruct (audioContexts env); [discriminate Hc|].
  destruct (connect env); [discriminate Hc|].
  set (a1 := if Nat.eqb k 0 then [PlayUISound UIConnect] else []).
  assert (T1 : timers a1 = [] /\ started a1 = [] /\ sent a1 = [])
    by (unfold a1; destruct (Nat.eqb k 0); splits; reflexivity).
  destruct T1 as (T1 & S1 & N1).
  set (s1 := VariantA.set_nextStartTimeRef 0 _).
  pose proof (onopen_opens s1) as H.
  destruct (VariantA.onopen s1) as [s2 a2].
  destruct H as (T2 & N2 & S2 & R2 & A2 & E2 & P2).
  apply FactsA.playback_eq in P2 as (C2 & _ & _).
  logs. rewrite T0, T1, T2, S0, S1, S2, N0, N1, N2.
  cbn -[VariantA.silence]. splits; auto.
Qed.

Lemma startSession_opensB env k c st :
  MoreB.connects c env = true ->
  let '(st', acts, next) := VariantB.startSession env k c st in
  next = None /\ timers acts = []
  /\ VariantB.sessionRef st' = true
  /\ VariantB.isActive st' = true
  /\ VariantB.errorDetail st' = None
  /\ VariantB.robotState st' = LISTENING
  /\ VariantB.nextStartTimeRef st' = 0.
Proof.
  unfold MoreB.connects, reachable, VariantB.startSession. intros Hc.
  apply andb_true_iff in Hc as [Hi Hc].
  destruct (apiKey env); [|discriminate Hc]. cbn [andb negb] in *.
  destruct (audioContexts env); [discriminate Hc|]. rewrite Hi. cbn [negb].
  destruct (connect env); [discriminate Hc|].
  destruct (Nat.eqb k 0); cbn; splits; auto.
Qed.

Lemma fails_failureA c env :
  MoreA.fails c env = true ->
  TraceA.authorised c env = true /\ exists err, connectFailure env = Some err.
Proof.
  unfold MoreA.fails. intros H. apply andb_true_iff in H as [H1 H2].
  split; [exact H1 | apply refused_failure; exact H2].
Qed.

Lemma fails_failureB c env :
  MoreB.fails c env = true ->
  VariantB.closure_isInitialized c = true /\ exists err, connectFailure env = Some err.
Proof.
  unfold MoreB.fails. intros H. apply andb_true_iff in H as [H1 H2].
  split; [exact H1 | apply refused_failure; exact H2].
Qed.

Lemma chain_opensA failing env rest k c st :
  forallb (MoreA.fails c) failing = true ->
  (k + List.length failing <= VariantA.MAX_RETRIES)%nat ->
  MoreA.connects c env = true ->
  let '(st', acts, pending) :=
    VariantA.startSession_chain (failing ++ env :: rest) k c st in
  pending = None
  /\ map snd (timers acts) = seq (S k) (List.length failing)
  /\ VariantA.sessionRef st' = true /\ VariantA.isActive st' = true
  /\ VariantA.errorDetail st' = None
  /\ VariantA.robotState st' = LISTENING
  /\ VariantA.nextStartTimeRef st' = 0.
Proof.
  revert k st. induction failing as [|e failing IH]; intros k st Hf Hk Hc;
    cbn [app VariantA.startSession_chain].
  - pose proof (startSession_opensA env k c st Hc) as H.
    destruct (VariantA.startSession env k c st) as [[st1 a1] n1].
    destruct H as (-> & T & H1 & H2 & H3 & H4 & H5 & _). rewrite T. cbn. auto 10.
  - cbn [forallb] in Hf. apply andb_true_iff in Hf as [Hf1 Hf2].
    destruct (fails_failureA c e Hf1) as (Ha & err & He).
    pose proof (startSession_failsA e k err c st He Ha) as H.
    destruct (VariantA.startSession e k c st) as [[st1 a1] n1].
    destruct H as (R1 & _).
    assert (Hlt : Nat.ltb k VariantA.MAX_RETRIES = true).
    { apply Nat.ltb_lt. cbn [List.length] in Hk. lia. }
    destruct (R1 Hlt) as [T1 ->].
    assert (Hk' : (S k + List.length failing <= VariantA.MAX_RETRIES)%nat).
    { cbn [List.length] in Hk. lia. }
    specialize (IH (S k) st1 Hf2 Hk' Hc).
    destruct (VariantA.startSession_chain (failing ++ env :: rest) (S k) c st1)
      as [[st2 a2] p2].
    destruct IH as (P & T2 & IH). logs. rewrite T1, map_app, T2. cbn. auto.
Qed.

Lemma chain_opensB failing env rest k c st :
  forallb (MoreB.fails c) failing = true ->
  (k + List.length failing <= VariantB.MAX_RETRIES)%nat ->
  MoreB.connects c env = true ->
  let '(st', acts, pending) :=
    VariantB.startSession_chain (failing ++ env :: rest) k c st in
  pending = None
  /\ map snd (timers acts) = seq (S k) (List.length failing)
  /\ VariantB.sessionRef st' = true /\ VariantB.isActive st' = true
  /\ VariantB.errorDetail st' = None
  /\ VariantB.robotState st' = LISTENING
  /\ VariantB.nextStartTimeRef st' = 0.
Proof.
  revert k st. induction failing as [|e failing IH]; intros k st Hf Hk Hc;
    cbn [app VariantB.startSession_chain].
  - pose proof (startSession_opensB env k c st Hc) as H.
    destruct (VariantB.startSession env k c st) as [[st1 a1] n1].
    destruct H as (-> & T & H). rewrite T. cbn. auto.
  - cbn [forallb] in Hf. apply andb_true_iff in Hf as [Hf1 Hf2].
    destruct (fails_failureB c e Hf1) as (Ha & err & He).
    pose proof (startSession_failsB e k err c st He Ha) as H.
    destruct (VariantB.startSession e k c st) as [[st1 a1] n1].
    destruct H as (R1 & _).
    assert (Hlt : Nat.ltb k VariantB.MAX_RETRIES = true).
    { apply Nat.ltb_lt. cbn [List.length] in Hk. lia. }
    destruct (R1 Hlt) as [T1 ->].
    assert (Hk' : (S k + List.length failing <= VariantB.MAX_RETRIES)%nat).
    { cbn [List.length] in Hk. lia. }
    specialize (IH (S k) st1 Hf2 Hk' Hc).
    destruct (VariantB.startSession_chain (failing ++ env :: rest) (S k) c st1)
      as [[st2 a2] p2].
    destruct IH as (P & T2 & IH). logs. rewrite T1, map_app, T2. cbn. auto.
Qed.

(** X9.  A connection that opens within the retry bound ends the chain in
    a working session, whichever closure runs it.  After any number of
    attempts not above the bound (2 in variant A, 3 in variant B) that get
    as far as the connection and fail there, followed by an attempt that
    connects, no run is left pending, the timers set were exactly one per
    failure, numbered 1, 2, ..., the session is held, the active flag is
    set, the error display is clear, the cursor is zero and the state is
    LISTENING; whatever the environment would do afterwards is never asked
    for.  An attempt gets as far as the connection when the key is there
    and the audio contexts are created, and in variant A when the closure
    saw the component initialised or access to the hardware is granted
    (again, for every run of a first wake-up), in variant B when the
    closure saw the component initialised. *)
Theorem opening_within_bound_recovers (failing : list Attempt) (env : Attempt)
        (rest : list Attempt) :
  (forall c st,
      forallb (MoreA.fails c) failing = true -> MoreA.connects c env = true ->
      (List.length failing <= VariantA.MAX_RETRIES)%nat ->
      let '(st', acts, pending) :=
        VariantA.startSession_chain (failing ++ env :: rest) 0 c st in
      pending = None
      /\ map snd (timers acts) = seq 1 (List.length failing)
      /\ VariantA.sessionRef st' = true /\ VariantA.isActive st' = true
      /\ VariantA.errorDetail st' = None
      /\ VariantA.robotState st' = LISTENING
      /\ VariantA.nextStartTimeRef st' = 0)
  /\ (forall c st,
         forallb (MoreB.fails c) failing = true -> MoreB.connects c env = true ->
         (List.length failing <= VariantB.MAX_RETRIES)%nat ->
         let '(st', acts, pending) :=
           VariantB.startSession_chain (failing ++ env :: rest) 0 c st in
         pending = None
         /\ map snd (timers acts) = seq 1 (List.length failing)
         /\ VariantB.sessionRef st' = true /\ VariantB.isActive st' = true
         /\ VariantB.errorDetail st' = None
         /\ VariantB.robotState st' = LISTENING
         /\ VariantB.nextStartTimeRef st' = 0).
Proof.
  split; intros c st Hf Hc Hk.
  - apply (chain_opensA failing env rest 0 c st); auto.
  - apply (chain_opensB failing env rest 0 c st); auto.
Qed.

(** A first wake-up of variant A whose first two attempts fail, and a
    wake-up of variant B, once authorised, whose first three fail. *)
Lemma opening_within_bound_recovers_witness :
  (let '(st', acts, pending) :=
     VariantA.startSession_chain
       ([Examples.unreachable 0; Examples.unreachable 0]
        ++ Examples.available :: [Examples.unreachable 0])
       0 (VariantA.render VariantA.initial) VariantA.initial in
   pending = None
   /\ map snd (timers acts) = seq 1 2
   /\ VariantA.sessionRef st' = true /\ VariantA.isActive st' = true
   /\ VariantA.errorDetail st' = None
   /\ VariantA.robotState st' = LISTENING
   /\ VariantA.nextStartTimeRef st' = 0)
  /\ (let '(st', acts, pending) :=
        VariantB.startSession_chain
          ([Examples.unreachable 0; Examples.unreachable 0; Examples.unreachable 0]
           ++ Examples.available :: [])
          0 (VariantB.render Examples.B.ready) Examples.B.ready in
      pending = None
      /\ map snd (timers acts) = seq 1 3
      /\ VariantB.sessionRef st' = true /\ VariantB.isActive st' = true
      /\ VariantB.errorDetail st' = None
      /\ VariantB.robotState st' = LISTENING
      /\ VariantB.nextStartTimeRef st' = 0).
Proof.
  split.
  - apply (proj1 (opening_within_bound_recovers
                    [Examples.unreachable 0; Examples.unreachable 0]
                    Examples.available [Examples.unreachable 0])
                 (VariantA.render VariantA.initial) VariantA.initial).
    + reflexivity.
    + reflexivity.
    + unfold VariantA.MAX_RETRIES. simpl. lia.
  - apply (proj2 (opening_within_bound_recovers
                    [Examples.unreachable 0; Examples.unreachable 0; Examples.unreachable 0]
                    Examples.available [])
                 (VariantB.render Examples.B.ready) Examples.B.ready).
    + reflexivity.
    + reflexivity.
    + unfold VariantB.MAX_RETRIES. simpl. lia.
Defined.

(** X5.  What a teardown resets, and what it leaves.  [stopSession] closes
    the session if one is held, stops each source in flight once, and leaves
    the engine IDLE, inactive, with mood neutral, volume zero, cursor zero,
    empty accumulators and nothing in flight.  A second [stopSession]
    closes nothing and stops nothing; in variant B it changes nothing at
    all, in variant A it adds its log line once more.  It sets no timer and
    cancels none: the run a retry timer starts after the teardown behaves
    as on any other state, and when it connects the session is held and
    the active flag set again. *)
Theorem teardown_resets_engine_not_timers :
  (forall st,
      let st1 := fst (VariantA.stopSession st) in
      stopped (snd (VariantA.stopSession st)) = VariantA.sourcesRef st
      /\ (In SessionClose (snd (VariantA.stopSession st)) <-> VariantA.sessionRef st = true)
      /\ timers (snd (VariantA.stopSession st)) = []
      /\ VariantA.robotState st1 = IDLE /\ VariantA.isActive st1 = false
      /\ VariantA.sessionRef st1 = false
      /\ VariantA.mood st1 = neutral /\ VariantA.volume st1 = VolumeZero
      /\ VariantA.nextStartTimeRef st1 = 0 /\ VariantA.sourcesRef st1 = []
      /\ VariantA.liveInput st1 = "" /\ VariantA.liveOutput st1 = ""
      /\ VariantA.stopSession st1
         = (VariantA.setHistory
              (VariantA.history st1
               ++ [{| type := system; text := "NEURAL LINK DEACTIVATED." |}]) st1, []))
  /\ (forall st,
         let st1 := fst (VariantB.stopSession st) in
         stopped (snd (VariantB.stopSession st)) = VariantB.sourcesRef st
         /\ (In SessionClose (snd (VariantB.stopSession st))
             <-> VariantB.sessionRef st = true)
         /\ timers (snd (VariantB.stopSession st)) = []
         /\ VariantB.robotState st1 = IDLE /\ VariantB.isActive st1 = false
         /\ VariantB.sessionRef st1 = false
         /\ VariantB.mood st1 = neutral /\ VariantB.volume st1 = VolumeZero
         /\ VariantB.nextStartTimeRef st1 = 0 /\ VariantB.sourcesRef st1 = []
         /\ VariantB.currentInput st1 = "" /\ VariantB.currentOutput st1 = ""
         /\ VariantB.stopSession st1 = (st1, []))
  /\ (forall env k c st,
         MoreA.connects c env = true ->
         let st2 := fst (fst (VariantA.startSession env k c (fst (VariantA.stopSession st)))) in
         VariantA.sessionRef st2 = true /\ VariantA.isActive st2 = true
         /\ VariantA.robotState st2 = LISTENING)
  /\ (forall env k c st,
         MoreB.connects c env = true ->
         let st2 := fst (fst (VariantB.startSession env k c (fst (VariantB.stopSession st)))) in
         VariantB.sessionRef st2 = true /\ VariantB.isActive st2 = true
         /\ VariantB.robotState st2 = LISTENING).
Proof.
  assert (NoClose : forall l, ~ In SessionClose (map SourceStop l)).
  { induction l as [|n l IH]; cbn [map In]; [tauto|].
    intros [H|H]; [discriminate H | auto]. }
  assert (Stops : forall (b : bool) l,
             stopped ((if b then [SessionClose] else []) ++ map SourceStop l) = l
             /\ (In SessionClose ((if b then [SessionClose] else []) ++ map SourceStop l)
                 <-> b = true)
             /\ timers ((if b then [SessionClose] else []) ++ map SourceStop l) = []).
  { intros b l. rewrite stopped_app, stopped_stops, timers_app, timers_stops.
    destruct b; cbn [stopped timers flat_map app].
    - split; [reflexivity|]. split; [|reflexivity].
      split; [reflexivity | intros _; left; reflexivity].
    - split; [reflexivity|]. split; [|reflexivity].
      split; [intros H; exfalso; exact (NoClose _ H) | intros H; discriminate H]. }
  split; [|split; [|split]].
  - intros st. cbv zeta.
    destruct (Stops (VariantA.sessionRef st) (VariantA.sourcesRef st)) as (S1 & S2 & S3).
    split; [exact S1|]. split; [exact S2|]. split; [exact S3|].
    do 9 (split; [reflexivity|]).
    destruct st. vm_compute. reflexivity.
  - intros st. cbv zeta.
    destruct (Stops (VariantB.sessionRef st) (VariantB.sourcesRef st)) as (S1 & S2 & S3).
    split; [exact S1|]. split; [exact S2|]. split; [exact S3|].
    do 9 (split; [reflexivity|]).
    destruct st. vm_compute. reflexivity.
  - intros env k c st Hc. cbv zeta.
    pose proof (startSession_opensA env k c (fst (VariantA.stopSession st)) Hc) as H.
    destruct (VariantA.startSession env k c (fst (VariantA.stopSession st)))
      as [[s2 a2] n2].
    destruct H as (_ & _ & H1 & H2 & _ & H3 & _). cbn [fst]. auto.
  - intros env k c st Hc. cbv zeta.
    pose proof (startSession_opensB env k c (fst (VariantB.stopSession st)) Hc) as H.
    destruct (VariantB.startSession env k c (fst (VariantB.stopSession st)))
      as [[s2 a2] n2].
    destruct H as (_ & _ & H1 & H2 & _ & H3 & _). cbn [fst]. auto.
Qed.

(** A wake-up whose first attempt fails, then Shutdown, then the retry
    timer fires and the connection opens. *)
Lemma teardown_resets_engine_not_timers_witness :
  snd (VariantA.onClick_power [Examples.unreachable 0] VariantA.initial) = Some 1%nat
  /\ (let st2 :=
        fst (fst (VariantA.startSession Examples.available 1
                    (VariantA.render VariantA.initial)
                    (fst (VariantA.stopSession
                            (fst (fst (VariantA.onClick_power [Examples.unreachable 0]
                                         VariantA.initial))))))) in
      VariantA.sessionRef st2 = true /\ VariantA.isActive st2 = true
      /\ VariantA.robotState st2 = LISTENING)
  /\ (let st2 :=
        fst (fst (VariantB.startSession Examples.available 1
                    (VariantB.render Examples.B.ready)
                    (fst (VariantB.stopSession
                            (fst (fst (VariantB.onClick_power [Examples.unreachable 0]
                                         Examples.B.ready))))))) in
      VariantB.sessionRef st2 = true /\ VariantB.isActive st2 = true
      /\ VariantB.robotState st2 = LISTENING).
Proof.
  destruct teardown_resets_engine_not_timers as (_ & _ & HA & HB).
  split; [reflexivity|]. split.
  - apply (HA Examples.available 1%nat (VariantA.render VariantA.initial)). reflexivity.
  - apply (HB Examples.available 1%nat (VariantB.render Examples.B.ready)). reflexivity.
Defined.

End Reopen.

(** ** Further properties: audio parts that do not decode *)

Section Decoding.

Lemma scheduled_app (a b : list Action) :
  scheduled (a ++ b) = scheduled a ++ scheduled b.
Proof. unfold scheduled. rewrite started_app. apply map_app. Qed.

Lemma playParts_rejectedA before now after st :
  forallb decodes_or_skips before = true ->
  let '(st', acts, ok) :=
    VariantA.playParts (before ++ InlineData now None :: after) st in
  ok = false
  /\ scheduled acts = fragments before
  /\ stopped acts = []
  /\ VariantA.sourcesRef st' = VariantA.sourcesRef st ++ started acts
  /\ VariantA.isDeafened st' = VariantA.isDeafened st.
Proof.
  revert st. induction before as [|p before IH]; intros st Hb.
  - cbn. rewrite app_nil_r. auto.
  - cbn [forallb] in Hb. apply andb_true_iff in Hb as [Hp Hb].
    destruct p as [|clock [d|]]; cbn [app VariantA.playParts].
    + apply IH; exact Hb.
    + unfold VariantA.playBuffer at 1.
      match goal with
      | |- context [VariantA.playParts _ ?s] =>
          specialize (IH s Hb); destruct (VariantA.playParts _ s) as [[s2 a2] ok]
      end.
      destruct IH as (-> & S2 & P2 & Q2 & D2).
      rewrite scheduled_app, S2, Q2. logs. rewrite P2. cbn.
      rewrite <- app_assoc. cbn. auto.
    + discriminate Hp.
Qed.

Lemma playParts_scheduledB parts st :
  scheduled (snd (VariantB.playParts parts st)) = fragments parts.
Proof.
  revert st. induction parts as [|p parts IH]; intros st.
  - reflexivity.
  - destruct p as [|clock [d|]]; cbn [VariantB.playParts].
    + apply IH.
    + unfold VariantB.playPart, VariantB.playBuffer.
      match goal with
      | |- context [VariantB.playParts _ ?s] =>
          specialize (IH s); destruct (VariantB.playParts _ s) as [s2 a2]
      end.
      cbn [snd] in *. rewrite !scheduled_app, IH.
      destruct (RobotState_eqb _ _); reflexivity.
    + unfold VariantB.playPart.
      match goal with
      | |- context [VariantB.playParts _ ?s] =>
          specialize (IH s); destruct (VariantB.playParts _ s) as [s2 a2]
      end.
      cbn [snd] in *. rewrite !scheduled_app, IH.
      destruct (RobotState_eqb _ _); reflexivity.
Qed.

(** X10.  An audio part that does not decode.  In variant A the handler
    stops at it: the parts before it are scheduled, the parts after it are
    not, and the interruption block of the same message is not reached, so
    nothing is stopped and the in-flight set only gains the sources just
    started, even when the message is flagged interrupted.  In variant B
    the rejection is caught: every part of the message that decodes is
    scheduled, in order, and an interruption flag on the message still
    empties the in-flight set and resets the cursor. *)
Theorem rejected_audio_part (before after : list Part) (now : time) (stop : bool) :
  forallb decodes_or_skips before = true ->
  (forall st,
      VariantA.isDeafened st = false ->
      let '(st', acts) :=
        VariantA.onmessage
          (audioTurn (before ++ InlineData now None :: after) stop) st in
      scheduled acts = fragments before
      /\ stopped acts = []
      /\ VariantA.sourcesRef st' = VariantA.sourcesRef st ++ started acts)
  /\ (forall st,
         let '(st', acts) :=
           VariantB.onmessage
             (audioTurn (before ++ InlineData now None :: after) stop) st in
         scheduled acts = fragments before ++ fragments after
         /\ (stop = true ->
             VariantB.sourcesRef st' = []
             /\ VariantB.nextStartTimeRef st' = 0
             /\ stopped acts = VariantB.sourcesRef st ++ started acts)).
Proof.
  intros Hb. split; intros st.
  - intros Hd. unfold VariantA.onmessage, audioTurn.
    rewrite Hd. cbn [turnComplete toolCall modelTurn interrupted].
    unfold VariantA.accumulate. cbn [outputTranscription inputTranscription].
    pose proof (playParts_rejectedA before now after st Hb) as H.
    destruct (VariantA.playParts _ st) as [[s1 a1] ok].
    destruct H as (-> & S1 & P1 & Q1 & _). cbn [andb app].
    splits; assumption.
  - unfold VariantB.onmessage, audioTurn.
    cbn [turnComplete toolCall modelTurn interrupted].
    pose proof (playParts_scheduledB (before ++ InlineData now None :: after) st) as H.
    destruct (playParts_actsB (before ++ InlineData now None :: after) st "")
      as (_ & P & Q).
    destruct (VariantB.playParts _ st) as [s1 a1]. cbn [fst snd] in H, P, Q.
    assert (F : fragments (before ++ InlineData now None :: after)
                = fragments before ++ fragments after).
    { unfold fragments. rewrite flat_map_app. reflexivity. }
    rewrite F in H. destruct stop.
    + unfold VariantB.interrupt, VariantB.accumulate.
      cbn [outputTranscription inputTranscription app].
      cbn -[scheduled started stopped].
      rewrite scheduled_app, H. unfold scheduled. logs. rewrite P, Q. cbn.
      rewrite ?app_nil_r. split; [reflexivity|]. intros _. splits; reflexivity.
    + cbn. rewrite app_nil_r. split; [exact H|]. intros E; discriminate E.
Qed.

Lemma rejected_audio_part_witness :
  (let '(st', acts) :=
     VariantA.onmessage
       (audioTurn ([InlineData 0 (Some 5)] ++ InlineData 1 None :: [InlineData 2 (Some 7)])
                  true) Examples.A.listening in
   scheduled acts = [(0, 5)]
   /\ stopped acts = []
   /\ VariantA.sourcesRef st'
      = VariantA.sourcesRef Examples.A.listening ++ started acts)
  /\ (let '(st', acts) :=
        VariantB.onmessage
          (audioTurn ([InlineData 0 (Some 5)] ++ InlineData 1 None :: [InlineData 2 (Some 7)])
                     true) Examples.B.listening in
      scheduled acts = [(0, 5)] ++ [(2, 7)]
      /\ (true = true ->
          VariantB.sourcesRef st' = []
          /\ VariantB.nextStartTimeRef st' = 0
          /\ stopped acts = VariantB.sourcesRef Examples.B.listening ++ started acts)).
Proof.
  split.
  - apply (proj1 (rejected_audio_part [InlineData 0 (Some 5)] [InlineData 2 (Some 7)]
                    1 true eq_refl)).
    reflexivity.
  - apply (proj2 (rejected_audio_part [InlineData 0 (Some 5)] [InlineData 2 (Some 7)]
                    1 true eq_refl)).
Defined.

End Decoding.

(** ** Further properties: what tool calls do to the avatar *)

Section Moods.

Lemma last_cons {A : Type} (l : list A) (a d : A) : last (a :: l) d = last l a.
Proof.
  revert a d. induction l as [|b l IH]; intros a d; [reflexivity|].
  change (last (a :: b :: l) d) with (last (b :: l) d).
  rewrite !IH. reflexivity.
Qed.

Lemma last_app_cons {A : Type} (l1 l2 : list A) (d : A) :
  last (l1 ++ l2) d = last l2 (last l1 d).
Proof.
  revert d. induction l1 as [|a l1 IH]; intros d; [reflexivity|].
  rewrite <- app_comm_cons, !last_cons. apply IH.
Qed.

Lemma handleToolCall_moodA calls st :
  VariantA.mood (fst (VariantA.handleToolCall calls st))
  = last (MoreA.requestedMoods calls) (VariantA.mood st).
Proof.
  revert st. induction calls as [|fc rest IH]; intros st; [reflexivity|].
  cbn [VariantA.handleToolCall MoreA.requestedMoods flat_map].
  fold (MoreA.requestedMoods rest).
  destruct (String.eqb (fc_name fc) VariantA.update_spark_mood).
  - specialize (IH (VariantA.setMood (arg_mood (fc_args fc)) st)).
    destruct (VariantA.handleToolCall rest _) as [s1 a1]. cbn [fst] in *.
    rewrite IH. cbn [app]. rewrite last_cons. reflexivity.
  - apply IH.
Qed.

Lemma handleToolCall_moodB calls st :
  VariantB.mood (fst (VariantB.handleToolCall calls st))
  = last (MoreB.requestedMoods calls) (VariantB.mood st).
Proof.
  revert st. induction calls as [|fc rest IH]; intros st; [reflexivity|].
  cbn [VariantB.handleToolCall MoreB.requestedMoods flat_map].
  fold (MoreB.requestedMoods rest).
  assert (H1 : VariantB.mood (fst (VariantB.handleFunctionCall fc st))
               = last ((if String.eqb (fc_name fc) VariantB.update_sparky_mood
                        then [arg_mood (fc_args fc)] else [])
                       ++ (if String.eqb (fc_name fc) VariantB.report_faces
                           then [curious] else []))
                      (VariantB.mood st)).
  { unfold VariantB.handleFunctionCall.
    destruct (String.eqb (fc_name fc) VariantB.update_sparky_mood);
      destruct (String.eqb (fc_name fc) VariantB.report_faces); reflexivity. }
  destruct (VariantB.handleFunctionCall fc st) as [s1 a1]. cbn [fst] in H1.
  specialize (IH s1). destruct (VariantB.handleToolCall rest s1) as [s2 a2].
  cbn [fst] in *. rewrite IH, H1, (last_app_cons _ (MoreB.requestedMoods rest)).
  reflexivity.
Qed.

(** X11.  The last mood request of a tool-call message wins.  After the
    message is handled (variant A: while the deafened flag is clear) the
    mood is the one asked for by the last call whose name the handler
    knows, whatever the calls before it asked for; in variant B a face
    report counts as a request for "curious"; and when no call of the
    message has a known name the mood is the one before the message. *)
Theorem last_mood_request_wins (calls : list FunctionCall) :
  (forall st,
      VariantA.isDeafened st = false ->
      VariantA.mood (fst (VariantA.onmessage (ToolCall calls) st))
      = last (MoreA.requestedMoods calls) (VariantA.mood st))
  /\ (forall st,
         VariantB.mood (fst (VariantB.onmessage (ToolCall calls) st))
         = last (MoreB.requestedMoods calls) (VariantB.mood st)).
Proof.
  split; intros st.
  - intros Hd. unfold VariantA.onmessage, ToolCall. rewrite Hd.
    cbn [turnComplete toolCall modelTurn interrupted].
    unfold VariantA.accumulate. cbn [outputTranscription inputTranscription].
    pose proof (handleToolCall_moodA calls st) as H.
    destruct (VariantA.handleToolCall calls st) as [s1 a1]. exact H.
  - unfold VariantB.onmessage, ToolCall.
    cbn [turnComplete toolCall modelTurn interrupted].
    pose proof (handleToolCall_moodB calls st) as H.
    destruct (VariantB.handleToolCall calls st) as [s1 a1]. exact H.
Qed.

Lemma last_mood_request_wins_witness :
  VariantA.mood
    (fst (VariantA.onmessage
            (ToolCall [moodCallOf VariantA.update_spark_mood "1" happy;
                       moodCallOf "set_alarm" "9" calm;
                       moodCallOf VariantA.update_spark_mood "2" sad;
                       moodCallOf VariantB.update_sparky_mood "3" excited])
            Examples.A.listening)) = sad.
Proof.
  apply (proj1 (last_mood_request_wins
                  [moodCallOf VariantA.update_spark_mood "1" happy;
                   moodCallOf "set_alarm" "9" calm;
                   moodCallOf VariantA.update_spark_mood "2" sad;
                   moodCallOf VariantB.update_sparky_mood "3" excited])
               Examples.A.listening).
  reflexivity.
Defined.

Lemma faceBoxes_indexes k faces :
  map face_index (VariantB.faceBoxes k faces) = seq k (List.length faces).
Proof.
  revert k. induction faces as [|f rest IH]; intros k; [reflexivity|].
  cbn [VariantB.faceBoxes map List.length seq face_index VariantB.faceBox].
  rewrite IH. reflexivity.
Qed.

Lemma faceBoxes_edges k faces :
  map (fun b => [ymin b; xmin b; ymax b; xmax b]) (VariantB.faceBoxes k faces)
  = map (fun f => [nth_error f 0; nth_error f 1; nth_error f 2; nth_error f 3]) faces.
Proof.
  revert k. induction faces as [|f rest IH]; intros k; [reflexivity|].
  cbn [VariantB.faceBoxes map]. rewrite IH. reflexivity.
Qed.

Lemma faceBoxes_length k faces :
  List.length (VariantB.faceBoxes k faces) = List.length faces.
Proof.
  revert k. induction faces as [|f rest IH]; intros k; [reflexivity|].
  cbn [VariantB.faceBoxes List.length]. rewrite IH. reflexivity.
Qed.

(** X12.  A face report (variant B) replaces the tracked boxes by one box
    per reported face, numbered 0, 1, ... in the order of the report, each
    with the four edges of its face in the order ymin, xmin, ymax, xmax (an
    edge the report leaves out is undefined); it sets the mood to
    "curious", appends one system entry that counts the faces, with
    "ENTITIES" only for two faces or more, so also "0 HUMAN ENTITY" for an
    empty report, and sends exactly one response, under the id of the
    call, that repeats the count. *)
Theorem face_report_tracks_every_box (id : string) (faces : list (list Z))
        (st : VariantB.State) :
  let '(st', acts) := VariantB.onmessage (ToolCall [facesCallOf id faces]) st in
  let n := List.length faces in
  map face_index (VariantB.detectedFaces st') = seq 0 n
  /\ map (fun b => [ymin b; xmin b; ymax b; xmax b]) (VariantB.detectedFaces st')
     = map (fun f => [nth_error f 0; nth_error f 1; nth_error f 2; nth_error f 3]) faces
  /\ VariantB.mood st' = curious
  /\ VariantB.history st'
     = VariantB.history st ++ [{| type := system; text := MoreB.faceSentence n |}]
  /\ acts = [SendToolResponse id VariantB.report_faces
               ("Tracking " ++ string_of_nat n ++ " faces.")%string].
Proof.
  unfold VariantB.onmessage, ToolCall, facesCallOf.
  cbn [turnComplete toolCall modelTurn interrupted VariantB.handleToolCall].
  unfold VariantB.handleFunctionCall. cbn [fc_name fc_args fc_id arg_faces].
  change (String.eqb VariantB.report_faces VariantB.update_sparky_mood) with false.
  change (String.eqb VariantB.report_faces VariantB.report_faces) with true.
  cbv iota. unfold VariantB.accumulate.
  cbn [outputTranscription inputTranscription app].
  cbn -[VariantB.faceBoxes string_of_nat seq String.append Nat.ltb].
  rewrite faceBoxes_indexes, faceBoxes_edges, !faceBoxes_length.
  unfold MoreB.faceSentence.
  destruct (Nat.ltb 1 (List.length faces)); splits; reflexivity.
Qed.

End Moods.

(** ** Further properties: silencing, closing a turn, opening the link *)

Section Silencing.

Lemma step_deafened_mono ev st :
  VariantA.isDeafened st = true -> TraceA.keepsDeafened ev = true -> TraceA.sane ev ->
  VariantA.isDeafened (fst (VariantA.step ev st)) = true
  /\ VariantA.nextStartTimeRef st <= VariantA.nextStartTimeRef (fst (VariantA.step ev st)).
Proof.
  intros Hd Hk Hs. destruct ev as [|now d|msg|id|inputData| |]; cbn [VariantA.step].
  - pose proof (FactsA.onopen_chain st) as H. pose proof (FactsA.onopen_started st) as S.
    destruct (VariantA.onopen st) as [st1 a1]. cbn [fst snd] in *.
    destruct H as (_ & H & D & _). rewrite S in H. cbn in H. rewrite D. split; [exact Hd|lia].
  - cbn [TraceA.sane] in Hs. unfold VariantA.speakText_resolved.
    pose proof (RunsA.playBuffer_mono now d st Hs) as M.
    pose proof (FactsA.playBuffer_chain now d st) as C.
    destruct (VariantA.playBuffer now d st) as [st1 a1]. cbn [fst] in *.
    destruct C as (_ & _ & D & _).
    destruct (FactsA.playback_eq st1 (VariantA.addLog robot VariantA.GREETING_TEXT st1)
                (FactsA.playback_addLog _ _ _)) as (P1 & _ & P3).
    rewrite P1, P3, D. split; [exact Hd|exact M].
  - unfold VariantA.onmessage. rewrite Hd. cbn [fst]. split; [exact Hd|lia].
  - destruct (FactsA.onended_cursor id st) as (H1 & H2 & _). cbn [fst].
    rewrite H1, H2. split; [exact Hd|lia].
  - pose proof (FactsA.onaudioprocess_frame inputData st) as (H1 & _).
    apply FactsA.playback_eq in H1 as (Pc & _ & Pd). rewrite Pc, Pd. split; [exact Hd|lia].
  - cbn. split; [exact Hd|lia].
  - discriminate Hk.
Qed.

Lemma run_deafened_mono evs st :
  VariantA.isDeafened st = true -> forallb TraceA.keepsDeafened evs = true ->
  Forall TraceA.sane evs ->
  VariantA.isDeafened (fst (VariantA.run evs st)) = true
  /\ VariantA.nextStartTimeRef st <= VariantA.nextStartTimeRef (fst (VariantA.run evs st)).
Proof.
  revert st. induction evs as [|ev rest IH]; intros st Hd Hk Hs; cbn [VariantA.run].
  { cbn. split; [exact Hd|lia]. }
  cbn [forallb] in Hk. apply andb_true_iff in Hk as [Hk1 Hk2].
  inversion Hs as [|? ? Hs1 Hs2]; subst.
  pose proof (step_deafened_mono ev st Hd Hk1 Hs1) as (D1 & C1).
  destruct (VariantA.step ev st) as [st1 a1]. cbn [fst] in *.
  specialize (IH st1 D1 Hk2 Hs2) as (D2 & C2).
  destruct (VariantA.run rest st1) as [st2 a2]. cbn [fst] in *.
  split; [exact D2|lia].
Qed.

Lemma toggleDeafened_on st :
  VariantA.isDeafened st = false ->
  VariantA.isDeafened (fst (VariantA.toggleDeafened st)) = true
  /\ VariantA.sourcesRef (fst (VariantA.toggleDeafened st)) = []
  /\ VariantA.nextStartTimeRef (fst (VariantA.toggleDeafened st))
     = VariantA.nextStartTimeRef st.
Proof.
  intros Hd. unfold VariantA.toggleDeafened, VariantA.useEffect_isDeafened.
  cbn [VariantA.isDeafened VariantA.setIsDeafened]. rewrite Hd. cbn. auto.
Qed.

Lemma toggleDeafened_off st :
  VariantA.isDeafened st = true ->
  VariantA.isDeafened (fst (VariantA.toggleDeafened st)) = false
  /\ VariantA.sourcesRef (fst (VariantA.toggleDeafened st)) = VariantA.sourcesRef st
  /\ VariantA.nextStartTimeRef (fst (VariantA.toggleDeafened st))
     = VariantA.nextStartTimeRef st.
Proof.
  intros Hd. unfold VariantA.toggleDeafened, VariantA.useEffect_isDeafened.
  cbn [VariantA.isDeafened VariantA.setIsDeafened]. rewrite Hd. cbn. auto.
Qed.

(** X13.  Silencing the robot never rewinds the playback cursor (variant
    A).  From a state with the deafened flag clear, switching the flag on,
    handling any events that do not touch it, and switching it off again
    leaves the cursor where it was or further on, so the next audio
    fragment starts no earlier than the larger of the old cursor and the
    clock.  When no greeting request resolves in between, the cursor is
    exactly where it was and nothing is in flight; a greeting that does
    resolve is scheduled and moves the cursor on.  Decoded durations are
    not negative. *)
Theorem deafen_does_not_rewind_cursor (evs : list VariantA.Event) (now d : time)
        (st : VariantA.State) :
  VariantA.isDeafened st = false ->
  forallb TraceA.keepsDeafened evs = true ->
  Forall TraceA.sane evs ->
  let st1 := fst (VariantA.run (VariantA.ToggleDeafened :: evs ++ [VariantA.ToggleDeafened]) st) in
  VariantA.isDeafened st1 = false
  /\ VariantA.nextStartTimeRef st <= VariantA.nextStartTimeRef st1
  /\ (forallb TraceA.inbound evs = true ->
      VariantA.sourcesRef st1 = []
      /\ VariantA.nextStartTimeRef st1 = VariantA.nextStartTimeRef st)
  /\ map node_when (started (snd (VariantA.onmessage (AudioFragment now d) st1)))
     = [Z.max (VariantA.nextStartTimeRef st1) now]
  /\ Z.max (VariantA.nextStartTimeRef st) now <= Z.max (VariantA.nextStartTimeRef st1) now.
Proof.
  intros Hd Hk Hs st1.
  assert (H : VariantA.isDeafened st1 = false
              /\ VariantA.nextStartTimeRef st <= VariantA.nextStartTimeRef st1
              /\ (forallb TraceA.inbound evs = true ->
                  VariantA.sourcesRef st1 = []
                  /\ VariantA.nextStartTimeRef st1 = VariantA.nextStartTimeRef st)).
  { unfold st1. cbn [VariantA.run VariantA.step].
    destruct (toggleDeafened_on st Hd) as (D0 & S0 & C0).
    destruct (VariantA.toggleDeafened st) as [s0 a0]. cbn [fst] in *.
    pose proof (run_app_A evs [VariantA.ToggleDeafened] s0) as L.
    destruct (VariantA.run (evs ++ [VariantA.ToggleDeafened]) s0) as [s2 a2].
    cbn [fst] in *. rewrite L.
    destruct (run_deafened_mono evs s0 D0 Hk Hs) as (D1 & M1).
    pose proof (fun Hi => RunsA.run_deafened evs s0 D0 S0 Hi) as Q.
    destruct (VariantA.run evs s0) as [s1 a1]. cbn [fst snd] in *.
    cbn [VariantA.run VariantA.step].
    destruct (toggleDeafened_off s1 D1) as (D2 & S2 & C2).
    destruct (VariantA.toggleDeafened s1) as [s3 a3]. cbn [fst] in *.
    rewrite D2, C2, S2. split; [reflexivity|]. split; [lia|].
    intros Hi. destruct (Q Hi) as (_ & Q2 & _ & _ & Q5). split; [exact Q2|]. lia. }
  destruct H as (H1 & H2 & H3). splits; auto; [|lia].
  unfold VariantA.onmessage, AudioFragment. rewrite H1.
  cbn [turnComplete toolCall modelTurn interrupted].
  unfold VariantA.accumulate. cbn [outputTranscription inputTranscription].
  cbn [VariantA.playParts]. unfold VariantA.playBuffer. cbn. reflexivity.
Qed.

(** While the robot is silenced a fragment is discarded, a pending greeting
    resolves and the microphone is muted. *)
Lemma deafen_does_not_rewind_cursor_witness :
  let st1 := fst (VariantA.run
                    (VariantA.ToggleDeafened
                       :: [VariantA.Message (AudioFragment 6 3);
                           VariantA.SpeechResolved 1 2; VariantA.ToggleMuted]
                       ++ [VariantA.ToggleDeafened])
                    Examples.A.playing) in
  VariantA.isDeafened st1 = false
  /\ VariantA.nextStartTimeRef Examples.A.playing <= VariantA.nextStartTimeRef st1
  /\ map node_when (started (snd (VariantA.onmessage (AudioFragment 1 2) st1)))
     = [Z.max (VariantA.nextStartTimeRef st1) 1].
Proof.
  assert (S : Forall TraceA.sane
                [VariantA.Message (AudioFragment 6 3);
                 VariantA.SpeechResolved 1 2; VariantA.ToggleMuted]).
  { repeat constructor; cbn; lia. }
  destruct (deafen_does_not_rewind_cursor
              [VariantA.Message (AudioFragment 6 3);
               VariantA.SpeechResolved 1 2; VariantA.ToggleMuted] 1 2
              Examples.A.playing eq_refl eq_refl S) as (H1 & H2 & _ & H4 & _).
  cbv zeta. auto.
Defined.

Lemma append_empty (s : string) : (s ++ "")%string = s.
Proof. induction s as [|c s IH]; [reflexivity|]. cbn. rewrite IH. reflexivity. Qed.

(** X14.  Transcripts that arrive in the message that ends the turn.
    Variant A reads at most one of them, the output text when there is one
    and the input text otherwise, adds it to its accumulator and logs it
    with the turn.  Variant B logs the turn from the texts accumulated by
    the earlier messages only: what the closing message itself carries
    reaches neither the log nor the accumulators, which are left empty. *)
Theorem transcript_in_closing_message (heard said : option string) :
  (forall st,
      VariantA.isDeafened st = false ->
      let st' := fst (VariantA.onmessage (closingMessage heard said) st) in
      VariantA.history st'
      = VariantA.history st
          ++ turnEntry user (VariantA.liveInput st ++ keptInput heard said)
          ++ turnEntry robot (VariantA.liveOutput st ++ keptOutput said)
      /\ VariantA.liveInput st' = "" /\ VariantA.liveOutput st' = "")
  /\ (forall st,
         TraceB.synced st ->
         let st' := fst (VariantB.onmessage (closingMessage heard said) st) in
         VariantB.history st'
         = VariantB.history st
             ++ turnEntry user (VariantB.currentInput st)
             ++ turnEntry robot (VariantB.currentOutput st)
         /\ VariantB.currentInput st' = "" /\ VariantB.currentOutput st' = "").
Proof.
  split; intros st.
  - intros Hd st'. unfold st', VariantA.onmessage, closingMessage. rewrite Hd.
    cbn [turnComplete toolCall modelTurn interrupted andb fst app].
    match goal with
    | |- context [VariantA.flushTurn ?s] =>
        destruct (flushTurnA s) as (H1 & H2 & H3); rewrite H1, H2, H3
    end.
    unfold VariantA.accumulate, keptInput, keptOutput.
    cbn [outputTranscription inputTranscription].
    destruct said as [t|]; [|destruct heard as [t|]]; cbn; rewrite ?append_empty; auto.
  - intros (_ & Si & So) st'. unfold st', VariantB.onmessage, closingMessage.
    cbn [turnComplete toolCall modelTurn interrupted fst app].
    match goal with
    | |- context [VariantB.flushTurn ?s] =>
        destruct (flushTurnB s) as (H1 & H2 & H3); rewrite H1, H2, H3
    end.
    unfold VariantB.accumulate. cbn [outputTranscription inputTranscription].
    destruct said as [t|]; destruct heard as [u|]; cbn; rewrite Si, So; auto.
Qed.

Lemma transcript_in_closing_message_witness :
  (let st' := fst (VariantA.onmessage (closingMessage (Some "hi") (Some "Bye"))
                     Examples.A.listening) in
   VariantA.history st'
   = VariantA.history Examples.A.listening
       ++ turnEntry user (VariantA.liveInput Examples.A.listening
                          ++ keptInput (Some "hi") (Some "Bye"))
       ++ turnEntry robot (VariantA.liveOutput Examples.A.listening
                           ++ keptOutput (Some "Bye"))
   /\ VariantA.liveInput st' = "" /\ VariantA.liveOutput st' = "")
  /\ (let st' := fst (VariantB.onmessage (closingMessage (Some "hi") (Some "Bye"))
                        Examples.B.listening) in
      VariantB.history st'
      = VariantB.history Examples.B.listening
          ++ turnEntry user (VariantB.currentInput Examples.B.listening)
          ++ turnEntry robot (VariantB.currentOutput Examples.B.listening)
      /\ VariantB.currentInput st' = "" /\ VariantB.currentOutput st' = "").
Proof.
  split.
  - apply (proj1 (transcript_in_closing_message (Some "hi") (Some "Bye"))
                 Examples.A.listening).
    reflexivity.
  - apply (proj2 (transcript_in_closing_message (Some "hi") (Some "Bye"))
                 Examples.B.listening).
    unfold TraceB.synced. splits; reflexivity.
Defined.


End Silencing.

Section Opening.


End Opening.

(** ** Further properties: an error event on the live stream *)

Section StreamError.

(** X16.  An error event on the live stream of variant B changes the
    display only.  The state becomes ERROR and a warning is put on display
    (naming "Signal lost" when the error has no message); nothing is sent,
    closed or stopped, and the session, the active flag, the in-flight set,
    the cursor and the log stay as they were.  The engine keeps running:
    once the new state is committed, microphone frames are still sent, one
    chunk per frame in order, without moving the level meter (with or
    without commits between the frames), and the next audio fragment is
    scheduled and puts the state back to SPEAKING while the warning stays
    on display. *)
Theorem stream_error_keeps_session (err : JsError) (frames : list (list Q))
        (now d : time) (st : VariantB.State) :
  let '(st1, acts) := MoreB.onerror err st in
  acts = []
  /\ VariantB.robotState st1 = ERROR
  /\ option_map detail_type (VariantB.errorDetail st1) = Some warning
  /\ (message err = "" ->
      option_map detail_message (VariantB.errorDetail st1)
      = Some "Neural link unstable: Signal lost. Ensure your API key is correctly configured.")
  /\ VariantB.sessionRef st1 = VariantB.sessionRef st
  /\ VariantB.isActive st1 = VariantB.isActive st
  /\ TraceB.playback st1 = TraceB.playback st
  /\ VariantB.history st1 = VariantB.history st
  /\ (let '(st2, sends) :=
        VariantB.run (MoreB.microphone frames) (VariantB.useEffect_sync st1) in
      sent sends = map AudioPcm frames
      /\ VariantB.volume st2 = VariantB.volume st)
  /\ (let '(st2, sends) :=
        VariantB.run (MoreB.microphone_committed frames) (VariantB.useEffect_sync st1) in
      sent sends = map AudioPcm frames
      /\ VariantB.volume st2 = VariantB.volume st)
  /\ (let '(st2, plays) :=
        VariantB.step (VariantB.Message (AudioFragment now d))
                      (VariantB.useEffect_sync st1) in
      List.length (started plays) = 1%nat
      /\ VariantB.robotState st2 = SPEAKING
      /\ VariantB.errorDetail st2 = VariantB.errorDetail st1).
Proof.
  unfold MoreB.onerror. cbv beta iota zeta.
  set (st1 := VariantB.setErrorDetail _ (VariantB.setRobotState ERROR st)).
  assert (R : VariantB.robotState (VariantB.useEffect_sync st1) = ERROR) by reflexivity.
  do 3 (split; [reflexivity|]).
  split. { intros E. unfold st1. rewrite E. reflexivity. }
  do 4 (split; [reflexivity|]).
  split; [|split].
  - assert (N1 : VariantB.robotState (VariantB.useEffect_sync st1) <> IDLE)
      by (rewrite R; discriminate).
    assert (N2 : VariantB.robotState (VariantB.useEffect_sync st1) <> LISTENING)
      by (rewrite R; discriminate).
    pose proof (microphone_streamB frames (VariantB.useEffect_sync st1) N1 eq_refl) as H.
    destruct (VariantB.run (MoreB.microphone frames) (VariantB.useEffect_sync st1))
      as [st2 sends].
    destruct H as (H1 & _ & H3). split; [exact H1|]. rewrite (H3 N2). reflexivity.
  - assert (N1 : VariantB.robotState (VariantB.useEffect_sync st1) <> IDLE)
      by (rewrite R; discriminate).
    assert (N2 : VariantB.robotState (VariantB.useEffect_sync st1) <> LISTENING)
      by (rewrite R; discriminate).
    pose proof (microphone_committedB frames (VariantB.useEffect_sync st1) N1 eq_refl) as H.
    destruct (VariantB.run (MoreB.microphone_committed frames)
                (VariantB.useEffect_sync st1)) as [st2 sends].
    destruct H as (H1 & _ & H3). split; [exact H1|]. rewrite (H3 N2). reflexivity.
  - cbn [VariantB.step]. unfold AudioFragment.
    unfold VariantB.onmessage.
    cbn [turnComplete toolCall modelTurn interrupted VariantB.playParts].
    unfold VariantB.playPart, VariantB.playBuffer, VariantB.accumulate.
    cbn [outputTranscription inputTranscription].
    unfold VariantB.anchor.
    destruct (VariantB.sourcesRef (VariantB.useEffect_sync st1));
      [|destruct (VariantB.nextStartTimeRef (VariantB.useEffect_sync st1) <? now)];
      destruct (RobotState_eqb _ SPEAKING); cbv beta iota zeta; splits; reflexivity.
Qed.

Lemma stream_error_keeps_session_witness :
  option_map detail_message
    (VariantB.errorDetail
       (fst (MoreB.onerror {| name := "Error"; message := "" |} Examples.B.playing)))
  = Some "Neural link unstable: Signal lost. Ensure your API key is correctly configured.".
Proof.
  pose proof (stream_error_keeps_session {| name := "Error"; message := "" |}
                [Examples.frame] 9 2 Examples.B.playing) as H.
  destruct (MoreB.onerror {| name := "Error"; message := "" |} Examples.B.playing)
    as [st1 acts].
  destruct H as (_ & _ & _ & H & _). apply H. reflexivity.
Defined.

End StreamError.
